(** * The lambda platform backend: deployment reconciliation, configuration
      variables and log reading.

    A shallow embedding of [builtin/lambda] (the [Deployer] and the
    [cloudwatchLogsViewer]).  Every remote call of the Go code (lambda, s3,
    s3manager, cloudwatchlogs) and every file-system call is a command of a
    small command monad; a program is run against arbitrary services, which
    answer each command from a world state, and the run records the trace of
    commands together with their answers.  Theorems quantify over all
    services and every world, so they hold whatever the remote side does. *)

From Stdlib Require Import ZArith String List Ascii Lia Bool.
From Stdlib.Strings Require Import Byte.
From stdpp Require Import base gmap strings list pretty.

Local Open Scope string_scope.
Local Open Scope Z_scope.

(** ** Errors and results *)

(** Go's [error] values.  An error coming back from a remote service or from
    the operating system is opaque to the program; [errors.Wrapf] puts a
    message around a cause. *)
Inductive error : Type :=
| ApiError (msg : string)
| ErrNoSuchVariable
| Wrapf (cause : error) (msg : string).

(** The [(out, err)] pair every SDK call returns: exactly one of them is set. *)
Inductive result (A : Type) : Type :=
| Ok (a : A)
| Err (e : error).
Arguments Ok {A} a.
Arguments Err {A} e.

(** ** Data of the repository

    [component.Source], [component.ConfigVar], [component.LogEvent],
    [component.ErrNoSuchVariable] and [AppInfo] are declared in other files of
    the repository; they are given here with the fields [builtin/lambda]
    reads and writes. *)

(** [component.Source]. *)
Record Source := { App : string }.

(** [component.ConfigVar]. *)
Record ConfigVar := { Name : string; Value : string }.

(** [AppInfo], the build metadata. *)
Record AppInfo := {
  BuildId : string;
  Runtime : string;
  AppZip : string;
  PreZip : string;
  LibZip : string
}.

Record DeployConfig := { Bucket : string }.

Record Deployer := {
  config : DeployConfig;
  roleName : string;
  roleArn : string
}.

Definition DefaultMemory : Z := 256.
Definition DefaultTimeout : Z := 60.

(** [time.Time], as seconds since the epoch and nanoseconds within the
    second. *)
Record Time := { t_sec : Z; t_nsec : Z }.

(** [component.LogEvent]. *)
Record LogEvent := {
  Partition : string;
  Timestamp : Time;
  Message : string
}.

(** ** Data of the SDK, with the fields the code reads or writes.

    A pointer field that the code dereferences without a check is a plain
    value here (the services always fill it); a pointer that the code tests,
    copies as a pointer or leaves unset is an [option]. *)

(** An open [*os.File], known by the path it was opened from. *)
Record File := { f_path : string }.

Record LayerVersionsListItem := { lvi_Version : Z }.
Record ListLayerVersionsOutput := { LayerVersions : list LayerVersionsListItem }.

Record GetLayerVersionInput := { glv_LayerName : string; glv_VersionNumber : Z }.
Record GetLayerVersionOutput := {
  glv_CodeSha256 : string;        (* Content.CodeSha256 *)
  glv_LayerVersionArn : string
}.

Record HeadObjectInput := { ho_Bucket : string; ho_Key : string }.
Record HeadObjectOutput := { ETag : string }.

Record UploadInput := { up_Body : File; up_Bucket : string; up_Key : string }.

Record PublishLayerVersionInput := {
  plv_Description : string;
  plv_LayerName : string;
  plv_CompatibleRuntimes : list string;
  plv_S3Bucket : string;          (* Content.S3Bucket *)
  plv_S3Key : string              (* Content.S3Key *)
}.
Record PublishLayerVersionOutput := {
  plo_LayerArn : string;
  plo_LayerVersionArn : string;
  plo_CodeSha256 : string         (* Content.CodeSha256 *)
}.

Record Layer := { Arn : string }.

(** [lambda.EnvironmentResponse]: [Variables] is a Go map, which may be the
    nil map ([None]); the values of its entries are never nil. *)
Record EnvironmentResponse := { Variables : option (gmap string string) }.

Record FunctionConfiguration := {
  Layers : list Layer;
  Environment : option EnvironmentResponse;
  Handler : option string;
  Role : option string;
  Timeout : option Z;
  MemorySize : option Z;
  fc_Runtime : option string;
  CodeSha256 : string;
  FunctionArn : string
}.

Record GetFunctionOutput := { Configuration : FunctionConfiguration }.

Record UpdateFunctionConfigurationInput := {
  ufc_FunctionName : string;
  ufc_Layers : list string;
  ufc_Handler : option string;
  ufc_Environment : option (gmap string string);   (* Environment.Variables *)
  ufc_Role : option string;
  ufc_Timeout : option Z;
  ufc_MemorySize : option Z;
  ufc_Runtime : option string
}.

Record UpdateFunctionCodeInput := {
  ufk_FunctionName : string;
  ufk_S3Bucket : string;
  ufk_S3Key : string
}.

Record PublishVersionInput := {
  pv_CodeSha256 : option string;
  pv_FunctionName : string
}.

Record CreateFunctionInput := {
  cf_Description : string;
  cf_FunctionName : string;
  cf_Handler : string;
  cf_Role : string;
  cf_Runtime : string;
  cf_Layers : list string;
  cf_Timeout : Z;
  cf_MemorySize : Z;
  cf_Tags : gmap string string;
  cf_S3Bucket : string;           (* Code.S3Bucket *)
  cf_S3Key : string               (* Code.S3Key *)
}.

Record LogStream := { LogStreamName : string }.

Record DescribeLogStreamsInput := {
  dls_LogGroupName : string;
  dls_Descending : bool;
  dls_OrderBy : string
}.
Record DescribeLogStreamsOutput := { LogStreams : list LogStream }.

Record GetLogEventsInput := {
  gle_NextToken : option string;
  gle_StartFromHead : bool;
  gle_LogGroupName : string;
  gle_LogStreamName : string
}.
Record OutputLogEvent := { ole_Timestamp : Z; ole_Message : string }.
Record GetLogEventsOutput := {
  Events : list OutputLogEvent;
  NextForwardToken : option string
}.

(** ** Commands: the calls that leave the process

    [HashFile] is a function of the repository defined in another file: it
    reads the file at a path and returns the raw digest of its bytes, or an
    error.  It is a command here, answered by the world like the calls of the
    SDK and of the operating system. *)

Inductive Cmd : Type :=
| HashFile (path : string)
| os_Open (path : string)
| file_Stat (f : File)
| lambda_ListLayerVersions (layerName : string)
| lambda_GetLayerVersion (i : GetLayerVersionInput)
| s3_HeadObject (i : HeadObjectInput)
| s3manager_Upload (i : UploadInput)
| lambda_PublishLayerVersion (i : PublishLayerVersionInput)
| lambda_GetFunction (functionName : string)
| lambda_UpdateFunctionConfiguration (i : UpdateFunctionConfigurationInput)
| lambda_UpdateFunctionCode (i : UpdateFunctionCodeInput)
| lambda_PublishVersion (i : PublishVersionInput)
| lambda_CreateFunction (i : CreateFunctionInput)
| logs_DescribeLogStreams (i : DescribeLogStreamsInput)
| logs_GetLogEvents (i : GetLogEventsInput).

(** What a command answers when it succeeds. *)
Definition Out (c : Cmd) : Type :=
  match c with
  | HashFile _ => list byte
  | os_Open _ => File
  | file_Stat _ => Z
  | lambda_ListLayerVersions _ => ListLayerVersionsOutput
  | lambda_GetLayerVersion _ => GetLayerVersionOutput
  | s3_HeadObject _ => HeadObjectOutput
  | s3manager_Upload _ => unit
  | lambda_PublishLayerVersion _ => PublishLayerVersionOutput
  | lambda_GetFunction _ => GetFunctionOutput
  | lambda_UpdateFunctionConfiguration _ => FunctionConfiguration
  | lambda_UpdateFunctionCode _ => FunctionConfiguration
  | lambda_PublishVersion _ => FunctionConfiguration
  | lambda_CreateFunction _ => FunctionConfiguration
  | logs_DescribeLogStreams _ => DescribeLogStreamsOutput
  | logs_GetLogEvents _ => GetLogEventsOutput
  end.

(** ** The command monad *)

Inductive Prog (A : Type) : Type :=
| Ret (a : A)
| Panic
| Call (c : Cmd) (k : result (Out c) -> Prog A).
Arguments Ret {A} a.
Arguments Panic {A}.
Arguments Call {A} c k.

Fixpoint bind {A B : Type} (p : Prog A) (f : A -> Prog B) : Prog B :=
  match p with
  | Ret a => f a
  | Panic => Panic
  | Call c k => Call c (fun r => bind (k r) f)
  end.

Definition call (c : Cmd) : Prog (result (Out c)) := Call c Ret.

Notation "'let*' x := p 'in' q" := (bind p (fun x => q))
  (at level 10, x name, p at level 100, q at level 200).

(** One entry of a trace: a command and the answer it got. *)
Inductive Event : Type :=
| Ev (c : Cmd) (r : result (Out c)).

Definition ev_cmd (e : Event) : Cmd := let 'Ev c _ := e in c.

Definition ev_err (e : Event) : option error :=
  match e with
  | Ev _ (Err x) => Some x
  | Ev _ (Ok _) => None
  end.

(** How a Go function ends: it returns, or a run-time panic unwinds it. *)
Inductive Outcome (A : Type) : Type :=
| Done (a : A)
| Crashed.
Arguments Done {A} a.
Arguments Crashed {A}.

(** The services behind the commands: each command is answered from the
    current world, which the answer may change. *)
Definition Services (W : Type) : Type := forall c : Cmd, W -> result (Out c) * W.

Fixpoint run {W A : Type} (h : Services W) (p : Prog A) (w : W)
  : Outcome A * W * list Event :=
  match p with
  | Ret a => (Done a, w, [])
  | Panic => (Crashed, w, [])
  | Call c k =>
      let '(r, w1) := h c w in
      let '(o, w2, t) := run h (k r) w1 in
      (o, w2, Ev c r :: t)
  end.

(** ** Library functions of Go that the code calls *)

Definition b64_alphabet : string :=
  "ABCDEFGHIJKLMNOPQRSTUVWXYZabcdefghijklmnopqrstuvwxyz0123456789+/".

Definition b64_char (n : N) : ascii :=
  default "="%char (String.get (N.to_nat n) b64_alphabet).

(** [base64.StdEncoding.EncodeToString]. *)
Fixpoint EncodeToString (src : list byte) : string :=
  match src with
  | [] => ""
  | [a] =>
      let v := (Byte.to_N a * 65536)%N in
      String (b64_char (v / 262144)) (String (b64_char (v / 4096 mod 64)) "==")
  | [a; b] =>
      let v := (Byte.to_N a * 65536 + Byte.to_N b * 256)%N in
      String (b64_char (v / 262144)) (String (b64_char (v / 4096 mod 64))
        (String (b64_char (v / 64 mod 64)) "="))
  | a :: b :: c :: rest =>
      let v := (Byte.to_N a * 65536 + Byte.to_N b * 256 + Byte.to_N c)%N in
      String (b64_char (v / 262144)) (String (b64_char (v / 4096 mod 64))
        (String (b64_char (v / 64 mod 64)) (String (b64_char (v mod 64))
          (EncodeToString rest))))
  end.

Fixpoint in_cutset (c : ascii) (cutset : string) : bool :=
  match cutset with
  | EmptyString => false
  | String x rest => Ascii.eqb c x || in_cutset c rest
  end.

(** [strings.TrimRight s cutset]: [s] without its longest suffix made of
    characters of [cutset]. *)
Fixpoint TrimRight (s cutset : string) : string :=
  match s with
  | EmptyString => EmptyString
  | String c rest =>
      match TrimRight rest cutset with
      | EmptyString => if in_cutset c cutset then EmptyString else String c EmptyString
      | String c' rest' => String c (String c' rest')
      end
  end.

(** [time.Unix sec nsec], which accepts [nsec] outside [0, 999999999] and
    normalises it.  For the arguments [NextLogBatch] passes no intermediate
    value leaves the int64 range ([toLogEvent_time_no_overflow] below), so
    the arithmetic is that of [Z]; Go's [/] and [%] truncate towards zero,
    which is [Z.quot] and [Z.rem]. *)
Definition time_Unix (sec nsec : Z) : Time :=
  if (nsec <? 0) || (nsec >=? 1000000000) then
    let n := Z.quot nsec 1000000000 in
    let sec := sec + n in
    let nsec := nsec - n * 1000000000 in
    if nsec <? 0
    then {| t_sec := sec - 1; t_nsec := nsec + 1000000000 |}
    else {| t_sec := sec; t_nsec := nsec |}
  else {| t_sec := sec; t_nsec := nsec |}.

(** The cutset ["\n\t"] of [NextLogBatch]: line feed and horizontal tab. *)
Definition newline_tab : string := String "010" (String "009" EmptyString).

(** ** Layers *)

Definition LambdaCodeSha256 (path : string) : Prog (string * option error) :=
  let* sumRaw := call (HashFile path) in
  match sumRaw with
  | Err err => Ret ("", Some err)
  | Ok sumRaw => Ret (EncodeToString sumRaw, None)
  end.

(** The [for _, ver := range list.LayerVersions] loop of [CreateLayer].
    [Some ret] is a [return ret] from inside the loop, [None] is the loop
    running to its end. *)
Fixpoint scanLayerVersions (name sum : string) (vers : list LayerVersionsListItem)
  : Prog (option (string * option error)) :=
  match vers with
  | [] => Ret None
  | ver :: rest =>
      let* info := call (lambda_GetLayerVersion
                           {| glv_LayerName := name;
                              glv_VersionNumber := lvi_Version ver |}) in
      match info with
      | Err err => Ret (Some ("", Some err))
      | Ok info =>
          if String.eqb (glv_CodeSha256 info) sum
          then Ret (Some (glv_LayerVersionArn info, None))
          else scanLayerVersions name sum rest
      end
  end.

(** The object key of a layer: [fmt.Sprintf("%s-%s-%s.zip", app.App,
    info.BuildId, name)]. *)
Definition layerKey (app : Source) (info : AppInfo) (name : string) : string :=
  App app +:+ "-" +:+ BuildId info +:+ "-" +:+ name +:+ ".zip".

Definition layerDescription (app : Source) (info : AppInfo) : string :=
  "devflow app " +:+ App app +:+ " - " +:+ BuildId info.

(** The second half of [CreateLayer], from [s3.New] on: open the file, look
    for the object, upload it when it is not there, publish the version. *)
Definition CreateLayer_publish (d : Deployer) (app : Source) (info : AppInfo)
    (name path : string) : Prog (string * option error) :=
  let* f := call (os_Open path) in
  match f with
  | Err err => Ret ("", Some err)
  | Ok f =>
  let* stat := call (file_Stat f) in
  match stat with
  | Err err => Ret ("", Some err)
  | Ok _ =>
  let layerName := layerKey app info name in
  let* headOut := call (s3_HeadObject {| ho_Bucket := Bucket (config d);
                                         ho_Key := layerName |}) in
  let* early :=
    match headOut with
    | Ok _ => Ret None
    | Err _ =>
        let* up := call (s3manager_Upload {| up_Body := f;
                                             up_Bucket := Bucket (config d);
                                             up_Key := layerName |}) in
        match up with
        | Err _ => Ret (Some ("", @None error))
        | Ok _ => Ret None
        end
    end in
  match early with
  | Some ret => Ret ret
  | None =>
  let* pubOut := call (lambda_PublishLayerVersion
                         {| plv_Description := layerDescription app info;
                            plv_LayerName := name;
                            plv_CompatibleRuntimes := [Runtime info];
                            plv_S3Bucket := Bucket (config d);
                            plv_S3Key := layerName |}) in
  match pubOut with
  | Err err => Ret ("", Some (Wrapf err ("attempting to publish: " +:+ path)))
  | Ok pubOut => Ret (plo_LayerVersionArn pubOut, None)
  end end end end.

Definition CreateLayer (d : Deployer) (app : Source) (info : AppInfo)
    (name path : string) : Prog (string * option error) :=
  let* sum := LambdaCodeSha256 path in
  match sum with
  | (_, Some err) => Ret ("", Some err)
  | (sum, None) =>
  let* list := call (lambda_ListLayerVersions name) in
  let* early :=
    match list with
    | Ok list => scanLayerVersions name sum (LayerVersions list)
    | Err _ => Ret None
    end in
  match early with
  | Some ret => Ret ret
  | None => CreateLayer_publish d app info name path
  end end.

Definition CreateLibraryLayer (d : Deployer) (app : Source) (info : AppInfo)
    (path : string) : Prog (string * option error) :=
  CreateLayer d app info (App app +:+ "-lib") path.

Definition CreatePreLayer (d : Deployer) (app : Source) (info : AppInfo)
    (path : string) : Prog (string * option error) :=
  CreateLayer d app info (App app +:+ "-pre") path.

(** ** The function *)

(** The object key of the application package:
    [fmt.Sprintf("%s-%s-app.zip", app.App, info.BuildId)]. *)
Definition appKey (app : Source) (info : AppInfo) : string :=
  App app +:+ "-" +:+ BuildId info +:+ "-app.zip".

(** The loop of [CreateFunction] over [fnInfo.Configuration.Layers]:
    [newLayers] becomes true at the first attached layer that is neither
    [preLayer] nor [libLayer], and the loop breaks there. *)
Fixpoint newLayers (layers : list Layer) (preLayer libLayer : string) : bool :=
  match layers with
  | [] => false
  | layer :: rest =>
      if negb (String.eqb (Arn layer) preLayer || String.eqb (Arn layer) libLayer)
      then true
      else newLayers rest preLayer libLayer
  end.

Definition updateConfigInput (d : Deployer) (app : Source) (info : AppInfo)
    (preLayer libLayer : string) : UpdateFunctionConfigurationInput :=
  {| ufc_FunctionName := App app;
     ufc_Layers := [preLayer; libLayer];
     ufc_Handler := Some "app.handler";
     ufc_Environment := None;
     ufc_Role := Some (roleArn d);
     ufc_Timeout := Some DefaultTimeout;
     ufc_MemorySize := Some DefaultMemory;
     ufc_Runtime := Some (Runtime info) |}.

Definition createInput (d : Deployer) (app : Source) (info : AppInfo)
    (preLayer libLayer layerName : string) : CreateFunctionInput :=
  {| cf_Description := layerDescription app info;
     cf_FunctionName := App app;
     cf_Handler := "app.handler";
     cf_Role := roleArn d;
     cf_Runtime := Runtime info;
     cf_Layers := [preLayer; libLayer];
     cf_Timeout := DefaultTimeout;
     cf_MemorySize := DefaultMemory;
     cf_Tags := <["devflow.app" := App app]> (<["devflow.app.id" := BuildId info]> ∅);
     cf_S3Bucket := Bucket (config d);
     cf_S3Key := layerName |}.

(** The branch of [CreateFunction] taken when [GetFunction] succeeded. *)
Definition CreateFunction_update (d : Deployer) (app : Source) (info : AppInfo)
    (layerName preLayer libLayer : string) (fnInfo : GetFunctionOutput)
  : Prog (string * option error) :=
  let* early :=
    if newLayers (Layers (Configuration fnInfo)) preLayer libLayer then
      let* r := call (lambda_UpdateFunctionConfiguration
                        (updateConfigInput d app info preLayer libLayer)) in
      match r with
      | Err err => Ret (Some ("", Some err))
      | Ok _ => Ret None
      end
    else Ret None in
  match early with
  | Some ret => Ret ret
  | None =>
  let* funcCfg := call (lambda_UpdateFunctionCode
                          {| ufk_FunctionName := App app;
                             ufk_S3Bucket := Bucket (config d);
                             ufk_S3Key := layerName |}) in
  match funcCfg with
  | Err err => Ret ("", Some err)
  | Ok funcCfg =>
  let* ver := call (lambda_PublishVersion
                      {| pv_CodeSha256 := Some (CodeSha256 funcCfg);
                         pv_FunctionName := App app |}) in
  match ver with
  | Err err => Ret ("", Some err)
  | Ok ver => Ret (FunctionArn ver, None)
  end end end.

(** The branch of [CreateFunction] taken when [GetFunction] failed. *)
Definition CreateFunction_create (d : Deployer) (app : Source) (info : AppInfo)
    (layerName preLayer libLayer : string) : Prog (string * option error) :=
  let* funcOut := call (lambda_CreateFunction
                          (createInput d app info preLayer libLayer layerName)) in
  match funcOut with
  | Err err => Ret ("", Some err)
  | Ok funcOut =>
  let* ver := call (lambda_PublishVersion
                      {| pv_CodeSha256 := Some (CodeSha256 funcOut);
                         pv_FunctionName := App app |}) in
  match ver with
  | Err err => Ret ("", Some err)
  | Ok ver => Ret (FunctionArn ver, None)
  end end.

(** What [CreateFunction] does once the package is uploaded: the two layers,
    then the function. *)
Definition CreateFunction_layers (d : Deployer) (app : Source) (info : AppInfo)
    (layerName : string) : Prog (string * option error) :=
  let* preLayer := CreatePreLayer d app info (PreZip info) in
  match preLayer with
  | (_, Some err) => Ret ("", Some err)
  | (preLayer, None) =>
  let* libLayer := CreateLibraryLayer d app info (LibZip info) in
  match libLayer with
  | (_, Some err) => Ret ("", Some err)
  | (libLayer, None) =>
  let* fnInfo := call (lambda_GetFunction (App app)) in
  match fnInfo with
  | Ok fnInfo => CreateFunction_update d app info layerName preLayer libLayer fnInfo
  | Err _ => CreateFunction_create d app info layerName preLayer libLayer
  end end end.

Definition CreateFunction (d : Deployer) (app : Source) (info : AppInfo)
  : Prog (string * option error) :=
  let* f := call (os_Open (AppZip info)) in
  match f with
  | Err err => Ret ("", Some err)
  | Ok f =>
  let* stat := call (file_Stat f) in
  match stat with
  | Err err => Ret ("", Some err)
  | Ok _ =>
  let layerName := appKey app info in
  let* up := call (s3manager_Upload {| up_Body := f;
                                       up_Bucket := Bucket (config d);
                                       up_Key := layerName |}) in
  match up with
  | Err err => Ret ("", Some err)
  | Ok _ => CreateFunction_layers d app info layerName
  end end end.

(** ** Configuration variables *)

(** Reading a Go map that may be the nil map: a nil map has no entry. *)
Definition map_index (m : option (gmap string string)) (k : string) : option string :=
  match m with
  | Some m => m !! k
  | None => None
  end.

(** The loop [for _, cl := range cur.Layers { layers = append(layers, cl.Arn) }]. *)
Definition layerArns (layers : list Layer) : list string :=
  fold_left (fun (acc : list string) cl => (acc ++ [Arn cl])%list) layers [].

Definition ConfigSet (d : Deployer) (app : Source) (cv : ConfigVar)
  : Prog (option error) :=
  let* fnInfo := call (lambda_GetFunction (App app)) in
  match fnInfo with
  | Err err => Ret (Some err)
  | Ok fnInfo =>
  let cur := Configuration fnInfo in
  let envvars : option (gmap string string) :=
    match Environment cur with
    | Some env => Variables env
    | None => Some ∅
    end in
  let layers := layerArns (Layers cur) in
  match envvars with
  | None => Panic                 (* assignment to an entry of the nil map *)
  | Some envvars =>
  let envvars := <[Name cv := Value cv]> envvars in
  let* r := call (lambda_UpdateFunctionConfiguration
                    {| ufc_FunctionName := App app;
                       ufc_Layers := layers;
                       ufc_Handler := Handler cur;
                       ufc_Environment := Some envvars;
                       ufc_Role := Role cur;
                       ufc_Timeout := Timeout cur;
                       ufc_MemorySize := MemorySize cur;
                       ufc_Runtime := fc_Runtime cur |}) in
  match r with
  | Err err => Ret (Some err)
  | Ok _ =>
  let* ver := call (lambda_PublishVersion {| pv_CodeSha256 := None;
                                             pv_FunctionName := App app |}) in
  match ver with
  | Err err => Ret (Some err)
  | Ok _ => Ret None
  end end end end.

(** [ConfigGet] stores the value in [cv]; the variable is returned next to
    the error. *)
Definition ConfigGet (d : Deployer) (app : Source) (cv : ConfigVar)
  : Prog (ConfigVar * option error) :=
  let* fnInfo := call (lambda_GetFunction (App app)) in
  match fnInfo with
  | Err err => Ret (cv, Some err)
  | Ok fnInfo =>
  let cur := Configuration fnInfo in
  match Environment cur with
  | None => Panic                 (* cur.Environment.Variables on a nil pointer *)
  | Some env =>
      match map_index (Variables env) (Name cv) with
      | Some val => Ret ({| Name := Name cv; Value := val |}, None)
      | None => Ret (cv, Some ErrNoSuchVariable)
      end
  end end.

(** ** Logs *)

(** The viewer's mutable fields ([logs], the client, is the services of the
    run). *)
Record cloudwatchLogsViewer := {
  group : string;
  lastToken : option string;
  stream : option LogStream;
  streams : list LogStream
}.

(** The body of the loop over [output.Events] in [NextLogBatch]. *)
Definition toLogEvent (s : LogStream) (ev : OutputLogEvent) : LogEvent :=
  let ms := ole_Timestamp ev in
  let ts := time_Unix (Z.quot ms 1000) (Z.rem ms 1000 * 1000000) in
  let msg := TrimRight (ole_Message ev) newline_tab in
  {| Partition := LogStreamName s; Timestamp := ts; Message := msg |}.

Definition getLogEventsInput (group : string) (s : LogStream) (tok : option string)
  : GetLogEventsInput :=
  {| gle_NextToken := tok;
     gle_StartFromHead := true;
     gle_LogGroupName := group;
     gle_LogStreamName := LogStreamName s |}.

(** The loop of [NextLogBatch] from its [GetLogEvents] call, with [s] the
    active stream, [tok] the last token and [rest] the remaining streams.
    On an empty page the stream is dropped and the next iteration either
    returns (no stream left) or takes the head of [rest]: every further turn
    of the loop consumes one stream, which is what the recursion follows.
    The result is the viewer as the call leaves it and the returned pair. *)
Fixpoint fetchFrom (grp : string) (rest : list LogStream) (s : LogStream)
    (tok : option string)
  : Prog (cloudwatchLogsViewer * (list LogEvent * option error)) :=
  let* output := call (logs_GetLogEvents (getLogEventsInput grp s tok)) in
  match output with
  | Err err =>
      Ret ({| group := grp; lastToken := tok; stream := Some s; streams := rest |},
           ([], Some err))
  | Ok output =>
      if negb (Nat.eqb (length (Events output)) 0) then
        Ret ({| group := grp; lastToken := NextForwardToken output;
                stream := Some s; streams := rest |},
             (map (toLogEvent s) (Events output), None))
      else
        match rest with
        | [] =>
            Ret ({| group := grp; lastToken := tok; stream := None; streams := [] |},
                 ([], None))
        | s' :: rest' => fetchFrom grp rest' s' None
        end
  end.

Definition NextLogBatch (c : cloudwatchLogsViewer)
  : Prog (cloudwatchLogsViewer * (list LogEvent * option error)) :=
  match stream c with
  | Some s => fetchFrom (group c) (streams c) s (lastToken c)
  | None =>
      match streams c with
      | [] => Ret (c, ([], None))
      | s :: rest => fetchFrom (group c) rest s None
      end
  end.

Definition logGroupName (app : Source) : string := "/aws/lambda/" +:+ App app.

Definition Logs (d : Deployer) (app : Source)
  : Prog (option cloudwatchLogsViewer * option error) :=
  let* out := call (logs_DescribeLogStreams
                      {| dls_LogGroupName := logGroupName app;
                         dls_Descending := false;
                         dls_OrderBy := "LastEventTime" |}) in
  match out with
  | Err err => Ret (None, Some err)
  | Ok out =>
      Ret (Some {| group := logGroupName app; lastToken := None;
                   stream := None; streams := LogStreams out |}, None)
  end.

(** *** The loop of [NextLogBatch], turn by turn

    The same function written as the Go text has it: one turn of the [for]
    loop either returns or goes round again with the stream dropped.
    [NextLogBatch_loop] runs at most [fuel] turns; [NextLogBatch_loop_total]
    below shows that [length (streams c) + 2] turns always reach a [return]
    and give what [NextLogBatch] gives. *)
Inductive Turn : Type :=
| Again (c : cloudwatchLogsViewer)
| Return (c : cloudwatchLogsViewer) (r : list LogEvent * option error).

Definition NextLogBatch_fetch (c : cloudwatchLogsViewer) (s : LogStream) : Prog Turn :=
  let* output := call (logs_GetLogEvents (getLogEventsInput (group c) s (lastToken c))) in
  match output with
  | Err err => Ret (Return c ([], Some err))
  | Ok output =>
      if negb (Nat.eqb (length (Events output)) 0) then
        Ret (Return {| group := group c; lastToken := NextForwardToken output;
                       stream := stream c; streams := streams c |}
                    (map (toLogEvent s) (Events output), None))
      else
        Ret (Again {| group := group c; lastToken := lastToken c;
                      stream := None; streams := streams c |})
  end.

Definition NextLogBatch_turn (c : cloudwatchLogsViewer) : Prog Turn :=
  match stream c with
  | Some s => NextLogBatch_fetch c s
  | None =>
      match streams c with
      | [] => Ret (Return c ([], None))
      | s :: rest =>
          NextLogBatch_fetch {| group := group c; lastToken := None;
                                stream := Some s; streams := rest |} s
      end
  end.

Fixpoint NextLogBatch_loop (fuel : nat) (c : cloudwatchLogsViewer)
  : Prog (option (cloudwatchLogsViewer * (list LogEvent * option error))) :=
  match fuel with
  | O => Ret None
  | S fuel =>
      let* t := NextLogBatch_turn c in
      match t with
      | Return c r => Ret (Some (c, r))
      | Again c => NextLogBatch_loop fuel c
      end
  end.

(** What a run of [NextLogBatch] looks like as a run of the loop. *)
Definition as_loop_run {W : Type}
    (r : Outcome (cloudwatchLogsViewer * (list LogEvent * option error)) * W * list Event)
  : Outcome (option (cloudwatchLogsViewer * (list LogEvent * option error)))
    * W * list Event :=
  let '(o, w, t) := r in
  (match o with Done x => Done (Some x) | Crashed => Crashed end, w, t).

(** ** A simulated platform

    An in-memory stand-in for the services (a layer store, a blob store, one
    function, a log source), used to run the programs on concrete inputs.
    [fails] injects faults: a command it maps to an error fails with it and
    leaves the world as it was.  The digest of a file is stood in for by its
    bytes. *)
Module Sim.

Record Version := { v_name : string; v_number : Z; v_content : list byte }.

Record World := {
  files : gmap string (list byte);
  objects : gmap string (list byte);
  versions : list Version;
  function : option FunctionConfiguration;
  published : Z;
  logStreams : list LogStream;
  logPages : string -> option string -> GetLogEventsOutput;
  fails : Cmd -> option error
}.

Definition with_objects (w : World) (o : gmap string (list byte)) : World :=
  {| files := files w; objects := o; versions := versions w;
     function := function w; published := published w;
     logStreams := logStreams w; logPages := logPages w; fails := fails w |}.

Definition with_versions (w : World) (v : list Version) : World :=
  {| files := files w; objects := objects w; versions := v;
     function := function w; published := published w;
     logStreams := logStreams w; logPages := logPages w; fails := fails w |}.

Definition with_function (w : World) (f : FunctionConfiguration) (n : Z) : World :=
  {| files := files w; objects := objects w; versions := versions w;
     function := Some f; published := n;
     logStreams := logStreams w; logPages := logPages w; fails := fails w |}.

Definition notFound {A : Type} : result A := Err (ApiError "NotFound").

Definition versionsOf (w : World) (name : string) : list Version :=
  filter (fun v => v_name v = name) (versions w).

Definition layerArn (name : string) : string := "arn:aws:lambda:layer:" +:+ name.

Definition versionArn (name : string) (n : Z) : string :=
  layerArn name +:+ ":" +:+ pretty n.

Definition functionArn (name : string) (n : Z) : string :=
  "arn:aws:lambda:function:" +:+ name +:+ ":" +:+ pretty n.

Definition applyConfig (f : FunctionConfiguration)
    (i : UpdateFunctionConfigurationInput) : FunctionConfiguration :=
  {| Layers := map Build_Layer (ufc_Layers i);
     Environment := match ufc_Environment i with
                    | Some m => Some {| Variables := Some m |}
                    | None => Environment f
                    end;
     Handler := match ufc_Handler i with Some x => Some x | None => Handler f end;
     Role := match ufc_Role i with Some x => Some x | None => Role f end;
     Timeout := match ufc_Timeout i with Some x => Some x | None => Timeout f end;
     MemorySize := match ufc_MemorySize i with Some x => Some x | None => MemorySize f end;
     fc_Runtime := match ufc_Runtime i with Some x => Some x | None => fc_Runtime f end;
     CodeSha256 := CodeSha256 f;
     FunctionArn := FunctionArn f |}.

Definition withCode (f : FunctionConfiguration) (sha : string) : FunctionConfiguration :=
  {| Layers := Layers f; Environment := Environment f; Handler := Handler f;
     Role := Role f; Timeout := Timeout f; MemorySize := MemorySize f;
     fc_Runtime := fc_Runtime f; CodeSha256 := sha; FunctionArn := FunctionArn f |}.

Definition withArn (f : FunctionConfiguration) (arn : string) : FunctionConfiguration :=
  {| Layers := Layers f; Environment := Environment f; Handler := Handler f;
     Role := Role f; Timeout := Timeout f; MemorySize := MemorySize f;
     fc_Runtime := fc_Runtime f; CodeSha256 := CodeSha256 f; FunctionArn := arn |}.

Definition created (i : CreateFunctionInput) (sha : string) : FunctionConfiguration :=
  {| Layers := map Build_Layer (cf_Layers i); Environment := None;
     Handler := Some (cf_Handler i); Role := Some (cf_Role i);
     Timeout := Some (cf_Timeout i); MemorySize := Some (cf_MemorySize i);
     fc_Runtime := Some (cf_Runtime i); CodeSha256 := sha;
     FunctionArn := "arn:aws:lambda:function:" +:+ cf_FunctionName i |}.

Definition serve (c : Cmd) (w : World) : result (Out c) * World :=
  match c as c0 return result (Out c0) * World with
  | HashFile path =>
      (match files w !! path with Some b => Ok b | None => notFound end, w)
  | os_Open path =>
      (match files w !! path with
       | Some _ => Ok {| f_path := path |}
       | None => notFound
       end, w)
  | file_Stat f =>
      (match files w !! f_path f with
       | Some b => Ok (Z.of_nat (length b))
       | None => notFound
       end, w)
  | lambda_ListLayerVersions name =>
      (Ok {| LayerVersions :=
               map (fun v => {| lvi_Version := v_number v |}) (versionsOf w name) |}, w)
  | lambda_GetLayerVersion i =>
      (match filter (fun v => v_number v = glv_VersionNumber i)
                    (versionsOf w (glv_LayerName i)) with
       | v :: _ => Ok {| glv_CodeSha256 := EncodeToString (v_content v);
                         glv_LayerVersionArn := versionArn (v_name v) (v_number v) |}
       | [] => notFound
       end, w)
  | s3_HeadObject i =>
      (match objects w !! ho_Key i with
       | Some _ => Ok {| ETag := "etag" |}
       | None => notFound
       end, w)
  | s3manager_Upload i =>
      match files w !! f_path (up_Body i) with
      | Some b => (Ok tt, with_objects w (<[up_Key i := b]> (objects w)))
      | None => (notFound, w)
      end
  | lambda_PublishLayerVersion i =>
      match objects w !! plv_S3Key i with
      | Some b =>
          let n := Z.of_nat (length (versionsOf w (plv_LayerName i))) + 1 in
          (Ok {| plo_LayerArn := layerArn (plv_LayerName i);
                 plo_LayerVersionArn := versionArn (plv_LayerName i) n;
                 plo_CodeSha256 := EncodeToString b |},
           with_versions w ({| v_name := plv_LayerName i; v_number := n;
                               v_content := b |} :: versions w))
      | None => (notFound, w)
      end
  | lambda_GetFunction _ =>
      (match function w with
       | Some f => Ok {| Configuration := f |}
       | None => notFound
       end, w)
  | lambda_UpdateFunctionConfiguration i =>
      match function w with
      | Some f => let f' := applyConfig f i in (Ok f', with_function w f' (published w))
      | None => (notFound, w)
      end
  | lambda_UpdateFunctionCode i =>
      match function w, objects w !! ufk_S3Key i with
      | Some f, Some b =>
          let f' := withCode f (EncodeToString b) in
          (Ok f', with_function w f' (published w))
      | _, _ => (notFound, w)
      end
  | lambda_PublishVersion i =>
      match function w with
      | Some f =>
          let n := published w + 1 in
          (Ok (withArn f (functionArn (pv_FunctionName i) n)), with_function w f n)
      | None => (notFound, w)
      end
  | lambda_CreateFunction i =>
      match function w, objects w !! cf_S3Key i with
      | None, Some b =>
          let f := created i (EncodeToString b) in
          (Ok f, with_function w f (published w))
      | _, _ => (Err (ApiError "ResourceConflict"), w)
      end
  | logs_DescribeLogStreams _ => (Ok {| LogStreams := logStreams w |}, w)
  | logs_GetLogEvents i =>
      (Ok (logPages w (gle_LogStreamName i) (gle_NextToken i)), w)
  end.

(** The services of the simulated platform, faults first. *)
Definition services : Services World :=
  fun c w =>
    match fails w c with
    | Some e => (Err e, w)
    | None => serve c w
    end.

End Sim.

(** ** The execution role and the deployment

    [SetupRole] talks to the role service only, and [Deploy] calls it before
    anything else: the calls to the role service are commands of their own,
    [IamCmd], and a deployment is a program over them that ends with the
    program over [Cmd] still to be run. *)

Record GetRoleInput := { gr_RoleName : string }.

(** [iam.GetRoleOutput] and [iam.CreateRoleOutput], of which the code reads
    [Role.Arn]. *)
Record RoleOutput := { role_Arn : string }.

Record CreateRoleInput := {
  cr_AssumeRolePolicyDocument : string;
  cr_Path : string;
  cr_RoleName : string
}.

Record AttachRolePolicyInput := { arp_RoleName : string; arp_PolicyArn : string }.

Inductive IamCmd : Type :=
| iam_GetRole (i : GetRoleInput)
| iam_CreateRole (i : CreateRoleInput)
| iam_AttachRolePolicy (i : AttachRolePolicyInput).

Definition IamOut (c : IamCmd) : Type :=
  match c with
  | iam_GetRole _ => RoleOutput
  | iam_CreateRole _ => RoleOutput
  | iam_AttachRolePolicy _ => unit
  end.

Inductive RoleProg (A : Type) : Type :=
| RoleRet (a : A)
| RoleCall (c : IamCmd) (k : result (IamOut c) -> RoleProg A).
Arguments RoleRet {A} a.
Arguments RoleCall {A} c k.

Fixpoint role_bind {A B : Type} (p : RoleProg A) (f : A -> RoleProg B) : RoleProg B :=
  match p with
  | RoleRet a => f a
  | RoleCall c k => RoleCall c (fun r => role_bind (k r) f)
  end.

Inductive RoleEvent : Type :=
| RoleEv (c : IamCmd) (r : result (IamOut c)).

Definition role_cmd (e : RoleEvent) : IamCmd := let 'RoleEv c _ := e in c.

Definition role_err (e : RoleEvent) : option error :=
  match e with
  | RoleEv _ (Err x) => Some x
  | RoleEv _ (Ok _) => None
  end.

Definition RoleServices (W : Type) : Type :=
  forall c : IamCmd, W -> result (IamOut c) * W.

Fixpoint run_role {W A : Type} (h : RoleServices W) (p : RoleProg A) (w : W)
  : A * W * list RoleEvent :=
  match p with
  | RoleRet a => (a, w, [])
  | RoleCall c k =>
      let '(r, w1) := h c w in
      let '(a, w2, t) := run_role h (k r) w1 in
      (a, w2, RoleEv c r :: t)
  end.

(** The policy document is written below with ['] for the double quote. *)
Fixpoint requote (s : string) : string :=
  match s with
  | EmptyString => EmptyString
  | String c rest => String (if Ascii.eqb c "'" then "034"%char else c) (requote rest)
  end.

Definition rolePolicy : string := requote "{
  'Version': '2012-10-17',
  'Statement': [
    {
      'Effect': 'Allow',
      'Principal': {
        'Service': 'lambda.amazonaws.com'
      },
      'Action': 'sts:AssumeRole'
    }
  ]
}".

Definition executionPolicyArn : string :=
  "arn:aws:iam::aws:policy/service-role/AWSLambdaBasicExecutionRole".

Definition with_roleName (d : Deployer) (name : string) : Deployer :=
  {| config := config d; roleName := name; roleArn := roleArn d |}.

Definition with_roleArn (d : Deployer) (arn : string) : Deployer :=
  {| config := config d; roleName := roleName d; roleArn := arn |}.

(** [SetupRole] writes [d.roleName] and [d.roleArn]; the deployer is returned
    next to the error. *)
Definition SetupRole (d : Deployer) (app : Source) : RoleProg (Deployer * option error) :=
  let d := with_roleName d ("lambda-" +:+ App app) in
  RoleCall (iam_GetRole {| gr_RoleName := roleName d |}) (fun getOut =>
  match getOut with
  | Ok getOut => RoleRet (with_roleArn d (role_Arn getOut), None)
  | Err _ =>
  RoleCall (iam_CreateRole {| cr_AssumeRolePolicyDocument := rolePolicy;
                              cr_Path := "/";
                              cr_RoleName := roleName d |}) (fun result =>
  match result with
  | Err err => RoleRet (d, Some err)
  | Ok result =>
  let d := with_roleArn d (role_Arn result) in
  RoleCall (iam_AttachRolePolicy {| arp_RoleName := roleName d;
                                    arp_PolicyArn := executionPolicyArn |}) (fun r =>
  match r with
  | Err err => RoleRet (d, Some err)
  | Ok _ => RoleRet (d, None)
  end) end) end).

(** [LambdaDeployment]. *)
Record LambdaDeployment := { dep_FunctionArn : string }.

(** [MarshalText]: the bytes of the reference, and no error. *)
Definition MarshalText (l : LambdaDeployment) : list byte * option error :=
  (list_byte_of_string (dep_FunctionArn l), None).

(** What [Deploy] does after [SetupRole] has returned [err] and left the
    deployer [d]. *)
Definition Deploy_function (d : Deployer) (app : Source) (info : AppInfo)
    (err : option error) : Prog (Deployer * (option LambdaDeployment * option error)) :=
  match err with
  | Some err => Ret (d, (None, Some err))
  | None =>
      let* r := CreateFunction d app info in
      match r with
      | (_, Some err) => Ret (d, (None, Some err))
      | (arn, None) => Ret (d, (Some {| dep_FunctionArn := arn |}, None))
      end
  end.

Definition Deploy (d : Deployer) (app : Source) (info : AppInfo)
  : RoleProg (Prog (Deployer * (option LambdaDeployment * option error))) :=
  role_bind (SetupRole d app)
            (fun r => RoleRet (Deploy_function (fst r) app info (snd r))).

(** A run of a deployment: the role commands, then the rest. *)
Definition run_deploy {W A : Type} (hr : RoleServices W) (h : Services W)
    (p : RoleProg (Prog A)) (w : W)
  : Outcome A * W * list RoleEvent * list Event :=
  let '(rest, w1, tr) := run_role hr p w in
  let '(o, w2, t) := run h rest w1 in
  (o, w2, tr, t).

Definition NewDeployer : Deployer :=
  {| config := {| Bucket := EmptyString |}; roleName := EmptyString;
     roleArn := EmptyString |}.

(** ** The names of the component types ([sdk/component/type_string.go])

    [Type] is declared in another file; the generated code compares it with
    no test for a negative value, so it is an unsigned integer, a natural
    number here, of 64 bits at most. *)

Definition InvalidType : N := 0.
Definition BuilderType : N := 1.
Definition RegistryType : N := 2.
Definition PlatformType : N := 3.
Definition LogPlatformType : N := 4.
Definition LogViewerType : N := 5.
Definition maxType : N := 6.

Definition _Type_name : string :=
  "InvalidBuilderRegistryPlatformLogPlatformLogViewermaxType".

Definition _Type_index : list N := [0; 7; 14; 22; 30; 41; 50; 57]%N.

(** [arr[i]], which panics out of range. *)
Definition at_index (arr : list N) (i : N) : Outcome N :=
  match arr !! N.to_nat i with
  | Some x => Done x
  | None => Crashed
  end.

(** [s[a:b]], which panics unless [a <= b <= len(s)]. *)
Definition slice (s : string) (a b : N) : Outcome string :=
  if ((a <=? b) && (b <=? N.of_nat (String.length s)))%N
  then Done (substring (N.to_nat a) (N.to_nat (b - a)) s)
  else Crashed.

(** The conversion [int64(i)] of an unsigned integer of 64 bits at most. *)
Definition int64 (i : N) : Z :=
  (Z.of_N i + 9223372036854775808) mod 18446744073709551616 - 9223372036854775808.

(** [strconv.FormatInt(x, 10)]. *)
Definition FormatInt10 (x : Z) : string := pretty x.

Definition Type_String (i : N) : Outcome string :=
  if (N.of_nat (length _Type_index) - 1 <=? i)%N then
    Done ("Type(" +:+ FormatInt10 (int64 i) +:+ ")")
  else
    match at_index _Type_index i with
    | Crashed => Crashed
    | Done a =>
        match at_index _Type_index (i + 1) with
        | Crashed => Crashed
        | Done b => slice _Type_name a b
        end
    end.

(** ** Reading traces *)

(** The configuration a successful [GetFunction] answered. *)
Definition ev_function (e : Event) : option FunctionConfiguration :=
  match e with
  | Ev c r =>
      match c as c0 return result (Out c0) -> option FunctionConfiguration with
      | lambda_GetFunction _ =>
          fun r => match r with Ok out => Some (Configuration out) | Err _ => None end
      | _ => fun _ => None
      end r
  end.

(** The input of an [UpdateFunctionConfiguration]. *)
Definition ev_config (e : Event) : option UpdateFunctionConfigurationInput :=
  match ev_cmd e with
  | lambda_UpdateFunctionConfiguration i => Some i
  | _ => None
  end.

(** The answer of a successful [PublishLayerVersion]. *)
Definition ev_published (e : Event) : option PublishLayerVersionOutput :=
  match e with
  | Ev c r =>
      match c as c0 return result (Out c0) -> option PublishLayerVersionOutput with
      | lambda_PublishLayerVersion _ =>
          fun r => match r with Ok out => Some out | Err _ => None end
      | _ => fun _ => None
      end r
  end.

(** The versions a successful [ListLayerVersions] answered. *)
Definition ev_listed (e : Event) : option (list LayerVersionsListItem) :=
  match e with
  | Ev c r =>
      match c as c0 return result (Out c0) -> option (list LayerVersionsListItem) with
      | lambda_ListLayerVersions _ =>
          fun r => match r with Ok out => Some (LayerVersions out) | Err _ => None end
      | _ => fun _ => None
      end r
  end.

(** The page a successful [GetLogEvents] answered. *)
Definition ev_page (e : Event) : option GetLogEventsOutput :=
  match e with
  | Ev c r =>
      match c as c0 return result (Out c0) -> option GetLogEventsOutput with
      | logs_GetLogEvents _ =>
          fun r => match r with Ok out => Some out | Err _ => None end
      | _ => fun _ => None
      end r
  end.

Definition is_Upload (c : Cmd) : bool :=
  match c with s3manager_Upload _ => true | _ => false end.

Definition is_HeadObject (c : Cmd) : bool :=
  match c with s3_HeadObject _ => true | _ => false end.

Definition is_PublishLayerVersion (c : Cmd) : bool :=
  match c with lambda_PublishLayerVersion _ => true | _ => false end.

Definition is_ListLayerVersions (c : Cmd) : bool :=
  match c with lambda_ListLayerVersions _ => true | _ => false end.

Definition is_GetLayerVersion (c : Cmd) : bool :=
  match c with lambda_GetLayerVersion _ => true | _ => false end.

Definition is_UpdateFunctionConfiguration (c : Cmd) : bool :=
  match c with lambda_UpdateFunctionConfiguration _ => true | _ => false end.

Definition is_UpdateFunctionCode (c : Cmd) : bool :=
  match c with lambda_UpdateFunctionCode _ => true | _ => false end.

Definition is_PublishVersion (c : Cmd) : bool :=
  match c with lambda_PublishVersion _ => true | _ => false end.

Definition is_GetLogEvents (c : Cmd) : bool :=
  match c with logs_GetLogEvents _ => true | _ => false end.

(** The commands of [CreateLayer]'s reuse scan: they read and change
    nothing. *)
Definition is_lookup (c : Cmd) : bool :=
  match c with
  | HashFile _ | lambda_ListLayerVersions _ | lambda_GetLayerVersion _ => true
  | _ => false
  end.

(** The commands only a layer publish or the function branch issues, as
    opposed to opening, measuring and uploading a file. *)
Definition is_platform (c : Cmd) : bool :=
  match c with
  | os_Open _ | file_Stat _ | s3manager_Upload _ => false
  | _ => true
  end.

(** The commands of the upload and publish half of [CreateLayer]. *)
Definition is_publish_path (c : Cmd) : bool :=
  match c with
  | os_Open _ | file_Stat _ | s3_HeadObject _ | s3manager_Upload _
  | lambda_PublishLayerVersion _ => true
  | _ => false
  end.

(** The commands on the function itself. *)
Definition is_function_cmd (c : Cmd) : bool :=
  match c with
  | lambda_GetFunction _ | lambda_UpdateFunctionConfiguration _
  | lambda_UpdateFunctionCode _ | lambda_PublishVersion _
  | lambda_CreateFunction _ => true
  | _ => false
  end.

(** The commands only a layer publish issues. *)
Definition is_layer_cmd (c : Cmd) : bool :=
  match c with
  | HashFile _ | lambda_ListLayerVersions _ | lambda_GetLayerVersion _
  | s3_HeadObject _ | lambda_PublishLayerVersion _ => true
  | _ => false
  end.

(** The upload of the application package, from the open file [f]. *)
Definition packageUpload (d : Deployer) (app : Source) (info : AppInfo) (f : File) : Cmd :=
  s3manager_Upload {| up_Body := f; up_Bucket := Bucket (config d);
                      up_Key := appKey app info |}.

(** ** Words of the specification *)

(** The environment mapping of a fetched configuration, an absent mapping
    being the empty one. *)
Definition currentEnv (cur : FunctionConfiguration) : gmap string string :=
  match Environment cur with
  | Some env => default ∅ (Variables env)
  | None => ∅
  end.

(** [i] writes [cur] back with the variable [cv] set. *)
Definition writes_back (app : Source) (cur : FunctionConfiguration) (cv : ConfigVar)
    (i : UpdateFunctionConfigurationInput) : Prop :=
  ufc_FunctionName i = App app
  /\ ufc_Environment i = Some (<[Name cv := Value cv]> (currentEnv cur))
  /\ ufc_Handler i = Handler cur
  /\ ufc_Role i = Role cur
  /\ ufc_Timeout i = Timeout cur
  /\ ufc_MemorySize i = MemorySize cur
  /\ ufc_Runtime i = fc_Runtime cur
  /\ ufc_Layers i = map Arn (Layers cur).

(** The platform hands back in [cur] what was written with [i]. *)
Definition stored (i : UpdateFunctionConfigurationInput) (cur : FunctionConfiguration)
  : Prop :=
  Environment cur = Some {| Variables := ufc_Environment i |}
  /\ Handler cur = ufc_Handler i
  /\ Role cur = ufc_Role i
  /\ Timeout cur = ufc_Timeout i
  /\ MemorySize cur = ufc_MemorySize i
  /\ fc_Runtime cur = ufc_Runtime i
  /\ map Arn (Layers cur) = ufc_Layers i.


(** The order of the specification's steps 2 and 3: in the commands of a
    reconciliation, every command of a layer publish comes before the upload
    of the application package. *)
Definition layers_before_package (d : Deployer) (app : Source) (info : AppInfo)
    (cmds : list Cmd) : Prop :=
  forall (i j : nat) (f : File) (c : Cmd),
    cmds !! i = Some (packageUpload d app info f) ->
    cmds !! j = Some c -> is_layer_cmd c = true -> (j < i)%nat.

(** The partitions a viewer has not dropped yet: the active one, then the
    remaining ones. *)
Definition pending (c : cloudwatchLogsViewer) : list LogStream :=
  match stream c with
  | Some s => s :: streams c
  | None => streams c
  end.

(** The token of the first request of a call: the last token of the active
    partition, none when a partition is about to be activated. *)
Definition requestToken (c : cloudwatchLogsViewer) : option string :=
  match stream c with
  | Some _ => lastToken c
  | None => None
  end.

(** [n] calls of [NextLogBatch] in a row on the same viewer, whatever each
    returns; the result is the viewer after the last call and all the events
    returned, in the order they came. *)
Fixpoint NextLogBatch_times (n : nat) (c : cloudwatchLogsViewer)
  : Prog (cloudwatchLogsViewer * list LogEvent) :=
  match n with
  | O => Ret (c, [])
  | S n =>
      let* r := NextLogBatch c in
      let* rest := NextLogBatch_times n (fst r) in
      Ret (fst rest, (fst (snd r) ++ snd rest)%list)
  end.

(** [follows parts ps]: the partition identifiers [ps] come in the order of
    the partitions [parts], each partition contributing any number of
    consecutive entries and none after a later partition has contributed. *)
Inductive follows : list string -> list string -> Prop :=
| follows_nil parts : follows parts []
| follows_same p parts ps : follows (p :: parts) ps -> follows (p :: parts) (p :: ps)
| follows_skip p parts ps : follows parts ps -> follows (p :: parts) ps.

(** A [GetLogEvents] that was answered with a page without events. *)
Definition is_empty_page (e : Event) : bool :=
  match ev_page e with
  | Some out => Nat.eqb (length (Events out)) 0
  | None => false
  end.

(** How a [NextLogBatch] call ends when it starts with the partitions
    [parts] pending: [t] is its trace, [c'] the viewer it leaves, [evs] and
    [err] what it returns.  Either every partition answered one request with
    an empty page and the call returns the end of the sequence, leaving no
    partition; or the partitions [skipped] answered one request each with an
    empty page and the next one, [a], answered the last request [e] with a
    page of events, which are returned translated, or with an error, which is
    returned; [a] stays active. *)
Definition batch_outcome (grp : string) (parts : list LogStream) (t : list Event)
    (c' : cloudwatchLogsViewer) (evs : list LogEvent) (err : option error) : Prop :=
  (stream c' = None /\ streams c' = [] /\ evs = [] /\ err = None /\
   length t = length parts /\ Forall (fun e => is_empty_page e = true) t)
  \/
  (exists skipped a ts e tok,
      parts = (skipped ++ a :: streams c')%list /\ stream c' = Some a /\
      t = (ts ++ [e])%list /\ length ts = length skipped /\
      Forall (fun e => is_empty_page e = true) ts /\
      ev_cmd e = logs_GetLogEvents (getLogEventsInput grp a tok) /\
      ((exists out, ev_page e = Some out /\ Events out <> [] /\
                    evs = map (toLogEvent a) (Events out) /\ err = None /\
                    lastToken c' = NextForwardToken out)
       \/
       (exists e0, ev_err e = Some e0 /\ evs = [] /\ err = Some e0))).

(** The values of Go's [int64]. *)
Definition int64_range (z : Z) : Prop :=
  -9223372036854775808 <= z < 9223372036854775808.

(** [Time.UnixMilli]. *)
Definition UnixMilli (t : Time) : Z := t_sec t * 1000 + t_nsec t / 1000000.

Fixpoint all_in_cutset (s cutset : string) : bool :=
  match s with
  | EmptyString => true
  | String c rest => in_cutset c cutset && all_in_cutset rest cutset
  end.

Fixpoint last_char (s : string) : option ascii :=
  match s with
  | EmptyString => None
  | String c rest => match last_char rest with Some x => Some x | None => Some c end
  end.

(** [msg] is [raw] without its trailing characters of [cutset]: what was cut
    is a suffix made of such characters, and what is left does not end in
    one. *)
Definition trimmed_of (cutset raw msg : string) : Prop :=
  exists suffix,
    raw = msg +:+ suffix /\ all_in_cutset suffix cutset = true /\
    forall c, last_char msg = Some c -> in_cutset c cutset = false.

(** A raw event and the log event made of it, for the partition [name]. *)
Definition translated (name : string) (raw : OutputLogEvent) (ev : LogEvent) : Prop :=
  Partition ev = name
  /\ UnixMilli (Timestamp ev) = ole_Timestamp raw
  /\ 0 <= t_nsec (Timestamp ev) < 1000000000
  /\ trimmed_of newline_tab (ole_Message raw) (Message ev).

(** White space: space, horizontal tab, line feed, vertical tab, form feed,
    carriage return. *)
Definition whitespace : string :=
  String " " (String "009" (String "010" (String "011" (String "012"
    (String "013" EmptyString))))).

(** The message clause of the specification: every returned message is the
    raw message without any trailing white space. *)
Definition messages_fully_trimmed (raws : list OutputLogEvent) (evs : list LogEvent)
  : Prop :=
  Forall2 (fun raw ev => Message ev = TrimRight (ole_Message raw) whitespace) raws evs.

(** The configuration a [ConfigSet] run fetched and the input it wrote. *)
Definition fetched (t : list Event) : option FunctionConfiguration :=
  e ← t !! 0%nat; ev_function e.

Definition written (t : list Event) : option UpdateFunctionConfigurationInput :=
  e ← t !! 1%nat; ev_config e.

(** A successful [ConfigSet] run for [cv]: it fetched [cur], wrote [i] and
    published a version, in that order, and [i] is [cur] with [cv] set. *)
Definition ConfigSet_run (app : Source) (cv : ConfigVar) (t : list Event)
    (cur : FunctionConfiguration) (i : UpdateFunctionConfigurationInput) : Prop :=
  fetched t = Some cur
  /\ written t = Some i
  /\ map ev_cmd t =
       [lambda_GetFunction (App app);
        lambda_UpdateFunctionConfiguration i;
        lambda_PublishVersion {| pv_CodeSha256 := None; pv_FunctionName := App app |}]
  /\ Forall (fun e => ev_err e = None) t
  /\ writes_back app cur cv i.

(** ** Concrete runs on the simulated platform *)
Module Scenario.

Definition d0 : Deployer :=
  {| config := {| Bucket := "artifacts" |};
     roleName := "lambda-shop"; roleArn := "arn:aws:iam::role/lambda-shop" |}.

Definition app0 : Source := {| App := "shop" |}.

Definition build1 : AppInfo :=
  {| BuildId := "b1"; Runtime := "ruby2.5";
     AppZip := "app.zip"; PreZip := "pre.zip"; LibZip := "lib.zip" |}.


Definition noPages : string -> option string -> GetLogEventsOutput :=
  fun _ _ => {| Events := []; NextForwardToken := None |}.

(** Nothing deployed yet: three local files, empty stores, no faults. *)
Definition fresh : Sim.World :=
  {| Sim.files := <["app.zip" := [x01; x02]]>
                    (<["pre.zip" := [x03]]> (<["lib.zip" := [x04; x05; x06]]> ∅));
     Sim.objects := ∅;
     Sim.versions := [];
     Sim.function := None;
     Sim.published := 0;
     Sim.logStreams := [];
     Sim.logPages := noPages;
     Sim.fails := fun _ => None |}.

Definition timeout : error := ApiError "RequestTimeout".

(** As [fresh], with every upload to blob storage failing. *)
Definition uploadsFail : Sim.World :=
  {| Sim.files := Sim.files fresh; Sim.objects := ∅; Sim.versions := [];
     Sim.function := None; Sim.published := 0;
     Sim.logStreams := []; Sim.logPages := noPages;
     Sim.fails := fun c => if is_Upload c then Some timeout else None |}.

(** As [fresh], with the listing of layer versions failing. *)
Definition listingFails : Sim.World :=
  {| Sim.files := Sim.files fresh; Sim.objects := ∅; Sim.versions := [];
     Sim.function := None; Sim.published := 0;
     Sim.logStreams := []; Sim.logPages := noPages;
     Sim.fails := fun c => if is_ListLayerVersions c then Some timeout else None |}.

(** One version of the lib layer exists, with other bytes, and fetching the
    details of a version fails. *)
Definition detailsFail : Sim.World :=
  {| Sim.files := Sim.files fresh; Sim.objects := ∅;
     Sim.versions := [{| Sim.v_name := "shop-lib"; Sim.v_number := 1;
                         Sim.v_content := [x09] |}];
     Sim.function := None; Sim.published := 0;
     Sim.logStreams := []; Sim.logPages := noPages;
     Sim.fails := fun c => if is_GetLayerVersion c then Some timeout else None |}.

Definition bare : FunctionConfiguration :=
  {| Layers := []; Environment := None;
     Handler := Some "app.handler"; Role := Some (roleArn d0);
     Timeout := Some 60; MemorySize := Some 256; fc_Runtime := Some "ruby2.5";
     CodeSha256 := "AQI="; FunctionArn := "arn:aws:lambda:function:shop" |}.

(** The function exists, with no layer attached and no environment. *)
Definition deployedBare : Sim.World :=
  {| Sim.files := Sim.files fresh; Sim.objects := ∅; Sim.versions := [];
     Sim.function := Some bare; Sim.published := 1;
     Sim.logStreams := []; Sim.logPages := noPages;
     Sim.fails := fun _ => None |}.

Definition home : ConfigVar := {| Name := "HOME"; Value := "" |}.
Definition varA : ConfigVar := {| Name := "A"; Value := "1" |}.
Definition varB : ConfigVar := {| Name := "B"; Value := "2" |}.

(** Three log streams; the second one has no event.  The last event of the
    third ends in a space and a line feed. *)
Definition s1 : LogStream := {| LogStreamName := "2020/01/01/[1]aaa" |}.
Definition s2 : LogStream := {| LogStreamName := "2020/01/02/[1]bbb" |}.
Definition s3 : LogStream := {| LogStreamName := "2020/01/03/[1]ccc" |}.

Definition lf : string := String "010" EmptyString.

Definition pages (name : string) (tok : option string) : GetLogEventsOutput :=
  match tok with
  | Some _ => {| Events := []; NextForwardToken := tok |}
  | None =>
      if String.eqb name (LogStreamName s1) then
        {| Events := [ {| ole_Timestamp := 1577836800123; ole_Message := "START" +:+ lf |};
                       {| ole_Timestamp := 1577836800456; ole_Message := "END" +:+ lf |} ];
           NextForwardToken := Some "f/1" |}
      else if String.eqb name (LogStreamName s3) then
        {| Events := [ {| ole_Timestamp := 1578009600001;
                          ole_Message := "boom " +:+ lf |} ];
           NextForwardToken := Some "f/1" |}
      else {| Events := []; NextForwardToken := None |}
  end.

Definition logging : Sim.World :=
  {| Sim.files := ∅; Sim.objects := ∅; Sim.versions := [];
     Sim.function := Some bare; Sim.published := 1;
     Sim.logStreams := [s1; s2; s3]; Sim.logPages := pages;
     Sim.fails := fun _ => None |}.

Definition viewer0 : cloudwatchLogsViewer :=
  {| group := logGroupName app0; lastToken := None; stream := None;
     streams := [s1; s2; s3] |}.

(** The same viewer once the first stream is dropped, and a viewer with the
    empty stream only. *)
Definition viewer23 : cloudwatchLogsViewer :=
  {| group := logGroupName app0; lastToken := None; stream := None;
     streams := [s2; s3] |}.

Definition viewer2 : cloudwatchLogsViewer :=
  {| group := logGroupName app0; lastToken := None; stream := None;
     streams := [s2] |}.

Definition exhausted : cloudwatchLogsViewer :=
  {| group := logGroupName app0; lastToken := None; stream := None; streams := [] |}.

Definition active3 : cloudwatchLogsViewer :=
  {| group := logGroupName app0; lastToken := Some "f/1"; stream := Some s3;
     streams := [] |}.

(** The events of a run of [NextLogBatch]. *)
Definition returned {W : Type}
    (r : Outcome (cloudwatchLogsViewer * (list LogEvent * option error)) * W * list Event)
  : list LogEvent :=
  match fst (fst r) with
  | Done (_, (evs, _)) => evs
  | Crashed => []
  end.

End Scenario.

(** ** Reading the traces of the role service *)

Definition is_GetRole (c : IamCmd) : bool :=
  match c with iam_GetRole _ => true | _ => false end.

Definition is_CreateRole (c : IamCmd) : bool :=
  match c with iam_CreateRole _ => true | _ => false end.

Definition is_AttachRolePolicy (c : IamCmd) : bool :=
  match c with iam_AttachRolePolicy _ => true | _ => false end.

(** The role a command names. *)
Definition role_named (c : IamCmd) : string :=
  match c with
  | iam_GetRole i => gr_RoleName i
  | iam_CreateRole i => cr_RoleName i
  | iam_AttachRolePolicy i => arp_RoleName i
  end.

(** The role a successful [GetRole] or [CreateRole] answered. *)
Definition role_answered (e : RoleEvent) : option RoleOutput :=
  match e with
  | RoleEv c r =>
      match c as c0 return result (IamOut c0) -> option RoleOutput with
      | iam_GetRole _ | iam_CreateRole _ =>
          fun r => match r with Ok out => Some out | Err _ => None end
      | iam_AttachRolePolicy _ => fun _ => None
      end r
  end.

(** The configuration a successful command on the function answered
    ([CreateFunction], [UpdateFunctionConfiguration], [UpdateFunctionCode],
    [PublishVersion]). *)
Definition ev_answer (e : Event) : option FunctionConfiguration :=
  match e with
  | Ev c r =>
      match c as c0 return result (Out c0) -> option FunctionConfiguration with
      | lambda_UpdateFunctionConfiguration _ | lambda_UpdateFunctionCode _
      | lambda_PublishVersion _ | lambda_CreateFunction _ =>
          fun r => match r with Ok out => Some out | Err _ => None end
      | _ => fun _ => None
      end r
  end.

Definition is_CreateFunction (c : Cmd) : bool :=
  match c with lambda_CreateFunction _ => true | _ => false end.

Definition is_GetFunction (c : Cmd) : bool :=
  match c with lambda_GetFunction _ => true | _ => false end.

(** The bucket and key a command puts an object at or takes the code of the
    function from. *)
Definition code_location (c : Cmd) : option (string * string) :=
  match c with
  | s3manager_Upload i => Some (up_Bucket i, up_Key i)
  | lambda_UpdateFunctionCode i => Some (ufk_S3Bucket i, ufk_S3Key i)
  | lambda_CreateFunction i => Some (cf_S3Bucket i, cf_S3Key i)
  | _ => None
  end.

(** The details a successful [GetLayerVersion] answered. *)
Definition ev_details (e : Event) : option GetLayerVersionOutput :=
  match e with
  | Ev c r =>
      match c as c0 return result (Out c0) -> option GetLayerVersionOutput with
      | lambda_GetLayerVersion _ =>
          fun r => match r with Ok out => Some out | Err _ => None end
      | _ => fun _ => None
      end r
  end.

(** The raw digest a successful [HashFile] answered. *)
Definition ev_digest (e : Event) : option (list byte) :=
  match e with
  | Ev c r =>
      match c as c0 return result (Out c0) -> option (list byte) with
      | HashFile _ => fun r => match r with Ok raw => Some raw | Err _ => None end
      | _ => fun _ => None
      end r
  end.

(** The bucket and key of the object of a layer a command is about. *)
Definition layer_object (c : Cmd) : option (string * string) :=
  match c with
  | s3_HeadObject i => Some (ho_Bucket i, ho_Key i)
  | s3manager_Upload i => Some (up_Bucket i, up_Key i)
  | lambda_PublishLayerVersion i => Some (plv_S3Bucket i, plv_S3Key i)
  | _ => None
  end.

(** Whether a character occurs in a string: [strings.ContainsRune]. *)
Fixpoint has_char (c : ascii) (s : string) : bool :=
  match s with
  | EmptyString => false
  | String x rest => Ascii.eqb x c || has_char c rest
  end.

(** ** A simulated role service

    The simulated platform with a role store beside it.  [role_fails]
    injects faults in the role commands. *)
Module SimRole.

Record World := {
  platform : Sim.World;
  roles : gmap string string;
  role_fails : IamCmd -> option error
}.

Definition arnOf (name : string) : string := "arn:aws:iam::role/" +:+ name.

Definition noSuchEntity {A : Type} : result A := Err (ApiError "NoSuchEntity").

Definition serve (c : IamCmd) (w : World) : result (IamOut c) * World :=
  match c as c0 return result (IamOut c0) * World with
  | iam_GetRole i =>
      (match roles w !! gr_RoleName i with
       | Some arn => Ok {| role_Arn := arn |}
       | None => noSuchEntity
       end, w)
  | iam_CreateRole i =>
      match roles w !! cr_RoleName i with
      | Some _ => (Err (ApiError "EntityAlreadyExists"), w)
      | None =>
          (Ok {| role_Arn := arnOf (cr_RoleName i) |},
           {| platform := platform w;
              roles := <[cr_RoleName i := arnOf (cr_RoleName i)]> (roles w);
              role_fails := role_fails w |})
      end
  | iam_AttachRolePolicy i =>
      (match roles w !! arp_RoleName i with
       | Some _ => Ok tt
       | None => noSuchEntity
       end, w)
  end.

Definition role_services : RoleServices World :=
  fun c w =>
    match role_fails w c with
    | Some e => (Err e, w)
    | None => serve c w
    end.

(** The services of the simulated platform, on the larger world. *)
Definition services : Services World :=
  fun c w =>
    let '(r, p) := Sim.services c (platform w) in
    (r, {| platform := p; roles := roles w; role_fails := role_fails w |}).

(** Nothing deployed and no role. *)
Definition fresh : World :=
  {| platform := Scenario.fresh; roles := ∅; role_fails := fun _ => None |}.

(** No role, and the role cannot be created. *)
Definition createFails : World :=
  {| platform := Scenario.fresh; roles := ∅;
     role_fails := fun c => if is_CreateRole c then Some Scenario.timeout else None |}.

(** No role, and the policy cannot be attached. *)
Definition attachFails : World :=
  {| platform := Scenario.fresh; roles := ∅;
     role_fails := fun c => if is_AttachRolePolicy c then Some Scenario.timeout else None |}.

End SimRole.

(** The requests one [NextLogBatch] call sends when it asks the partitions
    [parts] in turn: the first request carries the token [tok], the later
    ones no token. *)
Definition requests (grp : string) (tok : option string) (parts : list LogStream)
  : list Cmd :=
  match parts with
  | [] => []
  | s :: rest =>
      logs_GetLogEvents (getLogEventsInput grp s tok)
      :: map (fun s' => logs_GetLogEvents (getLogEventsInput grp s' None)) rest
  end.

(** [e] is a request for the log events of one of the partitions [parts], in
    the group [grp], read from the head. *)
Definition asks (grp : string) (parts : list LogStream) (e : Event) : Prop :=
  exists s tok,
    s ∈ parts /\ ev_cmd e = logs_GetLogEvents (getLogEventsInput grp s tok).

(** ** Further runs on the simulated platform *)
Module Edge.

(** A configuration whose environment has no variable map. *)
Definition nilMap : FunctionConfiguration :=
  {| Layers := []; Environment := Some {| Variables := None |};
     Handler := Some "app.handler"; Role := Some (roleArn Scenario.d0);
     Timeout := Some 60; MemorySize := Some 256; fc_Runtime := Some "ruby2.5";
     CodeSha256 := "AQI="; FunctionArn := "arn:aws:lambda:function:shop" |}.

(** The function exists with that configuration. *)
Definition deployedNilMap : Sim.World :=
  {| Sim.files := Sim.files Scenario.fresh; Sim.objects := ∅; Sim.versions := [];
     Sim.function := Some nilMap; Sim.published := 1;
     Sim.logStreams := []; Sim.logPages := Scenario.noPages;
     Sim.fails := fun _ => None |}.

(** As [Scenario.deployedBare], with the publication of a function version
    failing. *)
Definition publishFails : Sim.World :=
  {| Sim.files := Sim.files Scenario.fresh; Sim.objects := ∅; Sim.versions := [];
     Sim.function := Some Scenario.bare; Sim.published := 1;
     Sim.logStreams := []; Sim.logPages := Scenario.noPages;
     Sim.fails := fun c => if is_PublishVersion c then Some Scenario.timeout else None |}.

Definition queryA : ConfigVar := {| Name := "A"; Value := "" |}.

(** As [Scenario.logging], with every request for log events failing. *)
Definition logsFail : Sim.World :=
  {| Sim.files := ∅; Sim.objects := ∅; Sim.versions := [];
     Sim.function := Some Scenario.bare; Sim.published := 1;
     Sim.logStreams := [Scenario.s1; Scenario.s2; Scenario.s3];
     Sim.logPages := Scenario.pages;
     Sim.fails := fun c => if is_GetLogEvents c then Some Scenario.timeout else None |}.


(** [Scenario.viewer0] after a call that returned the events of the first
    stream, and after a call whose request to the first stream failed. *)
Definition active1 : cloudwatchLogsViewer :=
  {| group := logGroupName Scenario.app0; lastToken := Some "f/1";
     stream := Some Scenario.s1; streams := [Scenario.s2; Scenario.s3] |}.

Definition failed1 : cloudwatchLogsViewer :=
  {| group := logGroupName Scenario.app0; lastToken := None;
     stream := Some Scenario.s1; streams := [Scenario.s2; Scenario.s3] |}.

End Edge.

(** * Properties *)

Arguments layerKey : simpl never.
Arguments layerDescription : simpl never.
Arguments appKey : simpl never.
Arguments updateConfigInput : simpl never.
Arguments createInput : simpl never.
Arguments EncodeToString : simpl never.
Arguments TrimRight : simpl never.
Arguments time_Unix : simpl never.
Arguments String.append : simpl never.
Arguments CreateLayer_publish : simpl never.
Arguments CreateFunction_layers : simpl never.
Arguments getLogEventsInput : simpl never.

(** ** Running programs *)

Section Runs.
Context {W : Type} (h : Services W).

Lemma run_bind {A B : Type} (p : Prog A) (f : A -> Prog B) (w : W) :
  run h (bind p f) w =
  let '(o, w1, t1) := run h p w in
  match o with
  | Done a => let '(o2, w2, t2) := run h (f a) w1 in (o2, w2, (t1 ++ t2)%list)
  | Crashed => (Crashed, w1, t1)
  end.
Proof.
  revert w. induction p as [a | | c k IH]; intros w; cbn.
  - destruct (run h (f a) w) as [[o2 w2] t2]. reflexivity.
  - reflexivity.
  - destruct (h c w) as [r w1]. rewrite IH.
    destruct (run h (k r) w1) as [[o w2] t]. destruct o as [a |].
    + destruct (run h (f a) w2) as [[o2 w3] t2]. reflexivity.
    + reflexivity.
Qed.

End Runs.

(** ** Configuration variables *)

Lemma layerArns_app (layers : list Layer) (acc : list string) :
  fold_left (fun (acc : list string) cl => (acc ++ [Arn cl])%list) layers acc
  = (acc ++ map Arn layers)%list.
Proof.
  revert acc. induction layers as [| l layers IH]; intros acc; cbn.
  - symmetry. apply app_nil_r.
  - rewrite IH. rewrite <- app_assoc. reflexivity.
Qed.

Lemma layerArns_map (layers : list Layer) : layerArns layers = map Arn layers.
Proof. unfold layerArns. apply layerArns_app. Qed.

(** Case on the answer of the next command of a run. *)
Ltac answer h :=
  match goal with
  | |- context [h ?c ?w] =>
      let r := fresh "r" in
      let e := fresh "e" in
      let w' := fresh "w" in
      destruct (h c w) as [[r | e] w'] eqn:?; cbn
  end.

Section ConfigRuns.
Context {W : Type} (h : Services W).

(** A variable that is in the environment mapping is returned. *)
Lemma ConfigGet_present d app cv w out w1 env val :
  h (lambda_GetFunction (App app)) w = (Ok out, w1) ->
  Environment (Configuration out) = Some env ->
  map_index (Variables env) (Name cv) = Some val ->
  run h (ConfigGet d app cv) w =
  (Done ({| Name := Name cv; Value := val |}, None), w1,
   [Ev (lambda_GetFunction (App app)) (Ok out)]).
Proof.
  intros Hget Henv Hval. unfold ConfigGet. cbn.
  rewrite Hget, Henv, Hval. reflexivity.
Qed.

(** A variable that is not in the environment mapping (the nil map
    included) gives [ErrNoSuchVariable]. *)
Lemma ConfigGet_absent d app cv w out w1 env :
  h (lambda_GetFunction (App app)) w = (Ok out, w1) ->
  Environment (Configuration out) = Some env ->
  map_index (Variables env) (Name cv) = None ->
  run h (ConfigGet d app cv) w =
  (Done (cv, Some ErrNoSuchVariable), w1,
   [Ev (lambda_GetFunction (App app)) (Ok out)]).
Proof.
  intros Hget Henv Hval. unfold ConfigGet. cbn.
  rewrite Hget, Henv, Hval. reflexivity.
Qed.

(** A configuration without an environment makes [ConfigGet] panic, whatever
    the variable. *)
Lemma ConfigGet_nil_environment d app cv w out w1 :
  h (lambda_GetFunction (App app)) w = (Ok out, w1) ->
  Environment (Configuration out) = None ->
  run h (ConfigGet d app cv) w =
  (Crashed, w1, [Ev (lambda_GetFunction (App app)) (Ok out)]).
Proof.
  intros Hget Henv. unfold ConfigGet. cbn. rewrite Hget, Henv. reflexivity.
Qed.

(** [ConfigSet], its sibling, tests the pointer and goes on with an empty
    mapping: it does not panic there. *)
Lemma ConfigSet_nil_environment d app cv w out w1 :
  h (lambda_GetFunction (App app)) w = (Ok out, w1) ->
  Environment (Configuration out) = None ->
  fst (fst (run h (ConfigSet d app cv) w)) <> Crashed.
Proof.
  intros Hget Henv. unfold ConfigSet. cbn. rewrite Hget, Henv. cbn.
  answer h; [| discriminate]. answer h; discriminate.
Qed.

(** The shape of every successful [ConfigSet] run. *)
Lemma ConfigSet_ok d app cv w w' t :
  run h (ConfigSet d app cv) w = (Done None, w', t) ->
  exists cur i, ConfigSet_run app cv t cur i.
Proof.
  unfold ConfigSet. cbn.
  answer h; [| discriminate]. rename r into out.
  destruct (Environment (Configuration out)) as [env |] eqn:Henv.
  - destruct (Variables env) as [m |] eqn:Hm; cbn; [| discriminate].
    answer h; [| discriminate].
    answer h; [| discriminate].
    intros [= <- <-]. eexists _, _. unfold ConfigSet_run.
    split; [reflexivity |]. split; [reflexivity |]. split; [reflexivity |].
    split; [repeat constructor |].
    unfold writes_back, currentEnv; cbn. rewrite Henv, Hm, layerArns_map. cbn.
    repeat split.
  - cbn.
    answer h; [| discriminate].
    answer h; [| discriminate].
    intros [= <- <-]. eexists _, _. unfold ConfigSet_run.
    split; [reflexivity |]. split; [reflexivity |]. split; [reflexivity |].
    split; [repeat constructor |].
    unfold writes_back, currentEnv; cbn. rewrite Henv, layerArns_map.
    repeat split.
Qed.

End ConfigRuns.

(** C5.  Every successful [ConfigSet] fetches the configuration, writes back
    the fetched environment mapping (the empty one when there is none) with
    the variable inserted or overwritten, together with the handler, role,
    timeout, memory size, runtime and layer list of the fetched
    configuration, and then publishes a version.  Two successful calls in a
    row, on a platform that hands the written configuration back, end with a
    mapping that holds both variables, the other fields being those fetched
    by the first call. *)
Theorem ConfigSet_writes_back :
  (forall (W : Type) (h : Services W) d app cv w w' t,
      run h (ConfigSet d app cv) w = (Done None, w', t) ->
      exists cur i, ConfigSet_run app cv t cur i)
  /\
  (forall (W : Type) (h : Services W) d app a b w w1 w2 t1 t2,
      run h (ConfigSet d app a) w = (Done None, w1, t1) ->
      run h (ConfigSet d app b) w1 = (Done None, w2, t2) ->
      exists cur1 i1 cur2 i2 env,
        ConfigSet_run app a t1 cur1 i1 /\
        ConfigSet_run app b t2 cur2 i2 /\
        (stored i1 cur2 ->
         ufc_Environment i2 = Some env /\
         env = <[Name b := Value b]> (<[Name a := Value a]> (currentEnv cur1)) /\
         env !! Name b = Some (Value b) /\
         (Name a <> Name b -> env !! Name a = Some (Value a)) /\
         ufc_Handler i2 = Handler cur1 /\
         ufc_Role i2 = Role cur1 /\
         ufc_Timeout i2 = Timeout cur1 /\
         ufc_MemorySize i2 = MemorySize cur1 /\
         ufc_Runtime i2 = fc_Runtime cur1 /\
         ufc_Layers i2 = map Arn (Layers cur1))).
Proof.
  split.
  - intros W h d app cv w w' t Hrun. exact (ConfigSet_ok h d app cv w w' t Hrun).
  - intros W h d app a b w w1 w2 t1 t2 Hrun1 Hrun2.
    destruct (ConfigSet_ok h d app a w w1 t1 Hrun1) as (cur1 & i1 & H1).
    destruct (ConfigSet_ok h d app b w1 w2 t2 Hrun2) as (cur2 & i2 & H2).
    exists cur1, i1, cur2, i2,
      (<[Name b := Value b]> (<[Name a := Value a]> (currentEnv cur1))).
    split; [exact H1 |]. split; [exact H2 |].
    destruct H1 as (_ & _ & _ & _ & _ & Henv1 & Hh1 & Hr1 & Ht1 & Hm1 & Hrt1 & Hl1).
    destruct H2 as (_ & _ & _ & _ & _ & Henv2 & Hh2 & Hr2 & Ht2 & Hm2 & Hrt2 & Hl2).
    intros (Se & Sh & Sr & St & Sm & Srt & Sl).
    assert (Hcur : currentEnv cur2 = <[Name a := Value a]> (currentEnv cur1)).
    { unfold currentEnv at 1. rewrite Se. cbn. rewrite Henv1. reflexivity. }
    split; [rewrite Henv2, Hcur; reflexivity |].
    split; [reflexivity |].
    split; [apply lookup_insert_eq |].
    split.
    { intros Hne. rewrite lookup_insert_ne by congruence. apply lookup_insert_eq. }
    repeat split; congruence.
Qed.

(** [ConfigSet_writes_back] on the simulated platform: ["A"] then ["B"] on a
    function without an environment. *)
Lemma ConfigSet_writes_back_witness :
  let r1 := run Sim.services
              (ConfigSet Scenario.d0 Scenario.app0 Scenario.varA) Scenario.deployedBare in
  let r2 := run Sim.services
              (ConfigSet Scenario.d0 Scenario.app0 Scenario.varB) (snd (fst r1)) in
  exists cur1 i1 cur2 i2 env,
    ConfigSet_run Scenario.app0 Scenario.varA (snd r1) cur1 i1 /\
    ConfigSet_run Scenario.app0 Scenario.varB (snd r2) cur2 i2 /\
    stored i1 cur2 /\
    ufc_Environment i2 = Some env /\
    env !! "B" = Some "2" /\ env !! "A" = Some "1" /\
    ufc_Handler i2 = Some "app.handler" /\ ufc_Layers i2 = [].
Proof.
  intros r1 r2.
  destruct (proj2 ConfigSet_writes_back Sim.World Sim.services
              Scenario.d0 Scenario.app0 Scenario.varA Scenario.varB
              Scenario.deployedBare (snd (fst r1)) (snd (fst r2)) (snd r1) (snd r2))
    as (cur1 & i1 & cur2 & i2 & env & H1 & H2 & H3).
  - vm_compute. reflexivity.
  - vm_compute. reflexivity.
  - exists cur1, i1, cur2, i2, env.
    assert (Hst : stored i1 cur2).
    { destruct H1 as (_ & Hw1 & _). destruct H2 as (Hf2 & _).
      vm_compute in Hw1. vm_compute in Hf2.
      injection Hw1 as <-. injection Hf2 as <-.
      repeat split. }
    destruct (H3 Hst) as (He & _ & Hb & Ha & Hh & _ & _ & _ & _ & Hl).
    split; [exact H1 |]. split; [exact H2 |]. split; [exact Hst |].
    split; [exact He |]. split; [exact Hb |].
    split; [apply Ha; discriminate |].
    destruct H1 as (Hf1 & _). vm_compute in Hf1. injection Hf1 as <-.
    split; [exact Hh | exact Hl].
Defined.

(** C4.  On a function that has no environment at all, [ConfigGet] does not
    fail with [ErrNoSuchVariable]: the run panics after the configuration
    was fetched. *)
Theorem ConfigGet_panics_without_environment :
  run Sim.services (ConfigGet Scenario.d0 Scenario.app0 Scenario.home)
      Scenario.deployedBare
  = (Crashed, Scenario.deployedBare,
     [Ev (lambda_GetFunction "shop") (Ok {| Configuration := Scenario.bare |})]).
Proof. reflexivity. Qed.

(** ** Layers *)

(** Split a membership in an explicit trace into its cases. *)
Ltac in_trace :=
  repeat match goal with
  | H : _ ∈ [] |- _ => apply elem_of_nil in H; destruct H
  | H : _ ∈ _ :: _ |- _ => apply elem_of_cons in H; destruct H as [-> | H]
  end.

Section LayerRuns.
Context {W : Type} (h : Services W).

(** *** The upload and publish half *)

Lemma CreateLayer_publish_cmds d app info name path w o w' t :
  run h (CreateLayer_publish d app info name path) w = (o, w', t) ->
  Forall (fun e => is_publish_path (ev_cmd e) = true) t /\ o <> Crashed.
Proof.
  unfold CreateLayer_publish. cbn.
  answer h; [| intros [= <- <- <-]; split; [repeat constructor | discriminate]].
  answer h; [| intros [= <- <- <-]; split; [repeat constructor | discriminate]].
  answer h.
  - answer h; intros [= <- <- <-]; split; (repeat constructor) || discriminate.
  - answer h.
    + answer h; intros [= <- <- <-]; split; (repeat constructor) || discriminate.
    + intros [= <- <- <-]; split; (repeat constructor) || discriminate.
Qed.

(** A failed upload ends the call at once, with an empty reference and no
    error. *)
Lemma CreateLayer_publish_upload_fails d app info name path w o w' t e err :
  run h (CreateLayer_publish d app info name path) w = (o, w', t) ->
  e ∈ t -> is_Upload (ev_cmd e) = true -> ev_err e = Some err ->
  o = Done ("", None) /\ last t = Some e /\
  Forall (fun e => is_PublishLayerVersion (ev_cmd e) = false) t.
Proof.
  unfold CreateLayer_publish. cbn.
  answer h; [| intros [= <- <- <-] He; in_trace; discriminate].
  answer h; [| intros [= <- <- <-] He; in_trace; discriminate].
  answer h.
  - answer h; intros [= <- <- <-] He; in_trace; discriminate.
  - answer h.
    + answer h; intros [= <- <- <-] He; in_trace; discriminate.
    + intros [= <- <- <-] He Hup Herr; in_trace; try discriminate.
      split; [reflexivity |]. split; [reflexivity |]. repeat constructor.
Qed.


(** *** The reuse scan *)

Lemma scanLayerVersions_run name sum vers w o w' t :
  run h (scanLayerVersions name sum vers) w = (o, w', t) ->
  Forall (fun e => is_GetLayerVersion (ev_cmd e) = true) t /\
  match o with
  | Crashed => False
  | Done None | Done (Some (_, None)) => Forall (fun e => ev_err e = None) t
  | Done (Some (x, Some err)) =>
      x = "" /\
      exists init l, t = (init ++ [l])%list /\
                     Forall (fun e => ev_err e = None) init /\ ev_err l = Some err
  end.
Proof.
  revert w o w' t. induction vers as [| ver rest IH]; intros w o w' t; cbn.
  - intros [= <- <- <-]. split; constructor.
  - answer h.
    + destruct (String.eqb (glv_CodeSha256 r) sum) eqn:Hsum; cbn.
      * intros [= <- <- <-]. split; repeat constructor.
      * destruct (run h (scanLayerVersions name sum rest) w0) as [[o1 w1] t1] eqn:Hrest.
        intros [= <- <- <-]. destruct (IH _ _ _ _ Hrest) as [Hcmd Hout].
        split; [constructor; [reflexivity | exact Hcmd] |].
        destruct o1 as [[[x [err |]] |] |]; try (constructor; [reflexivity | exact Hout]).
        -- destruct Hout as (-> & init & l & -> & Hinit & Hl).
           split; [reflexivity |].
           exists (Ev (lambda_GetLayerVersion
                         {| glv_LayerName := name; glv_VersionNumber := lvi_Version ver |})
                      (Ok r) :: init), l.
           split; [reflexivity |]. split; [constructor; [reflexivity | exact Hinit] | exact Hl].
        -- exact Hout.
    + intros [= <- <- <-]. split; [repeat constructor |].
      split; [reflexivity |].
      exists [], (Ev (lambda_GetLayerVersion
                        {| glv_LayerName := name; glv_VersionNumber := lvi_Version ver |})
                     (Err e)).
      split; [reflexivity |]. split; [constructor | reflexivity].
Qed.



(** *** The whole call *)

(** The three ways a [CreateLayer] run goes: the digest fails; the listing
    fails and the call uploads and publishes; the listing succeeds, the scan
    runs, and the call either returns from the scan or uploads and
    publishes. *)
Lemma CreateLayer_cases d app info name path w o w' t :
  run h (CreateLayer d app info name path) w = (o, w', t) ->
  (exists e0, t = [Ev (HashFile path) (Err e0)] /\ o = Done ("", Some e0))
  \/
  (exists raw e0 w2 t2,
      t = Ev (HashFile path) (Ok raw) :: Ev (lambda_ListLayerVersions name) (Err e0) :: t2 /\
      run h (CreateLayer_publish d app info name path) w2 = (o, w', t2))
  \/
  (exists raw out w1 os ws ts tp,
      t = (Ev (HashFile path) (Ok raw) :: Ev (lambda_ListLayerVersions name) (Ok out)
             :: ts ++ tp)%list /\
      run h (scanLayerVersions name (EncodeToString raw) (LayerVersions out)) w1
        = (os, ws, ts) /\
      match os with
      | Done (Some ret) => tp = [] /\ o = Done ret /\ w' = ws
      | Done None => run h (CreateLayer_publish d app info name path) ws = (o, w', tp)
      | Crashed => False
      end).
Proof.
  unfold CreateLayer, LambdaCodeSha256. cbn.
  answer h; [| intros [= <- <- <-]; left; eexists; split; reflexivity].
  answer h.
  - rewrite run_bind.
    destruct (run h (scanLayerVersions name (EncodeToString r) (LayerVersions r0)) w1)
      as [[os ws] ts] eqn:Hscan.
    destruct (scanLayerVersions_run _ _ _ _ _ _ _ Hscan) as [_ Hos].
    destruct os as [[ret |] |]; [| | destruct Hos].
    + cbn. intros [= <- <- <-]. right. right.
      exists r, r0, w1, (Done (Some ret)), ws, ts, [].
      split; [reflexivity |]. split; [exact Hscan |]. repeat split.
    + cbn.
      destruct (run h (CreateLayer_publish d app info name path) ws) as [[o2 w2] t2] eqn:Hpub.
      intros [= <- <- <-]. right. right.
      exists r, r0, w1, (Done None), ws, ts, t2.
      split; [reflexivity |]. split; [exact Hscan | exact Hpub].
  - destruct (run h (CreateLayer_publish d app info name path) w1) as [[o2 w2] t2] eqn:Hpub.
    intros [= <- <- <-]. right. left.
    exists r, e, w1, t2. split; [reflexivity | exact Hpub].
Qed.


Lemma publish_path_not_lookup e :
  is_publish_path (ev_cmd e) = true -> is_lookup (ev_cmd e) = false.
Proof. destruct e as [c r]; destruct c; cbn; intros; (reflexivity || discriminate). Qed.

Lemma GetLayerVersion_is_lookup e :
  is_GetLayerVersion (ev_cmd e) = true -> is_lookup (ev_cmd e) = true.
Proof. destruct e as [c r]; destruct c; cbn; intros; (reflexivity || discriminate). Qed.

Lemma lookup_kinds e :
  is_lookup (ev_cmd e) = true ->
  is_Upload (ev_cmd e) = false /\ is_HeadObject (ev_cmd e) = false /\
  is_PublishLayerVersion (ev_cmd e) = false.
Proof. destruct e as [c r]; destruct c; cbn; intros; repeat split; discriminate. Qed.


(** A failed upload during a [CreateLayer] run: the run returns the empty
    reference and the nil error, and publishes nothing. *)
Lemma CreateLayer_upload_fails d app info name path w o w' t e err :
  run h (CreateLayer d app info name path) w = (o, w', t) ->
  e ∈ t -> is_Upload (ev_cmd e) = true -> ev_err e = Some err ->
  o = Done ("", None) /\
  Forall (fun e => is_PublishLayerVersion (ev_cmd e) = false) t.
Proof.
  intros Hrun He Hup Herr.
  destruct (CreateLayer_cases _ _ _ _ _ _ _ _ _ Hrun)
    as [(e0 & -> & _) | [(raw & e0 & w2 & t2 & -> & Hp)
                        | (raw & out' & w1 & os & ws & ts & tp & -> & Hscan & Hos)]].
  - in_trace. discriminate.
  - in_trace; try discriminate.
    destruct (CreateLayer_publish_upload_fails _ _ _ _ _ _ _ _ _ _ _ Hp He Hup Herr)
      as (-> & _ & Hno).
    split; [reflexivity |]. repeat (constructor; [reflexivity |]). exact Hno.
  - in_trace; try discriminate.
    destruct (scanLayerVersions_run _ _ _ _ _ _ _ Hscan) as [Hcmd _].
    assert (Hts : Forall (fun e => is_lookup (ev_cmd e) = true) ts).
    { eapply Forall_impl; [exact Hcmd |]. intros x. apply GetLayerVersion_is_lookup. }
    apply elem_of_app in He. destruct He as [He | He].
    + rewrite Forall_forall in Hts. apply Hts, lookup_kinds in He.
      destruct He as (Hu & _). congruence.
    + destruct os as [[ret |] |]; [| | destruct Hos].
      * destruct Hos as (-> & _). apply elem_of_nil in He. destruct He.
      * destruct (CreateLayer_publish_upload_fails _ _ _ _ _ _ _ _ _ _ _ Hos He Hup Herr)
          as (-> & _ & Hno).
        split; [reflexivity |]. repeat (constructor; [reflexivity |]).
        apply Forall_app. split; [| exact Hno].
        eapply Forall_impl; [exact Hts |]. intros x Hx. apply lookup_kinds in Hx. tauto.
Qed.

End LayerRuns.

(** C1.  A layer publish on a platform with no version of the layer and no
    object at the key, where the upload fails with a timeout: the call
    returns the empty reference and the nil error, so the upload error does
    not reach the caller.  No layer version is published. *)
Theorem CreateLayer_upload_error_is_lost :
  let '(o, w, t) := run Sim.services
                      (CreateLayer Scenario.d0 Scenario.app0 Scenario.build1
                                   "shop-lib" "lib.zip")
                      Scenario.uploadsFail in
  o = Done ("", None)
  /\ map ev_cmd t =
       [HashFile "lib.zip"; lambda_ListLayerVersions "shop-lib";
        os_Open "lib.zip"; file_Stat {| f_path := "lib.zip" |};
        s3_HeadObject {| ho_Bucket := "artifacts"; ho_Key := "shop-b1-shop-lib.zip" |};
        s3manager_Upload {| up_Body := {| f_path := "lib.zip" |};
                            up_Bucket := "artifacts";
                            up_Key := "shop-b1-shop-lib.zip" |}]
  /\ (ev_err <$> last t) = Some (Some Scenario.timeout)
  /\ Sim.versions w = [].
Proof. vm_compute. repeat split. Qed.

(** C10.  In every [CreateLayer] run: a failed listing of the layer versions
    is not returned, the run goes on right after it with the upload and
    publish half, as it does after an empty listing; a failed lookup of the
    details of a version ends the run with that error, the failed lookup
    being the last command, and nothing but lookups having been issued. *)
Theorem CreateLayer_scan_failures :
  forall (W : Type) (h : Services W) d app info name path w o w' t,
    run h (CreateLayer d app info name path) w = (o, w', t) ->
    (forall e err,
        e ∈ t -> is_ListLayerVersions (ev_cmd e) = true -> ev_err e = Some err ->
        exists raw w2 t2,
          t = Ev (HashFile path) (Ok raw) :: e :: t2 /\
          run h (CreateLayer_publish d app info name path) w2 = (o, w', t2))
    /\
    (forall e,
        e ∈ t -> ev_listed e = Some [] ->
        exists raw w2 t2,
          t = Ev (HashFile path) (Ok raw) :: e :: t2 /\
          run h (CreateLayer_publish d app info name path) w2 = (o, w', t2))
    /\
    (forall e err,
        e ∈ t -> is_GetLayerVersion (ev_cmd e) = true -> ev_err e = Some err ->
        o = Done ("", Some err) /\ last t = Some e /\
        Forall (fun e => is_lookup (ev_cmd e) = true) t).
Proof.
  intros W h d app info name path w o w' t Hrun.
  destruct (CreateLayer_cases h _ _ _ _ _ _ _ _ _ Hrun)
    as [(e0 & -> & ->) | [(raw & e0 & w2 & t2 & -> & Hp)
                         | (raw & out & w1 & os & ws & ts & tp & -> & Hscan & Hos)]].
  - split; [| split]; intros e; intros; in_trace; discriminate.
  - destruct (CreateLayer_publish_cmds h _ _ _ _ _ _ _ _ _ Hp) as [Hcmd _].
    rewrite Forall_forall in Hcmd.
    split; [| split].
    + intros e err He Hl Herr. in_trace; try discriminate.
      * exists raw, w2, t2. split; [reflexivity | exact Hp].
      * apply Hcmd in He. destruct e as [c r]; destruct c; discriminate.
    + intros e He Hl. in_trace; try discriminate.
      apply Hcmd in He. destruct e as [c r]; destruct c; discriminate.
    + intros e err He Hg Herr. in_trace; try discriminate.
      apply Hcmd in He. destruct e as [c r]; destruct c; discriminate.
  - destruct (scanLayerVersions_run h _ _ _ _ _ _ _ Hscan) as [Hget Hout].
    assert (Hts : forall e, e ∈ ts -> is_GetLayerVersion (ev_cmd e) = true).
    { apply Forall_forall. exact Hget. }
    assert (Htp : forall e, e ∈ tp -> is_publish_path (ev_cmd e) = true).
    { destruct os as [[ret |] |]; [| | destruct Hout].
      - destruct Hos as (-> & _). intros e He. apply elem_of_nil in He. destruct He.
      - apply Forall_forall.
        exact (proj1 (CreateLayer_publish_cmds h _ _ _ _ _ _ _ _ _ Hos)). }
    split; [| split].
    + intros e err He Hl Herr. in_trace; try discriminate.
      apply elem_of_app in He. destruct He as [He | He].
      * apply Hts in He. destruct e as [c r]; destruct c; discriminate.
      * apply Htp in He. destruct e as [c r]; destruct c; discriminate.
    + intros e He Hl. in_trace; try discriminate.
      * destruct out as [vers]. cbn in Hl. injection Hl as ->.
        cbn in Hscan. injection Hscan as <- <- <-.
        exists raw, w1, tp. split; [reflexivity | exact Hos].
      * apply elem_of_app in He. destruct He as [He | He].
        -- apply Hts in He. destruct e as [c r]; destruct c; discriminate.
        -- apply Htp in He. destruct e as [c r]; destruct c; discriminate.
    + intros e err He Hg Herr. in_trace; try discriminate.
      apply elem_of_app in He. destruct He as [He | He].
      * destruct os as [[[x [err' |]] |] |].
        -- destruct Hout as (-> & init & l & -> & Hinit & Hl).
           destruct Hos as (-> & -> & _).
           rewrite Forall_forall in Hinit.
           apply elem_of_app in He. destruct He as [He | He].
           { apply Hinit in He. congruence. }
           apply list_elem_of_singleton in He. subst l.
           assert (err' = err) as -> by congruence.
           split; [reflexivity |]. split.
           { rewrite app_nil_r.
             change (last ((Ev (HashFile path) (Ok raw)
                              :: Ev (lambda_ListLayerVersions name) (Ok out) :: init)
                           ++ [e]) = Some e).
             apply last_snoc. }
           rewrite app_nil_r. repeat (constructor; [reflexivity |]).
           eapply Forall_impl; [exact Hget |]. intros x. apply GetLayerVersion_is_lookup.
        -- rewrite Forall_forall in Hout. apply Hout in He. congruence.
        -- rewrite Forall_forall in Hout. apply Hout in He. congruence.
        -- destruct Hout.
      * apply Htp in He. destruct e as [c r]; destruct c; discriminate.
Qed.

(** [CreateLayer_scan_failures] on the simulated platform: once with the
    listing failing, once with the lookup of the only version failing. *)
Lemma CreateLayer_scan_failures_witness :
  (let r := run Sim.services
              (CreateLayer Scenario.d0 Scenario.app0 Scenario.build1 "shop-lib" "lib.zip")
              Scenario.listingFails in
   exists raw w2 t2,
     snd r = Ev (HashFile "lib.zip") (Ok raw)
               :: Ev (lambda_ListLayerVersions "shop-lib") (Err Scenario.timeout) :: t2 /\
     run Sim.services
         (CreateLayer_publish Scenario.d0 Scenario.app0 Scenario.build1 "shop-lib" "lib.zip")
         w2 = (fst (fst r), snd (fst r), t2))
  /\
  (let r := run Sim.services
              (CreateLayer Scenario.d0 Scenario.app0 Scenario.build1 "shop-lib" "lib.zip")
              Scenario.detailsFail in
   fst (fst r) = Done ("", Some Scenario.timeout) /\
   last (snd r) =
     Some (Ev (lambda_GetLayerVersion {| glv_LayerName := "shop-lib";
                                         glv_VersionNumber := 1 |})
              (Err Scenario.timeout)) /\
   Forall (fun e => is_lookup (ev_cmd e) = true) (snd r)).
Proof.
  split.
  - intros r.
    destruct (CreateLayer_scan_failures Sim.World Sim.services
                Scenario.d0 Scenario.app0 Scenario.build1 "shop-lib" "lib.zip"
                Scenario.listingFails (fst (fst r)) (snd (fst r)) (snd r))
      as (Hlist & _ & _).
    + vm_compute. reflexivity.
    + apply (Hlist (Ev (lambda_ListLayerVersions "shop-lib") (Err Scenario.timeout))
                   Scenario.timeout).
      * vm_compute. apply list_elem_of_further, list_elem_of_here.
      * reflexivity.
      * reflexivity.
  - intros r.
    destruct (CreateLayer_scan_failures Sim.World Sim.services
                Scenario.d0 Scenario.app0 Scenario.build1 "shop-lib" "lib.zip"
                Scenario.detailsFail (fst (fst r)) (snd (fst r)) (snd r))
      as (_ & _ & Hget).
    + vm_compute. reflexivity.
    + apply (Hget (Ev (lambda_GetLayerVersion {| glv_LayerName := "shop-lib";
                                                 glv_VersionNumber := 1 |})
                      (Err Scenario.timeout))
                  Scenario.timeout).
      * vm_compute. apply list_elem_of_further, list_elem_of_further, list_elem_of_here.
      * reflexivity.
      * reflexivity.
Defined.



(** ** The function *)

(** What the loop over the attached layers computes: some attached layer is
    neither of the two references. *)
Lemma newLayers_true (layers : list Layer) (preLayer libLayer : string) :
  newLayers layers preLayer libLayer = true <->
  exists layer, layer ∈ layers /\ Arn layer <> preLayer /\ Arn layer <> libLayer.
Proof.
  induction layers as [| l rest IH]; cbn.
  - split; [discriminate |]. intros (x & Hx & _). apply elem_of_nil in Hx. destruct Hx.
  - destruct (String.eqb (Arn l) preLayer) eqn:Hp; cbn.
    + apply String.eqb_eq in Hp. rewrite IH. split.
      * intros (x & Hx & Hne). exists x. split; [apply elem_of_cons; right |]; assumption.
      * intros (x & Hx & Hne1 & Hne2). apply elem_of_cons in Hx.
        destruct Hx as [-> | Hx]; [contradiction |]. exists x. repeat split; assumption.
    + apply String.eqb_neq in Hp.
      destruct (String.eqb (Arn l) libLayer) eqn:Hl; cbn.
      * apply String.eqb_eq in Hl. rewrite IH. split.
        -- intros (x & Hx & Hne). exists x. split; [apply elem_of_cons; right |]; assumption.
        -- intros (x & Hx & Hne1 & Hne2). apply elem_of_cons in Hx.
           destruct Hx as [-> | Hx]; [contradiction |]. exists x. repeat split; assumption.
      * apply String.eqb_neq in Hl. split; [intros _ | reflexivity].
        exists l. split; [apply elem_of_cons; left; reflexivity | split; assumption].
Qed.

(** With no layer attached the loop body never runs. *)
Lemma newLayers_nil (preLayer libLayer : string) : newLayers [] preLayer libLayer = false.
Proof. reflexivity. Qed.

Section FunctionRuns.
Context {W : Type} (h : Services W).

(** In the update branch, [UpdateFunctionConfiguration] is issued exactly
    when [newLayers] is true, and then it is the first command. *)
Lemma CreateFunction_update_gate d app info key preLayer libLayer fnInfo w o w' t :
  run h (CreateFunction_update d app info key preLayer libLayer fnInfo) w = (o, w', t) ->
  (exists e, e ∈ t /\ is_UpdateFunctionConfiguration (ev_cmd e) = true) <->
  newLayers (Layers (Configuration fnInfo)) preLayer libLayer = true.
Proof.
  unfold CreateFunction_update.
  destruct (newLayers (Layers (Configuration fnInfo)) preLayer libLayer); cbn.
  - answer h.
    + answer h; [answer h |]; intros [= <- <- <-]; (split; [reflexivity |]); intros _;
        eexists; (split; [apply list_elem_of_here | reflexivity]).
    + intros [= <- <- <-]. split; [reflexivity |]. intros _.
      eexists. split; [apply list_elem_of_here | reflexivity].
  - answer h; [answer h |]; intros [= <- <- <-];
      (split; [| discriminate]); intros (x & Hx & Hc); in_trace; discriminate.
Qed.

(** In the update branch, when the commands succeed, the code is updated and
    a version is published, whether the configuration was updated or not. *)
Lemma CreateFunction_update_ok d app info key preLayer libLayer fnInfo w arn w' t :
  run h (CreateFunction_update d app info key preLayer libLayer fnInfo) w
    = (Done (arn, None), w', t) ->
  (exists e, e ∈ t /\ is_UpdateFunctionCode (ev_cmd e) = true) /\
  (exists e, e ∈ t /\ is_PublishVersion (ev_cmd e) = true).
Proof.
  unfold CreateFunction_update.
  destruct (newLayers (Layers (Configuration fnInfo)) preLayer libLayer); cbn.
  - answer h; [| discriminate].
    answer h; [| discriminate]. answer h; [| discriminate].
    intros [= <- <- <-]. split; eexists.
    + split; [apply list_elem_of_further, list_elem_of_here | reflexivity].
    + split; [apply list_elem_of_further, list_elem_of_further, list_elem_of_here
             | reflexivity].
  - answer h; [| discriminate]. answer h; [| discriminate].
    intros [= <- <- <-]. split; eexists.
    + split; [apply list_elem_of_here | reflexivity].
    + split; [apply list_elem_of_further, list_elem_of_here | reflexivity].
Qed.

End FunctionRuns.

(** C2.  A reconciliation on a platform where the function exists with no
    layer attached: both layers are published, the attached set (empty)
    differs from the pair of their references, and yet no
    [UpdateFunctionConfiguration] is issued; the code is updated and a
    version is published, and the function is left without layers. *)
Theorem CreateFunction_leaves_layers_unattached :
  let '(o, w, t) := run Sim.services
                      (CreateFunction Scenario.d0 Scenario.app0 Scenario.build1)
                      Scenario.deployedBare in
  o = Done ("arn:aws:lambda:function:shop:2", None)
  /\ filter (fun c => is_platform c = true) (map ev_cmd t) =
       [HashFile "pre.zip"; lambda_ListLayerVersions "shop-pre";
        s3_HeadObject {| ho_Bucket := "artifacts"; ho_Key := "shop-b1-shop-pre.zip" |};
        lambda_PublishLayerVersion
          {| plv_Description := "devflow app shop - b1"; plv_LayerName := "shop-pre";
             plv_CompatibleRuntimes := ["ruby2.5"]; plv_S3Bucket := "artifacts";
             plv_S3Key := "shop-b1-shop-pre.zip" |};
        HashFile "lib.zip"; lambda_ListLayerVersions "shop-lib";
        s3_HeadObject {| ho_Bucket := "artifacts"; ho_Key := "shop-b1-shop-lib.zip" |};
        lambda_PublishLayerVersion
          {| plv_Description := "devflow app shop - b1"; plv_LayerName := "shop-lib";
             plv_CompatibleRuntimes := ["ruby2.5"]; plv_S3Bucket := "artifacts";
             plv_S3Key := "shop-b1-shop-lib.zip" |};
        lambda_GetFunction "shop";
        lambda_UpdateFunctionCode
          {| ufk_FunctionName := "shop"; ufk_S3Bucket := "artifacts";
             ufk_S3Key := "shop-b1-app.zip" |};
        lambda_PublishVersion {| pv_CodeSha256 := Some "AQI="; pv_FunctionName := "shop" |}]
  /\ map (fun v => Sim.versionArn (Sim.v_name v) (Sim.v_number v)) (Sim.versions w) =
       ["arn:aws:lambda:layer:shop-lib:1"; "arn:aws:lambda:layer:shop-pre:1"]
  /\ (Layers <$> Sim.function w) = Some [].
Proof. vm_compute. repeat split. Qed.

Section ReconcileRuns.
Context {W : Type} (h : Services W).

(** A layer publish issues no command on the function. *)
Lemma CreateLayer_no_function_cmd d app info name path w o w' t :
  run h (CreateLayer d app info name path) w = (o, w', t) ->
  Forall (fun e => is_function_cmd (ev_cmd e) = false) t.
Proof.
  intros Hrun.
  assert (Hpub : forall w o w' t,
             run h (CreateLayer_publish d app info name path) w = (o, w', t) ->
             Forall (fun e => is_function_cmd (ev_cmd e) = false) t).
  { intros w0 o0 w0' t0 Hp.
    eapply Forall_impl; [exact (proj1 (CreateLayer_publish_cmds h _ _ _ _ _ _ _ _ _ Hp)) |].
    intros [c r]; destruct c; cbn; intros; (reflexivity || discriminate). }
  destruct (CreateLayer_cases h _ _ _ _ _ _ _ _ _ Hrun)
    as [(e0 & -> & _) | [(raw & e0 & w2 & t2 & -> & Hp)
                        | (raw & out & w1 & os & ws & ts & tp & -> & Hscan & Hos)]].
  - repeat constructor.
  - repeat (constructor; [reflexivity |]). exact (Hpub _ _ _ _ Hp).
  - repeat (constructor; [reflexivity |]). apply Forall_app. split.
    + eapply Forall_impl;
        [exact (proj1 (scanLayerVersions_run h _ _ _ _ _ _ _ Hscan)) |].
      intros [c r]; destruct c; cbn; intros; (reflexivity || discriminate).
    + destruct os as [[ret |] |]; [| | destruct Hos].
      * destruct Hos as (-> & _). constructor.
      * exact (Hpub _ _ _ _ Hos).
Qed.

(** After the upload: the pre layer, then the lib layer, then the function;
    a layer publish that returns an error ends the call. *)
Lemma CreateFunction_layers_cases d app info key w o w' t :
  run h (CreateFunction_layers d app info key) w = (o, w', t) ->
  exists o1 w1 t1,
    run h (CreatePreLayer d app info (PreZip info)) w = (o1, w1, t1) /\
    match o1 with
    | Done (preLayer, None) =>
        exists o2 w2 t2,
          run h (CreateLibraryLayer d app info (LibZip info)) w1 = (o2, w2, t2) /\
          match o2 with
          | Done (libLayer, None) => exists t3, t = (t1 ++ t2 ++ t3)%list
          | _ => t = (t1 ++ t2)%list
          end
    | _ => t = t1
    end.
Proof.
  unfold CreateFunction_layers. rewrite run_bind.
  destruct (run h (CreatePreLayer d app info (PreZip info)) w) as [[o1 w1] t1].
  intros Hrun. exists o1, w1, t1. split; [reflexivity |].
  destruct o1 as [[preLayer [err |]] |].
  - cbn in Hrun. injection Hrun as <- <- <-. apply app_nil_r.
  - rewrite run_bind in Hrun.
    destruct (run h (CreateLibraryLayer d app info (LibZip info)) w1) as [[o2 w2] t2].
    exists o2, w2, t2. split; [reflexivity |].
    destruct o2 as [[libLayer [err |]] |].
    + cbn in Hrun. injection Hrun as <- <- <-. rewrite app_nil_r. reflexivity.
    + match type of Hrun with
      | context [run h ?p w2] => destruct (run h p w2) as [[o4 w4] t4]
      end.
      injection Hrun as <- <- <-. exists t4. reflexivity.
    + injection Hrun as <- <- <-. reflexivity.
  - injection Hrun as <- <- <-. reflexivity.
Qed.

(** The package is uploaded as soon as its file is opened and measured. *)
Lemma CreateFunction_upload_unconditional d app info w o w' t f w1 sz w2 :
  run h (CreateFunction d app info) w = (o, w', t) ->
  h (os_Open (AppZip info)) w = (Ok f, w1) ->
  h (file_Stat f) w1 = (Ok sz, w2) ->
  take 3 (map ev_cmd t) = [os_Open (AppZip info); file_Stat f; packageUpload d app info f].
Proof.
  intros Hrun Hopen Hstat. revert Hrun. unfold CreateFunction. cbn.
  rewrite Hopen. cbn. rewrite Hstat. cbn.
  answer h.
  - destruct (run h (CreateFunction_layers d app info (appKey app info)) w0)
      as [[o2 w3] t2].
    intros [= <- <- <-]. reflexivity.
  - intros [= <- <- <-]. reflexivity.
Qed.

(** The shape of a run: three commands on the package, the third of which
    must succeed for anything else to follow. *)
Lemma CreateFunction_cases d app info w o w' t :
  run h (CreateFunction d app info) w = (o, w', t) ->
  (Forall (fun e => is_platform (ev_cmd e) = false) t /\ (length t <= 3)%nat)
  \/
  (exists f sz w3 t',
      t = Ev (os_Open (AppZip info)) (Ok f) :: Ev (file_Stat f) (Ok sz)
            :: Ev (packageUpload d app info f) (Ok tt) :: t' /\
      run h (CreateFunction_layers d app info (appKey app info)) w3 = (o, w', t')).
Proof.
  unfold CreateFunction. cbn.
  answer h; [| intros [= <- <- <-]; left; split; [repeat constructor | cbn; lia]].
  answer h; [| intros [= <- <- <-]; left; split; [repeat constructor | cbn; lia]].
  answer h; [| intros [= <- <- <-]; left; split; [repeat constructor | cbn; lia]].
  destruct (run h (CreateFunction_layers d app info (appKey app info)) w2)
    as [[o2 w3] t2] eqn:Hlayers.
  intros [= <- <- <-]. right. destruct r1.
  exists r, r0, w2, t2. split; [reflexivity | exact Hlayers].
Qed.

End ReconcileRuns.

(** C3, as amended.  In every reconciliation the application package is
    uploaded first and unconditionally: once its file is opened and measured
    the third command is the upload, with no existence check and no digest
    comparison; no command of a layer publish or on the function is issued
    before that upload has succeeded; and the commands on the function come
    after the pre layer and then the lib layer have each returned a
    reference. *)
Theorem CreateFunction_uploads_package_first :
  forall (W : Type) (h : Services W) d app info w o w' t,
    run h (CreateFunction d app info) w = (o, w', t) ->
    (forall f w1 sz w2,
        h (os_Open (AppZip info)) w = (Ok f, w1) ->
        h (file_Stat f) w1 = (Ok sz, w2) ->
        take 3 (map ev_cmd t)
        = [os_Open (AppZip info); file_Stat f; packageUpload d app info f])
    /\
    (forall (j : nat) c,
        map ev_cmd t !! j = Some c -> is_platform c = true ->
        (2 < j)%nat /\
        exists f, t !! 2%nat = Some (Ev (packageUpload d app info f) (Ok tt)))
    /\
    (forall e,
        e ∈ t -> is_function_cmd (ev_cmd e) = true ->
        exists t0 t1 t2 t3 w1 w2 w3 preLayer libLayer,
          t = (t0 ++ t1 ++ t2 ++ t3)%list /\ length t0 = 3%nat /\
          run h (CreatePreLayer d app info (PreZip info)) w1
            = (Done (preLayer, None), w2, t1) /\
          run h (CreateLibraryLayer d app info (LibZip info)) w2
            = (Done (libLayer, None), w3, t2) /\
          e ∈ t3 /\
          Forall (fun e => is_function_cmd (ev_cmd e) = false) (t0 ++ t1 ++ t2)%list).
Proof.
  intros W h d app info w o w' t Hrun.
  split; [| split].
  - intros f w1 sz w2 Hopen Hstat.
    exact (CreateFunction_upload_unconditional h _ _ _ _ _ _ _ _ _ _ _ Hrun Hopen Hstat).
  - intros j c Hj Hc.
    destruct (CreateFunction_cases h _ _ _ _ _ _ _ Hrun)
      as [[Hnone _] | (f & sz & w3 & t' & -> & _)].
    + exfalso. change (map ev_cmd t) with (ev_cmd <$> t) in Hj.
      apply list_lookup_fmap_Some_1 in Hj. destruct Hj as (e & -> & He).
      rewrite Forall_forall in Hnone.
      apply list_elem_of_lookup_2, Hnone in He. congruence.
    + destruct j as [| [| [| j]]]; cbn in Hj.
      * injection Hj as <-. discriminate.
      * injection Hj as <-. discriminate.
      * injection Hj as <-. discriminate.
      * split; [lia |]. exists f. reflexivity.
  - intros e He Hfn.
    destruct (CreateFunction_cases h _ _ _ _ _ _ _ Hrun)
      as [[Hnone _] | (f & sz & w3 & t' & -> & Hlayers)].
    + exfalso. rewrite Forall_forall in Hnone. apply Hnone in He.
      destruct e as [c r]; destruct c; discriminate.
    + in_trace; try discriminate.
      destruct (CreateFunction_layers_cases h _ _ _ _ _ _ _ _ Hlayers)
        as (o1 & w1 & t1 & Hpre & Ho1).
      pose proof (CreateLayer_no_function_cmd h _ _ _ _ _ _ _ _ _ Hpre) as Hn1.
      assert (Hout : forall l, Forall (fun e => is_function_cmd (ev_cmd e) = false) l ->
                               e ∈ l -> False).
      { intros l Hl Hin. rewrite Forall_forall in Hl. apply Hl in Hin. congruence. }
      destruct o1 as [[preLayer [err |]] |];
        [subst t'; destruct (Hout _ Hn1 He) | | subst t'; destruct (Hout _ Hn1 He)].
      destruct Ho1 as (o2 & w2 & t2 & Hlib & Ho2).
      pose proof (CreateLayer_no_function_cmd h _ _ _ _ _ _ _ _ _ Hlib) as Hn2.
      assert (Hn12 : Forall (fun e => is_function_cmd (ev_cmd e) = false) (t1 ++ t2)).
      { apply Forall_app. split; assumption. }
      destruct o2 as [[libLayer [err |]] |];
        [subst t'; destruct (Hout _ Hn12 He) | | subst t'; destruct (Hout _ Hn12 He)].
      destruct Ho2 as (t3 & ->).
      exists [Ev (os_Open (AppZip info)) (Ok f); Ev (file_Stat f) (Ok sz);
              Ev (packageUpload d app info f) (Ok tt)],
             t1, t2, t3, w3, w1, w2, preLayer, libLayer.
      split; [reflexivity |]. split; [reflexivity |].
      split; [exact Hpre |]. split; [exact Hlib |]. split.
      * apply elem_of_app in He. destruct He as [He | He]; [destruct (Hout _ Hn1 He) |].
        apply elem_of_app in He. destruct He as [He | He]; [destruct (Hout _ Hn2 He) |].
        exact He.
      * repeat (constructor; [reflexivity |]). exact Hn12.
Qed.

(** [CreateFunction_uploads_package_first] on the first deployment to the
    simulated platform. *)
Lemma CreateFunction_uploads_package_first_witness :
  let r := run Sim.services
             (CreateFunction Scenario.d0 Scenario.app0 Scenario.build1) Scenario.fresh in
  let e := Ev (lambda_GetFunction "shop") (Sim.notFound) in
  take 3 (map ev_cmd (snd r))
  = [os_Open "app.zip"; file_Stat {| f_path := "app.zip" |};
     packageUpload Scenario.d0 Scenario.app0 Scenario.build1 {| f_path := "app.zip" |}]
  /\
  ((2 < 3)%nat /\
   exists f, snd r !! 2%nat
             = Some (Ev (packageUpload Scenario.d0 Scenario.app0 Scenario.build1 f) (Ok tt)))
  /\
  (exists t0 t1 t2 t3 w1 w2 w3 preLayer libLayer,
      snd r = (t0 ++ t1 ++ t2 ++ t3)%list /\ length t0 = 3%nat /\
      run Sim.services
          (CreatePreLayer Scenario.d0 Scenario.app0 Scenario.build1 "pre.zip") w1
        = (Done (preLayer, None), w2, t1) /\
      run Sim.services
          (CreateLibraryLayer Scenario.d0 Scenario.app0 Scenario.build1 "lib.zip") w2
        = (Done (libLayer, None), w3, t2) /\
      e ∈ t3 /\
      Forall (fun e => is_function_cmd (ev_cmd e) = false) (t0 ++ t1 ++ t2)%list).
Proof.
  intros r e.
  destruct (CreateFunction_uploads_package_first Sim.World Sim.services
              Scenario.d0 Scenario.app0 Scenario.build1 Scenario.fresh
              (fst (fst r)) (snd (fst r)) (snd r))
    as (Hfirst & Hafter & Hfn).
  - vm_compute. reflexivity.
  - split; [| split].
    + apply (Hfirst {| f_path := "app.zip" |} Scenario.fresh 2 Scenario.fresh).
      * vm_compute. reflexivity.
      * vm_compute. reflexivity.
    + apply (Hafter 3%nat (HashFile "pre.zip")).
      * vm_compute. reflexivity.
      * reflexivity.
    + apply (Hfn e).
      * vm_compute. repeat first [apply list_elem_of_here | apply list_elem_of_further].
      * reflexivity.
Defined.

(** C3, as stated, fails on the first deployment to the simulated platform:
    the package upload is the third command of the run and the digest of the
    pre layer, the first command of its publish, is the fourth. *)
Lemma CreateFunction_package_before_layers :
  ~ layers_before_package Scenario.d0 Scenario.app0 Scenario.build1
      (map ev_cmd
           (snd (run Sim.services
                     (CreateFunction Scenario.d0 Scenario.app0 Scenario.build1)
                     Scenario.fresh))).
Proof.
  intros Hclaim.
  assert (Hlt : (3 < 2)%nat).
  { apply (Hclaim 2%nat 3%nat {| f_path := "app.zip" |} (HashFile "pre.zip")).
    - vm_compute. reflexivity.
    - vm_compute. reflexivity.
    - reflexivity. }
  lia.
Qed.

(** ** Logs *)

(** *** The translation of one event *)

(** The event time stands for the raw epoch-millisecond timestamp, for a
    timestamp before the epoch too. *)
Lemma toLogEvent_time (ms : Z) :
  let ts := time_Unix (Z.quot ms 1000) (Z.rem ms 1000 * 1000000) in
  UnixMilli ts = ms /\ 0 <= t_nsec ts < 1000000000.
Proof.
  pose proof (Z.quot_rem' ms 1000) as Hqr.
  assert (Hr : -1000 < Z.rem ms 1000 < 1000).
  { pose proof (Z.rem_bound_abs ms 1000 ltac:(lia)). lia. }
  set (q := Z.quot ms 1000) in *. set (r := Z.rem ms 1000) in *.
  assert (Hn : Z.quot (r * 1000000) 1000000000 = 0).
  { apply Z.quot_small_iff; lia. }
  cbv zeta. unfold time_Unix, UnixMilli.
  destruct (r * 1000000 <? 0) eqn:Hneg; cbn [orb].
  - apply Z.ltb_lt in Hneg. rewrite Hn.
    replace (r * 1000000 - 0 * 1000000000) with (r * 1000000) by lia.
    rewrite (proj2 (Z.ltb_lt _ _) Hneg). cbn [t_sec t_nsec].
    replace (r * 1000000 + 1000000000) with ((r + 1000) * 1000000) by lia.
    rewrite Z.div_mul by lia. lia.
  - apply Z.ltb_ge in Hneg.
    destruct (r * 1000000 >=? 1000000000) eqn:Hbig; [lia |].
    cbn [t_sec t_nsec]. rewrite Z.div_mul by lia. lia.
Qed.

(** For a raw timestamp that is an [int64], every intermediate value of the
    conversion, in [NextLogBatch] and inside [time.Unix], is an [int64] too:
    the arithmetic of the code never wraps. *)
Lemma toLogEvent_time_no_overflow (ms : Z) :
  int64_range ms ->
  let sec := Z.quot ms 1000 in
  let nsec := Z.rem ms 1000 * 1000000 in
  let n := Z.quot nsec 1000000000 in
  int64_range sec /\ int64_range (Z.rem ms 1000) /\ int64_range nsec /\
  int64_range n /\ int64_range (sec + n) /\ int64_range (n * 1000000000) /\
  int64_range (nsec - n * 1000000000) /\
  int64_range (nsec - n * 1000000000 + 1000000000) /\
  int64_range (sec + n - 1).
Proof.
  unfold int64_range. intros Hms.
  pose proof (Z.quot_rem' ms 1000) as Hqr.
  pose proof (Z.rem_bound_abs ms 1000 ltac:(lia)) as Hr.
  assert (Hn : Z.quot (Z.rem ms 1000 * 1000000) 1000000000 = 0).
  { apply Z.quot_small_iff; lia. }
  cbv zeta. rewrite Hn. lia.
Qed.

(** [strings.TrimRight] cuts a suffix of cutset characters and leaves a
    string that does not end in one. *)
Lemma TrimRight_trimmed (s cutset : string) : trimmed_of cutset s (TrimRight s cutset).
Proof.
  unfold trimmed_of. induction s as [| x s IH].
  - exists EmptyString. repeat split. intros c Hc. discriminate.
  - destruct IH as (suffix & Heq & Hall & Hlast).
    change (TrimRight (String x s) cutset) with
      (match TrimRight s cutset with
       | EmptyString => if in_cutset x cutset then EmptyString else String x EmptyString
       | String c' rest' => String x (String c' rest')
       end).
    destruct (TrimRight s cutset) as [| y rest] eqn:Htrim.
    + change (EmptyString +:+ suffix) with suffix in Heq. subst suffix.
      destruct (in_cutset x cutset) eqn:Hx.
      * exists (String x s). split; [reflexivity |]. split.
        -- change (all_in_cutset (String x s) cutset)
             with (in_cutset x cutset && all_in_cutset s cutset).
           rewrite Hx, Hall. reflexivity.
        -- intros c Hc. discriminate.
      * exists s. split; [reflexivity |]. split; [exact Hall |].
        intros c Hc. cbn in Hc. injection Hc as <-. exact Hx.
    + exists suffix. split; [| split; [exact Hall |]].
      * rewrite Heq. reflexivity.
      * intros c Hc. apply Hlast.
        change (last_char (String x (String y rest)))
          with (match last_char (String y rest) with
                | Some z => Some z | None => Some x end) in Hc.
        destruct (last_char (String y rest)) as [z |] eqn:Hz; [exact Hc |].
        cbn in Hz. destruct (last_char rest); discriminate.
Qed.

(** What [toLogEvent] makes of a raw event. *)
Lemma toLogEvent_translated (s : LogStream) (raw : OutputLogEvent) :
  translated (LogStreamName s) raw (toLogEvent s raw).
Proof.
  unfold translated, toLogEvent. cbn [Partition Timestamp Message].
  split; [reflexivity |].
  destruct (toLogEvent_time (ole_Timestamp raw)) as [Hms Hns].
  split; [exact Hms |]. split; [exact Hns |].
  apply TrimRight_trimmed.
Qed.

Lemma toLogEvent_all (s : LogStream) (raws : list OutputLogEvent) :
  Forall2 (translated (LogStreamName s)) raws (map (toLogEvent s) raws).
Proof.
  induction raws as [| raw raws IH]; cbn; constructor.
  - apply toLogEvent_translated.
  - exact IH.
Qed.

(** *** One call *)

Section LogRuns.
Context {W : Type} (h : Services W).

Lemma fetchFrom_run grp rest :
  forall s tok w o w' t,
    run h (fetchFrom grp rest s tok) w = (o, w', t) ->
    exists c' evs err,
      o = Done (c', (evs, err)) /\ group c' = grp /\
      batch_outcome grp (s :: rest) t c' evs err.
Proof.
  induction rest as [| s' rest' IH]; intros s tok w o w' t; cbn.
  - answer h.
    + destruct (length (Events r) =? 0)%nat eqn:Hlen; cbn.
      * intros [= <- <- <-]. eexists _, _, _. split; [reflexivity |].
        split; [reflexivity |]. left. cbn.
        repeat split. constructor; [| constructor].
        unfold is_empty_page. cbn. exact Hlen.
      * intros [= <- <- <-]. eexists _, _, _. split; [reflexivity |].
        split; [reflexivity |]. right.
        exists [], s, [], (Ev (logs_GetLogEvents (getLogEventsInput grp s tok)) (Ok r)), tok.
        cbn. repeat split; [constructor |]. left. exists r. repeat split.
        intros Hnil. rewrite Hnil in Hlen. discriminate.
    + intros [= <- <- <-]. eexists _, _, _. split; [reflexivity |].
      split; [reflexivity |]. right.
      exists [], s, [], (Ev (logs_GetLogEvents (getLogEventsInput grp s tok)) (Err e)), tok.
      cbn. repeat split; [constructor |]. right. exists e. repeat split.
  - answer h.
    + destruct (length (Events r) =? 0)%nat eqn:Hlen; cbn.
      * destruct (run h (fetchFrom grp rest' s' None) w0) as [[o1 w1] t1] eqn:Hrest.
        intros [= <- <- <-].
        destruct (IH _ _ _ _ _ _ Hrest) as (c' & evs & err & -> & Hgrp & Hout).
        exists c', evs, err. split; [reflexivity |]. split; [exact Hgrp |].
        assert (Hempty : is_empty_page
                           (Ev (logs_GetLogEvents (getLogEventsInput grp s tok)) (Ok r))
                         = true).
        { unfold is_empty_page. cbn. exact Hlen. }
        destruct Hout as [(Hs & Hss & -> & -> & Hlt & Hall)
                         | (skipped & a & ts & e & tok' & Hparts & Hs & -> & Hlt & Hall
                            & Hcmd & Hend)].
        -- left. repeat split; try assumption.
           ++ cbn. rewrite Hlt. reflexivity.
           ++ constructor; assumption.
        -- right. exists (s :: skipped), a,
             (Ev (logs_GetLogEvents (getLogEventsInput grp s tok)) (Ok r) :: ts), e, tok'.
           split; [cbn; rewrite Hparts; reflexivity |]. split; [exact Hs |].
           split; [reflexivity |]. split; [cbn; rewrite Hlt; reflexivity |].
           split; [constructor; assumption |]. split; assumption.
      * intros [= <- <- <-]. eexists _, _, _. split; [reflexivity |].
        split; [reflexivity |]. right.
        exists [], s, [], (Ev (logs_GetLogEvents (getLogEventsInput grp s tok)) (Ok r)), tok.
        cbn. repeat split; [constructor |]. left. exists r. repeat split.
        intros Hnil. rewrite Hnil in Hlen. discriminate.
    + intros [= <- <- <-]. eexists _, _, _. split; [reflexivity |].
      split; [reflexivity |]. right.
      exists [], s, [], (Ev (logs_GetLogEvents (getLogEventsInput grp s tok)) (Err e)), tok.
      cbn. repeat split; [constructor |]. right. exists e. repeat split.
Qed.

(** Every [NextLogBatch] call returns (it neither panics nor loops), and it
    ends in one of the two ways of [batch_outcome]. *)
Lemma NextLogBatch_run c w o w' t :
  run h (NextLogBatch c) w = (o, w', t) ->
  exists c' evs err,
    o = Done (c', (evs, err)) /\ group c' = group c /\
    batch_outcome (group c) (pending c) t c' evs err.
Proof.
  unfold NextLogBatch, pending. destruct (stream c) as [s |] eqn:Hs.
  - apply fetchFrom_run.
  - destruct (streams c) as [| s rest] eqn:Hss.
    + cbn. intros [= <- <- <-]. exists c, [], None.
      split; [reflexivity |]. split; [reflexivity |]. left.
      repeat split; try assumption. constructor.
    + apply fetchFrom_run.
Qed.

End LogRuns.

(** *** Sequences of calls *)

Section LogSequences.
Context {W : Type} (h : Services W).

Lemma follows_app_same p parts k ps :
  follows (p :: parts) ps -> follows (p :: parts) (repeat p k ++ ps)%list.
Proof. intros H. induction k as [| k IH]; cbn; [exact H | apply follows_same, IH]. Qed.

Lemma follows_skip_all skipped parts ps :
  follows parts ps -> follows (skipped ++ parts)%list ps.
Proof.
  intros H. induction skipped as [| p skipped IH]; cbn; [exact H | apply follows_skip, IH].
Qed.

Lemma map_Partition_toLogEvent a raws :
  map Partition (map (toLogEvent a) raws) = repeat (LogStreamName a) (length raws).
Proof. induction raws as [| raw raws IH]; cbn; [reflexivity | rewrite IH; reflexivity]. Qed.

(** The events of one call belong to the partition at the head of what is
    pending after the call, and the partitions dropped by the call come
    before it. *)
Lemma batch_outcome_follows grp parts t c' evs err ps :
  batch_outcome grp parts t c' evs err ->
  follows (map LogStreamName (pending c')) ps ->
  follows (map LogStreamName parts) (map Partition evs ++ ps)%list.
Proof.
  intros [(Hs & Hss & -> & -> & _ & _)
         | (skipped & a & ts & e & tok & -> & Hs & -> & _ & _ & _ & Hend)] Hps.
  - unfold pending in Hps. rewrite Hs, Hss in Hps. cbn in *.
    inversion Hps; subst. apply follows_nil.
  - unfold pending in Hps. rewrite Hs in Hps. cbn in Hps.
    rewrite map_app. apply follows_skip_all. cbn.
    destruct Hend as [(out & _ & _ & -> & _) | (e0 & _ & -> & _)].
    + rewrite map_Partition_toLogEvent. apply follows_app_same. exact Hps.
    + exact Hps.
Qed.

Lemma NextLogBatch_times_follows n :
  forall c w,
  exists c' evs,
    fst (fst (run h (NextLogBatch_times n c) w)) = Done (c', evs) /\
    follows (map LogStreamName (pending c)) (map Partition evs).
Proof.
  induction n as [| n IH]; intros c w.
  - cbn. exists c, []. split; [reflexivity | apply follows_nil].
  - change (NextLogBatch_times (S n) c)
      with (bind (NextLogBatch c)
                 (fun r => bind (NextLogBatch_times n (fst r))
                                (fun rest => Ret (fst rest, (fst (snd r) ++ snd rest)%list)))).
    rewrite run_bind.
    destruct (run h (NextLogBatch c) w) as [[o w1] t1] eqn:Hcall.
    destruct (NextLogBatch_run h _ _ _ _ _ Hcall) as (c1 & evs1 & err1 & -> & _ & Hout).
    rewrite run_bind. cbn [fst snd].
    destruct (IH c1 w1) as (c' & evs & Hrest & Hfollows).
    destruct (run h (NextLogBatch_times n c1) w1) as [[o2 w2] t2].
    cbn in Hrest. subst o2. cbn.
    exists c', (evs1 ++ evs)%list. split; [reflexivity |].
    rewrite map_app. eapply batch_outcome_follows; [exact Hout |].
    (* what is pending after the first call is what the later calls start from *)
    exact Hfollows.
Qed.


(** The end of the sequence is returned exactly when no partition is left. *)
Lemma batch_outcome_end grp parts t c' evs err :
  batch_outcome grp parts t c' evs err ->
  (evs = [] /\ err = None) <-> (stream c' = None /\ streams c' = []).
Proof.
  intros [(Hs & Hss & -> & -> & _)
         | (skipped & a & ts & e & tok & _ & Hs & _ & _ & _ & _ & Hend)].
  - split; intros _; split; (reflexivity || assumption).
  - split.
    + intros [-> ->].
      destruct Hend as [(out & _ & Hne & Hmap & _) | (e0 & _ & _ & He0)]; [| discriminate].
      destruct (Events out); [contradiction | discriminate].
    + intros [Hnone _]. congruence.
Qed.

End LogSequences.



(** [Logs] asks for the streams by last event time, ascending, and hands
    them to the viewer in the order given, none being active. *)
Lemma Logs_viewer {W : Type} (h : Services W) d app w :
  exists r w1,
    run h (Logs d app) w =
    (Done (match r with
           | Ok out => (Some {| group := logGroupName app; lastToken := None;
                                stream := None; streams := LogStreams out |}, None)
           | Err err => (None, Some err)
           end), w1,
     [Ev (logs_DescribeLogStreams {| dls_LogGroupName := logGroupName app;
                                     dls_Descending := false;
                                     dls_OrderBy := "LastEventTime" |}) r]).
Proof.
  unfold Logs. cbn.
  destruct (h _ w) as [[out | err] w1].
  - exists (Ok out), w1. reflexivity.
  - exists (Err err), w1. reflexivity.
Qed.


(** C8, as amended.  The events a [NextLogBatch] call returns are the raw
    events of the page that answered its last request, in their order, each
    with the name of the partition the call leaves active as its partition
    identifier, an event time that stands for the raw epoch-millisecond
    timestamp, and the raw message without its trailing line feeds and
    tabs. *)
Theorem NextLogBatch_translates :
  forall (W : Type) (h : Services W) c w c' evs err w' t,
    run h (NextLogBatch c) w = (Done (c', (evs, err)), w', t) ->
    evs <> [] ->
    exists a e out,
      stream c' = Some a /\ last t = Some e /\ ev_page e = Some out /\
      Forall2 (translated (LogStreamName a)) (Events out) evs.
Proof.
  intros W h c w c' evs err w' t Hrun Hne.
  destruct (NextLogBatch_run h _ _ _ _ _ Hrun) as (c1 & evs1 & err1 & Heq & _ & Hout).
  injection Heq as <- <- <-.
  destruct Hout as [(_ & _ & -> & _)
                   | (skipped & a & ts & e & tok & _ & Hs & -> & _ & _ & _ & Hend)].
  - contradiction.
  - destruct Hend as [(out & Hpage & _ & -> & _) | (e0 & _ & -> & _)]; [| contradiction].
    exists a, e, out. split; [exact Hs |]. split; [apply last_snoc |].
    split; [exact Hpage |]. apply toLogEvent_all.
Qed.

(** C9.  Once a call has returned the end of the sequence, the viewer has no
    active and no remaining partition, and every later call, alone or in a
    row, returns the end of the sequence again, leaves the viewer and the
    platform as they are, and issues no request. *)
Theorem NextLogBatch_exhaustion_is_permanent :
  forall (W : Type) (h : Services W) c w c' w' t,
    run h (NextLogBatch c) w = (Done (c', ([], None)), w', t) ->
    stream c' = None /\ streams c' = [] /\
    (forall w2, run h (NextLogBatch c') w2 = (Done (c', ([], None)), w2, [])) /\
    (forall n w2, run h (NextLogBatch_times n c') w2 = (Done (c', []), w2, [])).
Proof.
  intros W h c w c' w' t Hrun.
  destruct (NextLogBatch_run h _ _ _ _ _ Hrun) as (c1 & evs1 & err1 & Heq & _ & Hout).
  injection Heq as <- <- <-.
  apply batch_outcome_end in Hout. destruct (proj1 Hout) as [Hs Hss]; [split; reflexivity |].
  assert (Hagain : forall w2, run h (NextLogBatch c') w2 = (Done (c', ([], None)), w2, [])).
  { intros w2. unfold NextLogBatch. rewrite Hs, Hss. reflexivity. }
  split; [exact Hs |]. split; [exact Hss |]. split; [exact Hagain |].
  induction n as [| n IH]; intros w2; [reflexivity |].
  change (NextLogBatch_times (S n) c')
    with (bind (NextLogBatch c')
               (fun r => bind (NextLogBatch_times n (fst r))
                              (fun rest => Ret (fst rest, (fst (snd r) ++ snd rest)%list)))).
  rewrite run_bind, Hagain. cbn [fst snd]. rewrite run_bind, IH. reflexivity.
Qed.


(** [NextLogBatch_translates] on the simulated platform: the call that skips
    the empty stream and returns the page of the third one. *)
Lemma NextLogBatch_translates_witness :
  exists a e out,
    stream Scenario.active3 = Some a /\
    last (snd (run Sim.services (NextLogBatch Scenario.viewer23) Scenario.logging))
      = Some e /\
    ev_page e = Some out /\
    Forall2 (translated (LogStreamName a)) (Events out)
      [{| Partition := "2020/01/03/[1]ccc";
          Timestamp := {| t_sec := 1578009600; t_nsec := 1000000 |};
          Message := "boom " |}].
Proof.
  apply (NextLogBatch_translates Sim.World Sim.services
           Scenario.viewer23 Scenario.logging Scenario.active3
           [{| Partition := "2020/01/03/[1]ccc";
               Timestamp := {| t_sec := 1578009600; t_nsec := 1000000 |};
               Message := "boom " |}]
           None Scenario.logging).
  - vm_compute. reflexivity.
  - discriminate.
Defined.

(** C8, as stated, fails on that call: the raw message ends in a space and a
    line feed, and the returned message still ends in the space. *)
Lemma NextLogBatch_keeps_trailing_space :
  ~ messages_fully_trimmed
      (Events (Scenario.pages (LogStreamName Scenario.s3) None))
      (Scenario.returned
         (run Sim.services (NextLogBatch Scenario.viewer23) Scenario.logging)).
Proof.
  intros Hclaim.
  assert (Hmsg : "boom " = TrimRight ("boom " +:+ Scenario.lf) whitespace).
  { vm_compute in Hclaim. inversion Hclaim as [| raw ev raws evs Hhead Htail]; subst.
    vm_compute. exact Hhead. }
  vm_compute in Hmsg. discriminate.
Qed.

(** [NextLogBatch_exhaustion_is_permanent] on the simulated platform: the
    viewer whose only stream is empty. *)
Lemma NextLogBatch_exhaustion_is_permanent_witness :
  stream Scenario.exhausted = None /\ streams Scenario.exhausted = [] /\
  (forall w2, run Sim.services (NextLogBatch Scenario.exhausted) w2
              = (Done (Scenario.exhausted, ([], None)), w2, [])) /\
  (forall n w2, run Sim.services (NextLogBatch_times n Scenario.exhausted) w2
                = (Done (Scenario.exhausted, []), w2, [])).
Proof.
  apply (NextLogBatch_exhaustion_is_permanent Sim.World Sim.services
           Scenario.viewer2 Scenario.logging Scenario.exhausted Scenario.logging
           (snd (run Sim.services (NextLogBatch Scenario.viewer2) Scenario.logging))).
  vm_compute. reflexivity.
Defined.

(** *** The loop, turn by turn *)

Section LoopRuns.
Context {W : Type} (h : Services W).

Lemma fetchFrom_unfold grp rest s tok :
  fetchFrom grp rest s tok =
  (let* output := call (logs_GetLogEvents (getLogEventsInput grp s tok)) in
   match output with
   | Err err =>
       Ret ({| group := grp; lastToken := tok; stream := Some s; streams := rest |},
            ([], Some err))
   | Ok output =>
       if negb (Nat.eqb (length (Events output)) 0) then
         Ret ({| group := grp; lastToken := NextForwardToken output;
                 stream := Some s; streams := rest |},
              (map (toLogEvent s) (Events output), None))
       else
         NextLogBatch {| group := grp; lastToken := tok; stream := None; streams := rest |}
   end).
Proof. destruct rest; reflexivity. Qed.

Lemma NextLogBatch_loop_idle grp rest :
  forall tok fuel w,
    (length rest < fuel)%nat ->
    run h (NextLogBatch_loop fuel {| group := grp; lastToken := tok;
                                     stream := None; streams := rest |}) w
    = as_loop_run (run h (NextLogBatch {| group := grp; lastToken := tok;
                                          stream := None; streams := rest |}) w).
Proof.
  induction rest as [| s rest IH]; intros tok fuel w Hfuel;
    (destruct fuel as [| fuel]; [cbn in Hfuel; lia |]).
  - reflexivity.
  - cbn in Hfuel. unfold NextLogBatch at 1. cbn [stream streams group lastToken].
    rewrite fetchFrom_unfold.
    cbn [NextLogBatch_loop]. unfold NextLogBatch_turn, NextLogBatch_fetch.
    cbn [stream streams group lastToken]. cbn -[NextLogBatch NextLogBatch_loop].
    destruct (h (logs_GetLogEvents (getLogEventsInput grp s None)) w)
      as [[out | err] w1]; cbn -[NextLogBatch NextLogBatch_loop]; [| reflexivity].
    destruct (length (Events out) =? 0)%nat; cbn -[NextLogBatch NextLogBatch_loop].
    + rewrite (IH None fuel w1) by lia.
      destruct (run h (NextLogBatch {| group := grp; lastToken := None; stream := None;
                                       streams := rest |}) w1) as [[o w2] t].
      reflexivity.
    + reflexivity.
Qed.

(** The loop of [NextLogBatch] reaches a [return] within
    [length (streams c) + 2] turns, and what it returns is what
    [NextLogBatch] gives. *)
Lemma NextLogBatch_loop_total c fuel w :
  (length (streams c) + 2 <= fuel)%nat ->
  run h (NextLogBatch_loop fuel c) w = as_loop_run (run h (NextLogBatch c) w).
Proof.
  destruct c as [grp tok [s |] rest]; cbn [streams]; intros Hfuel.
  - destruct fuel as [| fuel]; [lia |].
    unfold NextLogBatch at 1. cbn [stream streams group lastToken].
    rewrite fetchFrom_unfold.
    cbn [NextLogBatch_loop]. unfold NextLogBatch_turn, NextLogBatch_fetch.
    cbn [stream streams group lastToken]. cbn -[NextLogBatch NextLogBatch_loop].
    destruct (h (logs_GetLogEvents (getLogEventsInput grp s tok)) w)
      as [[out | err] w1]; cbn -[NextLogBatch NextLogBatch_loop]; [| reflexivity].
    destruct (length (Events out) =? 0)%nat; cbn -[NextLogBatch NextLogBatch_loop];
      [| reflexivity].
    rewrite (NextLogBatch_loop_idle grp rest tok fuel w1) by lia.
    destruct (run h (NextLogBatch {| group := grp; lastToken := tok; stream := None;
                                     streams := rest |}) w1) as [[o w2] t].
    reflexivity.
  - apply NextLogBatch_loop_idle. lia.
Qed.

End LoopRuns.

(** ** The names of the component types *)

Lemma append_cons (x : ascii) (a c : string) : String x a +:+ c = String x (a +:+ c).
Proof. reflexivity. Qed.

Lemma append_nil_l (c : string) : EmptyString +:+ c = c.
Proof. reflexivity. Qed.

Lemma append_length (a c : string) :
  String.length (a +:+ c) = (String.length a + String.length c)%nat.
Proof.
  induction a as [| x a IH]; [reflexivity |].
  rewrite append_cons. cbn [String.length]. rewrite IH. reflexivity.
Qed.

Lemma append_inv_tail (a b c : string) : a +:+ c = b +:+ c -> a = b.
Proof.
  revert b. induction a as [| x a IH]; intros [| y b] H.
  - reflexivity.
  - apply (f_equal String.length) in H. rewrite append_nil_l, append_length in H.
    cbn [String.length] in H. lia.
  - apply (f_equal String.length) in H. rewrite append_nil_l, append_length in H.
    cbn [String.length] in H. lia.
  - rewrite !append_cons in H. injection H as -> H. f_equal. apply IH, H.
Qed.

Lemma int64_inj (i j : N) :
  (i < 18446744073709551616)%N -> (j < 18446744073709551616)%N ->
  int64 i = int64 j -> i = j.
Proof.
  unfold int64. intros Hi Hj H.
  apply N2Z.inj. Z.div_mod_to_equations. lia.
Qed.

Lemma Type_String_declared (i : N) :
  (i < 7)%N ->
  i = 0%N \/ i = 1%N \/ i = 2%N \/ i = 3%N \/ i = 4%N \/ i = 5%N \/ i = 6%N.
Proof. lia. Qed.

Lemma Type_String_other (i : N) :
  (7 <= i)%N -> Type_String i = Done ("Type(" +:+ FormatInt10 (int64 i) +:+ ")").
Proof.
  intros Hi. unfold Type_String.
  change (N.of_nat (length _Type_index) - 1)%N with 7%N.
  rewrite (proj2 (N.leb_le 7 i) Hi). reflexivity.
Qed.

(** X1.  [String] never panics: for the seven declared types the two table
    lookups and the slice are in range and give the declared name, and for
    every other value the result is ["Type(n)"], with [n] the value read as
    an int64. *)
Theorem Type_String_names :
  forall i : N,
    exists s,
      Type_String i = Done s /\
      ((i < 7)%N ->
       ["Invalid"; "Builder"; "Registry"; "Platform"; "LogPlatform"; "LogViewer";
        "maxType"] !! N.to_nat i = Some s) /\
      ((7 <= i)%N -> s = "Type(" +:+ FormatInt10 (int64 i) +:+ ")").
Proof.
  intros i. destruct (N.lt_ge_cases i 7) as [Hlt | Hge].
  - destruct (Type_String_declared i Hlt) as [-> | [-> | [-> | [-> | [-> | [-> | ->]]]]]];
      eexists; (split; [vm_compute; reflexivity |]); (split; [reflexivity | lia]).
  - exists ("Type(" +:+ FormatInt10 (int64 i) +:+ ")").
    split; [apply Type_String_other, Hge |]. split; [lia | reflexivity].
Qed.

(** X2.  [String] tells the types apart: two values of at most 64 bits with
    the same string are the same value. *)
Theorem Type_String_injective :
  forall i j : N,
    (i < 18446744073709551616)%N -> (j < 18446744073709551616)%N ->
    Type_String i = Type_String j -> i = j.
Proof.
  intros i j Hi Hj H.
  destruct (N.lt_ge_cases i 7) as [Hilt | Hige];
    destruct (N.lt_ge_cases j 7) as [Hjlt | Hjge].
  - destruct (Type_String_declared i Hilt) as [-> | [-> | [-> | [-> | [-> | [-> | ->]]]]]];
      destruct (Type_String_declared j Hjlt) as [-> | [-> | [-> | [-> | [-> | [-> | ->]]]]]];
      (reflexivity || (vm_compute in H; discriminate)).
  - exfalso. rewrite (Type_String_other j Hjge) in H.
    destruct (Type_String_declared i Hilt) as [-> | [-> | [-> | [-> | [-> | [-> | ->]]]]]];
      injection H as H; vm_compute in H; discriminate.
  - exfalso. rewrite (Type_String_other i Hige) in H.
    destruct (Type_String_declared j Hjlt) as [-> | [-> | [-> | [-> | [-> | [-> | ->]]]]]];
      injection H as H; vm_compute in H; discriminate.
  - rewrite (Type_String_other i Hige), (Type_String_other j Hjge) in H.
    injection H as H. apply String.app_inj in H. apply append_inv_tail in H.
    apply pretty_Z_inj in H. exact (int64_inj i j Hi Hj H).
Qed.

Lemma Type_String_injective_witness :
  (18446744073709551615 < 18446744073709551616)%N /\
  Type_String 18446744073709551615 = Type_String (18446744073709551616 - 1) /\
  18446744073709551615%N = (18446744073709551616 - 1)%N.
Proof.
  split; [reflexivity |]. split; [reflexivity |].
  apply (Type_String_injective 18446744073709551615 (18446744073709551616 - 1));
    reflexivity.
Defined.

(** ** The execution role *)

Ltac answer_role h :=
  match goal with
  | |- context [h ?c ?w] =>
      let r := fresh "r" in
      let e := fresh "e" in
      let w' := fresh "w" in
      destruct (h c w) as [[r | e] w'] eqn:?; cbn
  end.

Section RoleRuns.
Context {W : Type} (h : RoleServices W).

Lemma run_role_bind {A B : Type} (p : RoleProg A) (f : A -> RoleProg B) (w : W) :
  run_role h (role_bind p f) w =
  let '(a, w1, t1) := run_role h p w in
  let '(b, w2, t2) := run_role h (f a) w1 in
  (b, w2, (t1 ++ t2)%list).
Proof.
  revert w. induction p as [a | c k IH]; intros w; cbn.
  - destruct (run_role h (f a) w) as [[b w2] t2]. reflexivity.
  - destruct (h c w) as [r w1]. rewrite IH.
    destruct (run_role h (k r) w1) as [[a w2] t].
    destruct (run_role h (f a) w2) as [[b w3] t2]. reflexivity.
Qed.

(** The four ways a [SetupRole] run goes. *)
Lemma SetupRole_cases d app w r w' t :
  run_role h (SetupRole d app) w = (r, w', t) ->
  let name := "lambda-" +:+ App app in
  let d0 := with_roleName d name in
  let get := iam_GetRole {| gr_RoleName := name |} in
  let create := iam_CreateRole {| cr_AssumeRolePolicyDocument := rolePolicy;
                                  cr_Path := "/"; cr_RoleName := name |} in
  let attach := iam_AttachRolePolicy {| arp_RoleName := name;
                                        arp_PolicyArn := executionPolicyArn |} in
  (exists out, t = [RoleEv get (Ok out)] /\ r = (with_roleArn d0 (role_Arn out), None))
  \/
  (exists e0 e1, t = [RoleEv get (Err e0); RoleEv create (Err e1)] /\ r = (d0, Some e1))
  \/
  (exists e0 out e2,
      t = [RoleEv get (Err e0); RoleEv create (Ok out); RoleEv attach (Err e2)] /\
      r = (with_roleArn d0 (role_Arn out), Some e2))
  \/
  (exists e0 out,
      t = [RoleEv get (Err e0); RoleEv create (Ok out); RoleEv attach (Ok tt)] /\
      r = (with_roleArn d0 (role_Arn out), None)).
Proof.
  unfold SetupRole. cbn.
  answer_role h.
  - intros [= <- <- <-]. left. exists r0. split; reflexivity.
  - answer_role h.
    + answer_role h; intros [= <- <- <-]; right; right.
      * right. destruct r1. exists e, r0. split; reflexivity.
      * left. exists e, r0, e0. split; reflexivity.
    + intros [= <- <- <-]. right. left. exists e, e0. split; reflexivity.
Qed.

(** Whatever happens, the deployer is left with the derived role name and
    its configuration. *)
Lemma SetupRole_deployer d app w d' err w' t :
  run_role h (SetupRole d app) w = ((d', err), w', t) ->
  roleName d' = "lambda-" +:+ App app /\ config d' = config d.
Proof.
  intros Hrun.
  destruct (SetupRole_cases _ _ _ _ _ _ Hrun)
    as [(out & _ & Hr) | [(e0 & e1 & _ & Hr) | [(e0 & out & e2 & _ & Hr)
                                                | (e0 & out & _ & Hr)]]];
    injection Hr as -> _; split; reflexivity.
Qed.

End RoleRuns.

Ltac role_trace :=
  repeat match goal with
  | H : _ ∈ [] |- _ => apply elem_of_nil in H; destruct H
  | H : _ ∈ _ :: _ |- _ => apply elem_of_cons in H; destruct H as [-> | H]
  end.

(** X3.  The commands of every [SetupRole] run: the role is looked up first;
    it is created only after the lookup failed, with the trust policy and the
    path [/]; the execution policy is attached only after the creation
    succeeded; and every command names the role [lambda-<app>].  There are at
    most three commands. *)
Theorem SetupRole_protocol :
  forall (W : Type) (h : RoleServices W) d app w r w' t,
    run_role h (SetupRole d app) w = (r, w', t) ->
    let name := "lambda-" +:+ App app in
    (exists e, t !! 0%nat = Some e /\ role_cmd e = iam_GetRole {| gr_RoleName := name |})
    /\ (length t <= 3)%nat
    /\ Forall (fun e => role_named (role_cmd e) = name) t
    /\ (forall (i : nat) e,
           t !! i = Some e -> is_CreateRole (role_cmd e) = true ->
           i = 1%nat /\
           (exists e0, t !! 0%nat = Some e0 /\ role_err e0 <> None) /\
           role_cmd e = iam_CreateRole {| cr_AssumeRolePolicyDocument := rolePolicy;
                                          cr_Path := "/"; cr_RoleName := name |})
    /\ (forall (i : nat) e,
           t !! i = Some e -> is_AttachRolePolicy (role_cmd e) = true ->
           i = 2%nat /\
           (exists e1, t !! 1%nat = Some e1 /\ is_CreateRole (role_cmd e1) = true /\
                       role_err e1 = None) /\
           role_cmd e = iam_AttachRolePolicy {| arp_RoleName := name;
                                                arp_PolicyArn := executionPolicyArn |}).
Proof.
  intros W h d app w r w' t Hrun name.
  destruct (SetupRole_cases h _ _ _ _ _ _ Hrun)
    as [(out & -> & _) | [(e0 & e1 & -> & _) | [(e0 & out & e2 & -> & _)
                                               | (e0 & out & -> & _)]]].
  all: split; [eexists; split; reflexivity |].
  all: split; [cbn; lia |].
  all: split; [repeat constructor |].
  all: split; intros i e Hi Hc.
  all: repeat (destruct i as [| i]; cbn in Hi; [injection Hi as <- |]);
    try discriminate.
  all: split; [reflexivity |]; split; [| reflexivity].
  all: eexists; split; [reflexivity |]; try split; (reflexivity || discriminate).
Qed.

Lemma SetupRole_protocol_witness :
  let r := run_role SimRole.role_services
             (SetupRole Scenario.d0 Scenario.app0) SimRole.fresh in
  map role_cmd (snd r) =
    [iam_GetRole {| gr_RoleName := "lambda-shop" |};
     iam_CreateRole {| cr_AssumeRolePolicyDocument := rolePolicy; cr_Path := "/";
                       cr_RoleName := "lambda-shop" |};
     iam_AttachRolePolicy {| arp_RoleName := "lambda-shop";
                             arp_PolicyArn := executionPolicyArn |}]
  /\ (length (snd r) <= 3)%nat
  /\ Forall (fun e => role_named (role_cmd e) = "lambda-" +:+ App Scenario.app0) (snd r).
Proof.
  intros r.
  destruct (SetupRole_protocol SimRole.World SimRole.role_services
              Scenario.d0 Scenario.app0 SimRole.fresh
              (fst (fst r)) (snd (fst r)) (snd r))
    as (_ & Hlen & Hall & _).
  - vm_compute. reflexivity.
  - split; [vm_compute; reflexivity |]. split; [exact Hlen | exact Hall].
Defined.

(** X4.  A [SetupRole] run that returns no error has found the role, or has
    created it and attached the execution policy to it; the deployer then
    holds the reference the role service answered, the derived role name,
    and its configuration as before. *)
Theorem SetupRole_success :
  forall (W : Type) (h : RoleServices W) d app w d' w' t,
    run_role h (SetupRole d app) w = ((d', None), w', t) ->
    exists e out,
      e ∈ t /\ role_answered e = Some out /\
      roleArn d' = role_Arn out /\
      roleName d' = "lambda-" +:+ App app /\
      config d' = config d /\
      Forall (fun x => role_err x = None \/ is_GetRole (role_cmd x) = true) t /\
      (is_GetRole (role_cmd e) = true -> t = [e]) /\
      (is_CreateRole (role_cmd e) = true ->
       exists a, last t = Some a /\ is_AttachRolePolicy (role_cmd a) = true /\
                 role_err a = None).
Proof.
  intros W h d app w d' w' t Hrun.
  destruct (SetupRole_cases h _ _ _ _ _ _ Hrun)
    as [(out & -> & Hr) | [(e0 & e1 & -> & Hr) | [(e0 & out & e2 & -> & Hr)
                                                 | (e0 & out & -> & Hr)]]];
    try discriminate; injection Hr as ->.
  - eexists _, out. split; [apply list_elem_of_here |].
    split; [reflexivity |]. split; [reflexivity |]. split; [reflexivity |].
    split; [reflexivity |].
    split; [repeat constructor; left; reflexivity |].
    split; [reflexivity | discriminate].
  - eexists _, out. split; [apply list_elem_of_further, list_elem_of_here |].
    split; [reflexivity |]. split; [reflexivity |]. split; [reflexivity |].
    split; [reflexivity |].
    split; [constructor; [right; reflexivity |]; repeat constructor; left; reflexivity |].
    split; [discriminate |].
    intros _. eexists. split; [reflexivity |]. split; reflexivity.
Qed.

Lemma SetupRole_success_witness :
  let r := run_role SimRole.role_services
             (SetupRole Scenario.d0 Scenario.app0) SimRole.fresh in
  fst (fst r) =
    ({| config := config Scenario.d0; roleName := "lambda-shop";
        roleArn := "arn:aws:iam::role/lambda-shop" |}, None)
  /\ exists e out,
      e ∈ snd r /\ role_answered e = Some out /\
      "arn:aws:iam::role/lambda-shop" = role_Arn out.
Proof.
  intros r. split; [vm_compute; reflexivity |].
  destruct (SetupRole_success SimRole.World SimRole.role_services
              Scenario.d0 Scenario.app0 SimRole.fresh
              {| config := config Scenario.d0; roleName := "lambda-shop";
                 roleArn := "arn:aws:iam::role/lambda-shop" |}
              (snd (fst r)) (snd r))
    as (e & out & He & Hout & Harn & _ & _ & _ & Hget & _).
  - vm_compute. reflexivity.
  - exists e, out. split; [exact He |]. split; [exact Hout | exact Harn].
Defined.

(** X5.  A [SetupRole] run that returns an error returns the error of its
    last command, which is the creation of the role or the attachment of the
    policy: a failed lookup is never returned.  When the creation failed the
    reference in the deployer is the one it had; when the attachment failed
    it is already that of the created role. *)
Theorem SetupRole_failure :
  forall (W : Type) (h : RoleServices W) d app w d' err w' t,
    run_role h (SetupRole d app) w = ((d', Some err), w', t) ->
    exists e,
      last t = Some e /\ role_err e = Some err /\
      is_GetRole (role_cmd e) = false /\
      (is_CreateRole (role_cmd e) = true -> roleArn d' = roleArn d) /\
      (is_AttachRolePolicy (role_cmd e) = true ->
       exists c out, t !! 1%nat = Some c /\ role_answered c = Some out /\
                     roleArn d' = role_Arn out).
Proof.
  intros W h d app w d' err w' t Hrun.
  destruct (SetupRole_cases h _ _ _ _ _ _ Hrun)
    as [(out & -> & Hr) | [(e0 & e1 & -> & Hr) | [(e0 & out & e2 & -> & Hr)
                                                 | (e0 & out & -> & Hr)]]];
    try discriminate; injection Hr as -> ->.
  - eexists. split; [reflexivity |]. split; [reflexivity |]. split; [reflexivity |].
    split; [reflexivity | discriminate].
  - eexists. split; [reflexivity |]. split; [reflexivity |]. split; [reflexivity |].
    split; [discriminate |].
    intros _. eexists _, out. split; [reflexivity |]. split; reflexivity.
Qed.

Lemma SetupRole_failure_witness :
  let r := run_role SimRole.role_services
             (SetupRole Scenario.d0 Scenario.app0) SimRole.attachFails in
  snd (fst (fst r)) = Some Scenario.timeout /\
  exists e,
    last (snd r) = Some e /\ role_err e = Some Scenario.timeout /\
    is_GetRole (role_cmd e) = false.
Proof.
  intros r. split; [vm_compute; reflexivity |].
  destruct (SetupRole_failure SimRole.World SimRole.role_services
              Scenario.d0 Scenario.app0 SimRole.attachFails
              (fst (fst (fst r))) Scenario.timeout (snd (fst r)) (snd r))
    as (e & Hlast & Herr & Hget & _).
  - vm_compute. reflexivity.
  - exists e. split; [exact Hlast |]. split; [exact Herr | exact Hget].
Defined.

(** X6.  [SetupRole] twice: after a run without error, on a role service
    that then finds the role under its name with the reference the deployer
    holds, a second run only looks the role up, creates and attaches nothing,
    and leaves the deployer as it is. *)
Theorem SetupRole_twice :
  forall (W : Type) (h : RoleServices W) d app w d1 w1 t1 w2,
    run_role h (SetupRole d app) w = ((d1, None), w1, t1) ->
    h (iam_GetRole {| gr_RoleName := "lambda-" +:+ App app |}) w1
      = (Ok {| role_Arn := roleArn d1 |}, w2) ->
    run_role h (SetupRole d1 app) w1 =
    ((d1, None), w2,
     [RoleEv (iam_GetRole {| gr_RoleName := "lambda-" +:+ App app |})
             (Ok {| role_Arn := roleArn d1 |})]).
Proof.
  intros W h d app w d1 w1 t1 w2 Hrun Hget.
  destruct (SetupRole_deployer h _ _ _ _ _ _ _ Hrun) as [Hname Hcfg].
  unfold SetupRole. cbn. rewrite Hget. cbn.
  destruct d1 as [c n a]. cbn in *. subst n. reflexivity.
Qed.

Lemma SetupRole_twice_witness :
  let r1 := run_role SimRole.role_services
              (SetupRole Scenario.d0 Scenario.app0) SimRole.fresh in
  run_role SimRole.role_services
           (SetupRole (fst (fst (fst r1))) Scenario.app0) (snd (fst r1))
  = ((fst (fst (fst r1)), None), snd (fst r1),
     [RoleEv (iam_GetRole {| gr_RoleName := "lambda-" +:+ App Scenario.app0 |})
             (Ok {| role_Arn := roleArn (fst (fst (fst r1))) |})]).
Proof.
  intros r1.
  apply (SetupRole_twice SimRole.World SimRole.role_services
           Scenario.d0 Scenario.app0 SimRole.fresh
           (fst (fst (fst r1))) (snd (fst r1)) (snd r1) (snd (fst r1))).
  - vm_compute. reflexivity.
  - vm_compute. reflexivity.
Defined.

(** ** The function: creation, update and what is installed *)

Section FunctionShapes.
Context {W : Type} (h : Services W).

(** A layer publish returns: it never panics. *)
Lemma CreateLayer_returns d app info name path w o w' t :
  run h (CreateLayer d app info name path) w = (o, w', t) -> o <> Crashed.
Proof.
  intros Hrun.
  destruct (CreateLayer_cases h _ _ _ _ _ _ _ _ _ Hrun)
    as [(e0 & _ & ->) | [(raw & e0 & w2 & t2 & _ & Hp)
                        | (raw & out & w1 & os & ws & ts & tp & _ & Hscan & Hos)]].
  - discriminate.
  - exact (proj2 (CreateLayer_publish_cmds h _ _ _ _ _ _ _ _ _ Hp)).
  - destruct os as [[ret |] |].
    + destruct Hos as (_ & -> & _). discriminate.
    + exact (proj2 (CreateLayer_publish_cmds h _ _ _ _ _ _ _ _ _ Hos)).
    + destruct Hos.
Qed.

(** The create branch: the function is created, then a version is published
    for the digest the creation answered. *)
Lemma CreateFunction_create_cases d app info key preLayer libLayer w o w' t :
  run h (CreateFunction_create d app info key preLayer libLayer) w = (o, w', t) ->
  let create := lambda_CreateFunction (createInput d app info preLayer libLayer key) in
  let publish := fun a : FunctionConfiguration =>
    lambda_PublishVersion {| pv_CodeSha256 := Some (CodeSha256 a);
                             pv_FunctionName := App app |} in
  (exists e, t = [Ev create (Err e)] /\ o = Done ("", Some e))
  \/ (exists a e, t = [Ev create (Ok a); Ev (publish a) (Err e)] /\ o = Done ("", Some e))
  \/ (exists a ver, t = [Ev create (Ok a); Ev (publish a) (Ok ver)] /\
                    o = Done (FunctionArn ver, None)).
Proof.
  unfold CreateFunction_create. cbn.
  answer h.
  - answer h; intros [= <- <- <-]; right.
    + right. exists r, r0. split; reflexivity.
    + left. exists r, e. split; reflexivity.
  - intros [= <- <- <-]. left. exists e. split; reflexivity.
Qed.

(** The update branch: the configuration is updated first when [newLayers]
    says so, then the code is updated, then a version is published for the
    digest the code update answered. *)
Lemma CreateFunction_update_cases d app info key preLayer libLayer fnInfo w o w' t :
  run h (CreateFunction_update d app info key preLayer libLayer fnInfo) w = (o, w', t) ->
  let configure := lambda_UpdateFunctionConfiguration
                     (updateConfigInput d app info preLayer libLayer) in
  let code := lambda_UpdateFunctionCode
                {| ufk_FunctionName := App app; ufk_S3Bucket := Bucket (config d);
                   ufk_S3Key := key |} in
  let publish := fun a : FunctionConfiguration =>
    lambda_PublishVersion {| pv_CodeSha256 := Some (CodeSha256 a);
                             pv_FunctionName := App app |} in
  (exists e, t = [Ev configure (Err e)] /\ o = Done ("", Some e))
  \/
  (exists pre,
      (pre = [] \/ exists c, pre = [Ev configure (Ok c)]) /\
      ((exists e, t = (pre ++ [Ev code (Err e)])%list /\ o = Done ("", Some e))
       \/ (exists a e, t = (pre ++ [Ev code (Ok a); Ev (publish a) (Err e)])%list /\
                       o = Done ("", Some e))
       \/ (exists a ver, t = (pre ++ [Ev code (Ok a); Ev (publish a) (Ok ver)])%list /\
                         o = Done (FunctionArn ver, None)))).
Proof.
  unfold CreateFunction_update.
  destruct (newLayers (Layers (Configuration fnInfo)) preLayer libLayer); cbn.
  - answer h.
    + answer h.
      * answer h; intros [= <- <- <-]; right; eexists [_];
          (split; [right; eexists; reflexivity |]); right.
        -- right. eexists _, _. split; reflexivity.
        -- left. eexists _, _. split; reflexivity.
      * intros [= <- <- <-]. right. eexists [_].
        split; [right; eexists; reflexivity |]. left. eexists. split; reflexivity.
    + intros [= <- <- <-]. left. eexists. split; reflexivity.
  - answer h.
    + answer h; intros [= <- <- <-]; right; exists [];
        (split; [left; reflexivity |]); right.
      * right. eexists _, _. split; reflexivity.
      * left. eexists _, _. split; reflexivity.
    + intros [= <- <- <-]. right. exists [].
      split; [left; reflexivity |]. left. eexists. split; reflexivity.
Qed.

(** A reconciliation either ends before the function is looked up, with an
    error and no command on the function, or looks the function up once and
    goes on with the update branch or the create branch. *)
Lemma CreateFunction_reach d app info w o w' t :
  run h (CreateFunction d app info) w = (o, w', t) ->
  ((exists x err, o = Done (x, Some err)) /\
   Forall (fun e => is_function_cmd (ev_cmd e) = false) t)
  \/
  (exists t0 r w3 t4 preLayer libLayer,
      t = (t0 ++ Ev (lambda_GetFunction (App app)) r :: t4)%list /\
      Forall (fun e => is_function_cmd (ev_cmd e) = false) t0 /\
      (exists f, Ev (packageUpload d app info f) (Ok tt) ∈ t0) /\
      match r with
      | Ok fnInfo =>
          run h (CreateFunction_update d app info (appKey app info)
                                       preLayer libLayer fnInfo) w3 = (o, w', t4)
      | Err _ =>
          run h (CreateFunction_create d app info (appKey app info)
                                       preLayer libLayer) w3 = (o, w', t4)
      end).
Proof.
  unfold CreateFunction. cbn.
  answer h; [| intros [= <- <- <-]; left; split; [eauto | repeat constructor]].
  answer h; [| intros [= <- <- <-]; left; split; [eauto | repeat constructor]].
  answer h; [| intros [= <- <- <-]; left; split; [eauto | repeat constructor]].
  unfold CreateFunction_layers. rewrite run_bind.
  destruct (run h (CreatePreLayer d app info (PreZip info)) w2) as [[o1 w3] t1] eqn:Hpre.
  pose proof (CreateLayer_no_function_cmd h _ _ _ _ _ _ _ _ _ Hpre) as Hn1.
  pose proof (CreateLayer_returns _ _ _ _ _ _ _ _ _ Hpre) as Hc1.
  destruct o1 as [[preLayer [err |]] |]; [| | contradiction].
  { cbn. intros [= <- <- <-]. left. split; [eauto |].
    repeat (constructor; [reflexivity |]). rewrite app_nil_r. exact Hn1. }
  rewrite run_bind.
  destruct (run h (CreateLibraryLayer d app info (LibZip info)) w3) as [[o2 w4] t2] eqn:Hlib.
  pose proof (CreateLayer_no_function_cmd h _ _ _ _ _ _ _ _ _ Hlib) as Hn2.
  pose proof (CreateLayer_returns _ _ _ _ _ _ _ _ _ Hlib) as Hc2.
  destruct o2 as [[libLayer [err |]] |]; [| | contradiction].
  { cbn. intros [= <- <- <-]. left. split; [eauto |].
    repeat (constructor; [reflexivity |]). rewrite app_nil_r.
    apply Forall_app. split; assumption. }
  cbn -[CreateFunction_update CreateFunction_create].
  destruct (h (lambda_GetFunction (App app)) w4) as [[fnInfo | e] w5].
  - destruct (run h (CreateFunction_update d app info (appKey app info)
                                           preLayer libLayer fnInfo) w5)
      as [[o3 w6] t3] eqn:Hup.
    intros [= <- <- <-]. right.
    exists (Ev (os_Open (AppZip info)) (Ok r) :: Ev (file_Stat r) (Ok r0)
              :: Ev (s3manager_Upload {| up_Body := r; up_Bucket := Bucket (config d);
                                         up_Key := appKey app info |}) (Ok r1)
              :: t1 ++ t2)%list,
           (Ok fnInfo), w5, t3, preLayer, libLayer.
    split; [cbn; rewrite <- !app_assoc; reflexivity |].
    split; [| split; [| exact Hup]].
    + repeat (constructor; [reflexivity |]). apply Forall_app. split; assumption.
    + exists r. destruct r1.
      apply list_elem_of_further, list_elem_of_further, list_elem_of_here.
  - destruct (run h (CreateFunction_create d app info (appKey app info)
                                           preLayer libLayer) w5)
      as [[o3 w6] t3] eqn:Hcr.
    intros [= <- <- <-]. right.
    exists (Ev (os_Open (AppZip info)) (Ok r) :: Ev (file_Stat r) (Ok r0)
              :: Ev (s3manager_Upload {| up_Body := r; up_Bucket := Bucket (config d);
                                         up_Key := appKey app info |}) (Ok r1)
              :: t1 ++ t2)%list,
           (Err e), w5, t3, preLayer, libLayer.
    split; [cbn; rewrite <- !app_assoc; reflexivity |].
    split; [| split; [| exact Hcr]].
    + repeat (constructor; [reflexivity |]). apply Forall_app. split; assumption.
    + exists r. destruct r1.
      apply list_elem_of_further, list_elem_of_further, list_elem_of_here.
Qed.

(** A reconciliation that returns a reference has published a version last,
    for the digest of the code it has just installed. *)
Lemma CreateFunction_ok_shape d app info w arn w' t :
  run h (CreateFunction d app info) w = (Done (arn, None), w', t) ->
  exists t0 e1 e2 a ver,
    t = (t0 ++ [e1; e2])%list /\
    ev_answer e1 = Some a /\
    (is_UpdateFunctionCode (ev_cmd e1) = true \/ is_CreateFunction (ev_cmd e1) = true) /\
    ev_cmd e2 = lambda_PublishVersion {| pv_CodeSha256 := Some (CodeSha256 a);
                                         pv_FunctionName := App app |} /\
    ev_answer e2 = Some ver /\ arn = FunctionArn ver.
Proof.
  intros Hrun.
  destruct (CreateFunction_reach _ _ _ _ _ _ _ Hrun)
    as [[(x & err & Ho) _] | (t0 & r & w3 & t4 & pre & lib & -> & _ & _ & Hbranch)];
    [discriminate |].
  destruct r as [fnInfo | e].
  - destruct (CreateFunction_update_cases _ _ _ _ _ _ _ _ _ _ _ Hbranch)
      as [(e & _ & Ho) | (p & Hp & [(e & _ & Ho) | [(a & e & _ & Ho)
                                                  | (a & ver & -> & Ho)]])];
      try discriminate.
    injection Ho as ->.
    eexists (t0 ++ Ev (lambda_GetFunction (App app)) (Ok fnInfo) :: p)%list, _, _, a, ver.
    split; [rewrite <- app_assoc; reflexivity |].
    split; [reflexivity |]. split; [left; reflexivity |].
    split; [reflexivity |]. split; reflexivity.
  - destruct (CreateFunction_create_cases _ _ _ _ _ _ _ _ _ _ Hbranch)
      as [(e1 & _ & Ho) | [(a & e1 & _ & Ho) | (a & ver & -> & Ho)]];
      try discriminate.
    injection Ho as ->.
    eexists (t0 ++ [Ev (lambda_GetFunction (App app)) (Err e)])%list, _, _, a, ver.
    split; [rewrite <- app_assoc; reflexivity |].
    split; [reflexivity |]. split; [right; reflexivity |].
    split; [reflexivity |]. split; reflexivity.
Qed.

(** The events of the two branches. *)
Lemma CreateFunction_update_events d app info key preLayer libLayer fnInfo w o w' t :
  run h (CreateFunction_update d app info key preLayer libLayer fnInfo) w = (o, w', t) ->
  Forall (fun e =>
            ev_cmd e = lambda_UpdateFunctionConfiguration
                         (updateConfigInput d app info preLayer libLayer)
            \/ ev_cmd e = lambda_UpdateFunctionCode
                            {| ufk_FunctionName := App app;
                               ufk_S3Bucket := Bucket (config d); ufk_S3Key := key |}
            \/ is_PublishVersion (ev_cmd e) = true) t.
Proof.
  intros Hrun.
  destruct (CreateFunction_update_cases _ _ _ _ _ _ _ _ _ _ _ Hrun)
    as [(e & -> & _) | (p & Hp & Ht)].
  - constructor; [left; reflexivity | constructor].
  - assert (Hpre : Forall (fun e =>
            ev_cmd e = lambda_UpdateFunctionConfiguration
                         (updateConfigInput d app info preLayer libLayer)
            \/ ev_cmd e = lambda_UpdateFunctionCode
                            {| ufk_FunctionName := App app;
                               ufk_S3Bucket := Bucket (config d); ufk_S3Key := key |}
            \/ is_PublishVersion (ev_cmd e) = true) p).
    { destruct Hp as [-> | (c & ->)]; [constructor |].
      constructor; [left; reflexivity | constructor]. }
    destruct Ht as [(e & -> & _) | [(a & e & -> & _) | (a & ver & -> & _)]];
      apply Forall_app; (split; [exact Hpre |]).
    + constructor; [right; left; reflexivity | constructor].
    + constructor; [right; left; reflexivity |].
      constructor; [right; right; reflexivity | constructor].
    + constructor; [right; left; reflexivity |].
      constructor; [right; right; reflexivity | constructor].
Qed.

Lemma CreateFunction_create_events d app info key preLayer libLayer w o w' t :
  run h (CreateFunction_create d app info key preLayer libLayer) w = (o, w', t) ->
  Forall (fun e =>
            ev_cmd e = lambda_CreateFunction (createInput d app info preLayer libLayer key)
            \/ is_PublishVersion (ev_cmd e) = true) t.
Proof.
  intros Hrun.
  destruct (CreateFunction_create_cases _ _ _ _ _ _ _ _ _ _ Hrun)
    as [(e & -> & _) | [(a & e & -> & _) | (a & ver & -> & _)]].
  - constructor; [left; reflexivity | constructor].
  - constructor; [left; reflexivity |]. constructor; [right; reflexivity | constructor].
  - constructor; [left; reflexivity |]. constructor; [right; reflexivity | constructor].
Qed.

End FunctionShapes.

(** X7.  Creation and update exclude each other within a reconciliation:
    no run both creates the function and updates its code or configuration;
    the function is created only after its lookup failed, and updated only
    after its lookup succeeded. *)
Theorem CreateFunction_create_xor_update :
  forall (W : Type) (h : Services W) d app info w o w' t,
    run h (CreateFunction d app info) w = (o, w', t) ->
    (forall e1 e2,
        e1 ∈ t -> e2 ∈ t -> is_CreateFunction (ev_cmd e1) = true ->
        is_UpdateFunctionCode (ev_cmd e2) || is_UpdateFunctionConfiguration (ev_cmd e2)
          = true ->
        False)
    /\
    (forall e,
        e ∈ t -> is_CreateFunction (ev_cmd e) = true ->
        exists g, g ∈ t /\ ev_cmd g = lambda_GetFunction (App app) /\ ev_err g <> None)
    /\
    (forall e,
        e ∈ t ->
        is_UpdateFunctionCode (ev_cmd e) || is_UpdateFunctionConfiguration (ev_cmd e)
          = true ->
        exists g, g ∈ t /\ ev_cmd g = lambda_GetFunction (App app) /\ ev_err g = None).
Proof.
  intros W h d app info w o w' t Hrun.
  assert (Hkinds : forall e : Event,
             is_function_cmd (ev_cmd e) = false ->
             is_CreateFunction (ev_cmd e) = false /\
             is_UpdateFunctionCode (ev_cmd e) || is_UpdateFunctionConfiguration (ev_cmd e)
               = false).
  { intros [c r]; destruct c; cbn; intros; split; (reflexivity || discriminate). }
  destruct (CreateFunction_reach h _ _ _ _ _ _ _ Hrun)
    as [[_ Hnone] | (t0 & r & w3 & t4 & pre & lib & -> & Hnone & _ & Hbranch)].
  - rewrite Forall_forall in Hnone.
    split; [| split]; intros e; intros;
      match goal with H : e ∈ t |- _ => apply Hnone, Hkinds in H; destruct H; congruence end.
  - rewrite Forall_forall in Hnone.
    assert (Hin : forall e, e ∈ (t0 ++ Ev (lambda_GetFunction (App app)) r :: t4)%list ->
                            is_CreateFunction (ev_cmd e) = true \/
                            is_UpdateFunctionCode (ev_cmd e)
                              || is_UpdateFunctionConfiguration (ev_cmd e) = true ->
                            e ∈ t4).
    { intros e He Hk. apply elem_of_app in He. destruct He as [He | He].
      - apply Hnone, Hkinds in He. destruct He. destruct Hk; congruence.
      - apply elem_of_cons in He. destruct He as [-> | He]; [| exact He].
        destruct Hk; discriminate. }
    assert (Hg : Ev (lambda_GetFunction (App app)) r
                   ∈ (t0 ++ Ev (lambda_GetFunction (App app)) r :: t4)%list).
    { apply elem_of_app. right. apply list_elem_of_here. }
    destruct r as [fnInfo | err].
    + pose proof (CreateFunction_update_events h _ _ _ _ _ _ _ _ _ _ _ Hbranch) as Hev.
      rewrite Forall_forall in Hev.
      assert (Hnocreate : forall e, e ∈ t4 -> is_CreateFunction (ev_cmd e) = false).
      { intros e He. destruct (Hev e He) as [Hc | [Hc | Hc]].
        - rewrite Hc. reflexivity.
        - rewrite Hc. reflexivity.
        - destruct e as [c r]; destruct c; (reflexivity || discriminate). }
      split; [| split].
      * intros e1 e2 He1 _ Hk1 _. apply Hin in He1; [| left; exact Hk1].
        apply Hnocreate in He1. congruence.
      * intros e He Hk. apply Hin in He; [| left; exact Hk].
        apply Hnocreate in He. congruence.
      * intros e _ _. eexists. split; [exact Hg |]. split; reflexivity.
    + pose proof (CreateFunction_create_events h _ _ _ _ _ _ _ _ _ _ Hbranch) as Hev.
      rewrite Forall_forall in Hev.
      assert (Hnoupdate : forall e, e ∈ t4 ->
                 is_UpdateFunctionCode (ev_cmd e)
                   || is_UpdateFunctionConfiguration (ev_cmd e) = false).
      { intros e He. destruct (Hev e He) as [Hc | Hc].
        - rewrite Hc. reflexivity.
        - destruct e as [c r]; destruct c; (reflexivity || discriminate). }
      split; [| split].
      * intros e1 e2 _ He2 _ Hk2. apply Hin in He2; [| right; exact Hk2].
        apply Hnoupdate in He2. congruence.
      * intros e _ _. eexists. split; [exact Hg |]. split; [reflexivity | discriminate].
      * intros e He Hk. apply Hin in He; [| right; exact Hk].
        apply Hnoupdate in He. congruence.
Qed.

Lemma CreateFunction_create_xor_update_witness :
  let r := run Sim.services
             (CreateFunction Scenario.d0 Scenario.app0 Scenario.build1) Scenario.fresh in
  exists g, g ∈ snd r /\ ev_cmd g = lambda_GetFunction (App Scenario.app0) /\
            ev_err g <> None.
Proof.
  intros r.
  destruct (CreateFunction_create_xor_update Sim.World Sim.services
              Scenario.d0 Scenario.app0 Scenario.build1 Scenario.fresh
              (fst (fst r)) (snd (fst r)) (snd r))
    as (_ & Hcreate & _).
  - vm_compute. reflexivity.
  - apply (Hcreate (Ev (lambda_CreateFunction
                          (createInput Scenario.d0 Scenario.app0 Scenario.build1
                                       "arn:aws:lambda:layer:shop-pre:1"
                                       "arn:aws:lambda:layer:shop-lib:1"
                                       "shop-b1-app.zip"))
                       (Ok (Sim.created
                              (createInput Scenario.d0 Scenario.app0 Scenario.build1
                                           "arn:aws:lambda:layer:shop-pre:1"
                                           "arn:aws:lambda:layer:shop-lib:1"
                                           "shop-b1-app.zip")
                              "AQI=")))).
    + vm_compute. repeat first [apply list_elem_of_here | apply list_elem_of_further].
    + reflexivity.
Defined.

(** X8.  A reconciliation that returns a reference has ended with the
    installation of the code (a code update or the creation) followed by the
    publication of a version for the digest that installation answered; the
    reference returned is that of the published version. *)
Theorem CreateFunction_success :
  forall (W : Type) (h : Services W) d app info w arn w' t,
    run h (CreateFunction d app info) w = (Done (arn, None), w', t) ->
    exists t0 e1 e2 a ver,
      t = (t0 ++ [e1; e2])%list /\
      ev_answer e1 = Some a /\
      (is_UpdateFunctionCode (ev_cmd e1) = true \/ is_CreateFunction (ev_cmd e1) = true) /\
      ev_cmd e2 = lambda_PublishVersion {| pv_CodeSha256 := Some (CodeSha256 a);
                                           pv_FunctionName := App app |} /\
      ev_answer e2 = Some ver /\ arn = FunctionArn ver.
Proof.
  intros W h d app info w arn w' t Hrun.
  exact (CreateFunction_ok_shape h _ _ _ _ _ _ _ Hrun).
Qed.

Lemma CreateFunction_success_witness :
  let r := run Sim.services
             (CreateFunction Scenario.d0 Scenario.app0 Scenario.build1) Scenario.fresh in
  exists t0 e1 e2 a ver,
    snd r = (t0 ++ [e1; e2])%list /\
    ev_answer e1 = Some a /\
    (is_UpdateFunctionCode (ev_cmd e1) = true \/ is_CreateFunction (ev_cmd e1) = true) /\
    ev_cmd e2 = lambda_PublishVersion {| pv_CodeSha256 := Some (CodeSha256 a);
                                         pv_FunctionName := App Scenario.app0 |} /\
    ev_answer e2 = Some ver /\ "arn:aws:lambda:function:shop:1" = FunctionArn ver.
Proof.
  intros r.
  apply (CreateFunction_success Sim.World Sim.services
           Scenario.d0 Scenario.app0 Scenario.build1 Scenario.fresh
           "arn:aws:lambda:function:shop:1" (snd (fst r))).
  vm_compute. reflexivity.
Defined.

(** X9.  The code a reconciliation installs is the package it has just
    uploaded: every [CreateFunction] and every [UpdateFunctionCode] of a run
    names the bucket and key of a successful upload of the package in the
    same run.  A function is created for the application, with the role of
    the deployer, the handler [app.handler], the default timeout and memory
    and the runtime of the build. *)
Theorem CreateFunction_installs_uploaded_package :
  forall (W : Type) (h : Services W) d app info w o w' t,
    run h (CreateFunction d app info) w = (o, w', t) ->
    (forall e,
        e ∈ t ->
        is_CreateFunction (ev_cmd e) = true \/ is_UpdateFunctionCode (ev_cmd e) = true ->
        exists f up,
          up ∈ t /\ up = Ev (packageUpload d app info f) (Ok tt) /\
          code_location (ev_cmd e) = code_location (ev_cmd up) /\
          code_location (ev_cmd e) = Some (Bucket (config d), appKey app info))
    /\
    (forall e i,
        e ∈ t -> ev_cmd e = lambda_CreateFunction i ->
        cf_FunctionName i = App app /\ cf_Role i = roleArn d /\
        cf_Handler i = "app.handler" /\ cf_Timeout i = 60 /\ cf_MemorySize i = 256 /\
        cf_Runtime i = Runtime info /\
        cf_Tags i !! "devflow.app" = Some (App app) /\
        cf_Tags i !! "devflow.app.id" = Some (BuildId info)).
Proof.
  intros W h d app info w o w' t Hrun.
  assert (Hkinds : forall e : Event,
             is_function_cmd (ev_cmd e) = false ->
             is_CreateFunction (ev_cmd e) = false /\ is_UpdateFunctionCode (ev_cmd e) = false).
  { intros [c r]; destruct c; cbn; intros; split; (reflexivity || discriminate). }
  destruct (CreateFunction_reach h _ _ _ _ _ _ _ Hrun)
    as [[_ Hnone] | (t0 & r & w3 & t4 & pre & lib & -> & Hnone & (f & Hup) & Hbranch)].
  - rewrite Forall_forall in Hnone. split.
    + intros e He Hk. apply Hnone, Hkinds in He. destruct He, Hk; congruence.
    + intros e i He Hc. apply Hnone, Hkinds in He. destruct He as [He _].
      rewrite Hc in He. discriminate.
  - rewrite Forall_forall in Hnone.
    assert (Hin : forall e, e ∈ (t0 ++ Ev (lambda_GetFunction (App app)) r :: t4)%list ->
                            is_CreateFunction (ev_cmd e) = true \/
                            is_UpdateFunctionCode (ev_cmd e) = true ->
                            e ∈ t4).
    { intros e He Hk. apply elem_of_app in He. destruct He as [He | He].
      - apply Hnone, Hkinds in He. destruct He, Hk; congruence.
      - apply elem_of_cons in He. destruct He as [-> | He]; [| exact He].
        destruct Hk; discriminate. }
    assert (Hloc : forall e, e ∈ t4 ->
               is_CreateFunction (ev_cmd e) = true \/ is_UpdateFunctionCode (ev_cmd e) = true ->
               code_location (ev_cmd e) = Some (Bucket (config d), appKey app info) /\
               forall i, ev_cmd e = lambda_CreateFunction i ->
                         i = createInput d app info pre lib (appKey app info)).
    { intros e He Hk. destruct r as [fnInfo | err].
      - pose proof (CreateFunction_update_events h _ _ _ _ _ _ _ _ _ _ _ Hbranch) as Hev.
        rewrite Forall_forall in Hev.
        destruct (Hev e He) as [Hc | [Hc | Hc]]; rewrite ?Hc in *.
        + destruct Hk; discriminate.
        + split; [reflexivity | discriminate].
        + destruct e as [c r]; destruct c; destruct Hk; discriminate.
      - pose proof (CreateFunction_create_events h _ _ _ _ _ _ _ _ _ _ Hbranch) as Hev.
        rewrite Forall_forall in Hev.
        destruct (Hev e He) as [Hc | Hc]; rewrite ?Hc in *.
        + split; [reflexivity |]. intros i [= <-]. reflexivity.
        + destruct e as [c r]; destruct c; destruct Hk; discriminate. }
    split.
    + intros e He Hk. pose proof (Hin e He Hk) as He4.
      destruct (Hloc e He4 Hk) as [Hl _].
      exists f, (Ev (packageUpload d app info f) (Ok tt)).
      split; [apply elem_of_app; left; exact Hup |].
      split; [reflexivity |]. split; [rewrite Hl; reflexivity | exact Hl].
    + intros e i He Hc.
      assert (Hk : is_CreateFunction (ev_cmd e) = true \/
                   is_UpdateFunctionCode (ev_cmd e) = true).
      { left. rewrite Hc. reflexivity. }
      pose proof (Hin e He Hk) as He4.
      destruct (Hloc e He4 Hk) as [_ Hi]. rewrite (Hi i Hc).
      unfold createInput. cbn.
      repeat split.
Qed.

Lemma CreateFunction_installs_uploaded_package_witness :
  let r := run Sim.services
             (CreateFunction Scenario.d0 Scenario.app0 Scenario.build1)
             Scenario.deployedBare in
  let e := Ev (lambda_UpdateFunctionCode
                 {| ufk_FunctionName := "shop"; ufk_S3Bucket := "artifacts";
                    ufk_S3Key := "shop-b1-app.zip" |})
              (Ok (Sim.withCode Scenario.bare "AQI=")) in
  exists f up,
    up ∈ snd r /\
    up = Ev (packageUpload Scenario.d0 Scenario.app0 Scenario.build1 f) (Ok tt) /\
    code_location (ev_cmd e) = code_location (ev_cmd up) /\
    code_location (ev_cmd e)
      = Some (Bucket (config Scenario.d0), appKey Scenario.app0 Scenario.build1).
Proof.
  intros r e.
  destruct (CreateFunction_installs_uploaded_package Sim.World Sim.services
              Scenario.d0 Scenario.app0 Scenario.build1 Scenario.deployedBare
              (fst (fst r)) (snd (fst r)) (snd r))
    as (Hcode & _).
  - vm_compute. reflexivity.
  - apply (Hcode e).
    + vm_compute. repeat first [apply list_elem_of_here | apply list_elem_of_further].
    + right. reflexivity.
Defined.

(** X10.  In the update branch the configuration is updated exactly when
    some layer attached to the function is neither of the two references.
    The update is then the first command of the branch; it sets the two
    references as the layers, the handler, the role of the deployer, the
    default timeout and memory and the runtime of the build, and it carries
    no environment. *)
Theorem CreateFunction_update_configures :
  forall (W : Type) (h : Services W) d app info key preLayer libLayer fnInfo w o w' t,
    run h (CreateFunction_update d app info key preLayer libLayer fnInfo) w = (o, w', t) ->
    ((exists e, e ∈ t /\ is_UpdateFunctionConfiguration (ev_cmd e) = true) <->
     (exists layer, layer ∈ Layers (Configuration fnInfo) /\
                    Arn layer <> preLayer /\ Arn layer <> libLayer))
    /\
    (forall e,
        e ∈ t -> is_UpdateFunctionConfiguration (ev_cmd e) = true ->
        t !! 0%nat = Some e /\
        exists i,
          ev_cmd e = lambda_UpdateFunctionConfiguration i /\
          ufc_FunctionName i = App app /\
          ufc_Layers i = [preLayer; libLayer] /\
          ufc_Environment i = None /\
          ufc_Handler i = Some "app.handler" /\
          ufc_Role i = Some (roleArn d) /\
          ufc_Timeout i = Some 60 /\
          ufc_MemorySize i = Some 256 /\
          ufc_Runtime i = Some (Runtime info)).
Proof.
  intros W h d app info key preLayer libLayer fnInfo w o w' t Hrun.
  split.
  - rewrite (CreateFunction_update_gate h _ _ _ _ _ _ _ _ _ _ _ Hrun).
    apply newLayers_true.
  - intros e He Hc.
    assert (Hgoal : forall c : result FunctionConfiguration,
               e = Ev (lambda_UpdateFunctionConfiguration
                         (updateConfigInput d app info preLayer libLayer)) c ->
               exists i,
                 ev_cmd e = lambda_UpdateFunctionConfiguration i /\
                 ufc_FunctionName i = App app /\
                 ufc_Layers i = [preLayer; libLayer] /\
                 ufc_Environment i = None /\
                 ufc_Handler i = Some "app.handler" /\
                 ufc_Role i = Some (roleArn d) /\
                 ufc_Timeout i = Some 60 /\
                 ufc_MemorySize i = Some 256 /\
                 ufc_Runtime i = Some (Runtime info)).
    { intros c ->. eexists. split; [reflexivity |]. repeat split. }
    destruct (CreateFunction_update_cases h _ _ _ _ _ _ _ _ _ _ _ Hrun)
      as [(e0 & -> & _) | (p & Hp & Ht)].
    + in_trace. split; [reflexivity |]. eapply Hgoal. reflexivity.
    + destruct Hp as [-> | (c & ->)];
        destruct Ht as [(e0 & -> & _) | [(a & e0 & -> & _) | (a & ver & -> & _)]];
        cbn in He; in_trace; try discriminate;
        (split; [reflexivity |]); eapply Hgoal; reflexivity.
Qed.

Lemma CreateFunction_update_configures_witness :
  let fnInfo :=
    {| Configuration :=
         Sim.applyConfig Scenario.bare
           (updateConfigInput Scenario.d0 Scenario.app0 Scenario.build1 "old-pre" "lib") |} in
  let r := run Sim.services
             (CreateFunction_update Scenario.d0 Scenario.app0 Scenario.build1
                                    "shop-b1-app.zip" "new-pre" "lib" fnInfo)
             Scenario.deployedBare in
  exists e, e ∈ snd r /\ is_UpdateFunctionConfiguration (ev_cmd e) = true.
Proof.
  intros fnInfo r.
  destruct (CreateFunction_update_configures Sim.World Sim.services
              Scenario.d0 Scenario.app0 Scenario.build1
              "shop-b1-app.zip" "new-pre" "lib" fnInfo Scenario.deployedBare
              (fst (fst r)) (snd (fst r)) (snd r))
    as (Hgate & _).
  - vm_compute. reflexivity.
  - apply Hgate. exists {| Arn := "old-pre" |}.
    split; [apply list_elem_of_here |]. split; discriminate.
Defined.

(** ** The deployment *)

Section DeployRuns.
Context {W : Type} (hr : RoleServices W) (h : Services W).

Lemma run_deploy_Deploy d app info w :
  run_deploy hr h (Deploy d app info) w =
  let '(r, w1, tr) := run_role hr (SetupRole d app) w in
  let '(o, w2, t) := run h (Deploy_function (fst r) app info (snd r)) w1 in
  (o, w2, tr, t).
Proof.
  unfold run_deploy, Deploy. rewrite run_role_bind.
  destruct (run_role hr (SetupRole d app) w) as [[r w1] tr]. cbn.
  rewrite app_nil_r. reflexivity.
Qed.

(** A role that was found or created during a run without error. *)
Lemma SetupRole_ok_role d app w d' w' t :
  run_role hr (SetupRole d app) w = ((d', None), w', t) ->
  exists e out, e ∈ t /\ role_answered e = Some out /\ roleArn d' = role_Arn out.
Proof.
  intros Hrun.
  destruct (SetupRole_cases hr _ _ _ _ _ _ Hrun)
    as [(out & -> & Hr) | [(e0 & e1 & -> & Hr) | [(e0 & out & e2 & -> & Hr)
                                                 | (e0 & out & -> & Hr)]]];
    try discriminate; injection Hr as ->.
  - eexists _, out. split; [apply list_elem_of_here |]. split; reflexivity.
  - eexists _, out. split; [apply list_elem_of_further, list_elem_of_here |].
    split; reflexivity.
Qed.

End DeployRuns.

(** X11.  When [SetupRole] returns an error, [Deploy] returns no deployment
    and that error, and issues no command at all beyond those of the role:
    nothing is uploaded and no layer or function is touched. *)
Theorem Deploy_role_failure :
  forall (W : Type) (hr : RoleServices W) (h : Services W) d app info w d1 err w1 tr,
    run_role hr (SetupRole d app) w = ((d1, Some err), w1, tr) ->
    run_deploy hr h (Deploy d app info) w = (Done (d1, (None, Some err)), w1, tr, []).
Proof.
  intros W hr h d app info w d1 err w1 tr Hrole.
  rewrite run_deploy_Deploy, Hrole. reflexivity.
Qed.

Lemma Deploy_role_failure_witness :
  let r := run_role SimRole.role_services
             (SetupRole Scenario.d0 Scenario.app0) SimRole.createFails in
  run_deploy SimRole.role_services SimRole.services
             (Deploy Scenario.d0 Scenario.app0 Scenario.build1) SimRole.createFails
  = (Done (fst (fst (fst r)), (None, Some Scenario.timeout)), snd (fst r), snd r, []).
Proof.
  intros r.
  apply (Deploy_role_failure SimRole.World SimRole.role_services SimRole.services
           Scenario.d0 Scenario.app0 Scenario.build1 SimRole.createFails
           (fst (fst (fst r))) Scenario.timeout (snd (fst r)) (snd r)).
  vm_compute. reflexivity.
Defined.

(** X12.  A [Deploy] that returns a deployment: the role service has
    answered a role, found or created, and every creation of the function in
    the run names that role; the last command of the run is the publication
    of a version, and the deployment, as an object and as text, is the
    reference of that version. *)
Theorem Deploy_success :
  forall (W : Type) (hr : RoleServices W) (h : Services W) d app info w d1 dep w' tr t,
    run_deploy hr h (Deploy d app info) w = (Done (d1, (Some dep, None)), w', tr, t) ->
    (exists er out,
        er ∈ tr /\ role_answered er = Some out /\ roleArn d1 = role_Arn out /\
        forall e i, e ∈ t -> ev_cmd e = lambda_CreateFunction i -> cf_Role i = role_Arn out)
    /\
    (exists e ver,
        last t = Some e /\ is_PublishVersion (ev_cmd e) = true /\
        ev_answer e = Some ver /\
        dep_FunctionArn dep = FunctionArn ver /\
        MarshalText dep = (list_byte_of_string (FunctionArn ver), None)).
Proof.
  intros W hr h d app info w d1 dep w' tr t Hrun.
  rewrite run_deploy_Deploy in Hrun.
  destruct (run_role hr (SetupRole d app) w) as [[[d2 err] w1] tr1] eqn:Hrole.
  cbn [fst snd] in Hrun. unfold Deploy_function in Hrun.
  destruct err as [err |]; [cbn in Hrun; discriminate |].
  rewrite run_bind in Hrun.
  destruct (run h (CreateFunction d2 app info) w1) as [[o1 w2] t1] eqn:Hfn.
  destruct o1 as [[arn [err |]] |]; cbn in Hrun; try discriminate.
  injection Hrun as <- <- <- <- <-. rewrite app_nil_r.
  split.
  - destruct (SetupRole_ok_role hr _ _ _ _ _ _ Hrole) as (er & out & Her & Hout & Harn).
    exists er, out. split; [exact Her |]. split; [exact Hout |]. split; [exact Harn |].
    intros e i He Hc.
    destruct (CreateFunction_reach h _ _ _ _ _ _ _ Hfn)
      as [[(x & err & Ho) _] | (t0 & r & w3 & t4 & pre & lib & -> & Hnone & _ & Hbranch)];
      [discriminate |].
    rewrite Forall_forall in Hnone.
    apply elem_of_app in He. destruct He as [He | He].
    { apply Hnone in He. rewrite Hc in He. discriminate. }
    apply elem_of_cons in He. destruct He as [-> | He]; [discriminate |].
    destruct r as [fnInfo | e0].
    + pose proof (CreateFunction_update_events h _ _ _ _ _ _ _ _ _ _ _ Hbranch) as Hev.
      rewrite Forall_forall in Hev.
      destruct (Hev e He) as [Hk | [Hk | Hk]]; rewrite Hc in Hk; discriminate.
    + pose proof (CreateFunction_create_events h _ _ _ _ _ _ _ _ _ _ Hbranch) as Hev.
      rewrite Forall_forall in Hev.
      destruct (Hev e He) as [Hk | Hk]; rewrite Hc in Hk; [| discriminate].
      injection Hk as ->. rewrite <- Harn. reflexivity.
  - destruct (CreateFunction_ok_shape h _ _ _ _ _ _ _ Hfn)
      as (t0 & e1 & e2 & a & ver & -> & _ & _ & Hcmd & Hver & ->).
    exists e2, ver.
    split; [rewrite last_app; reflexivity |].
    split; [rewrite Hcmd; reflexivity |].
    split; [exact Hver |]. split; reflexivity.
Qed.

Lemma Deploy_success_witness :
  let r := run_deploy SimRole.role_services SimRole.services
             (Deploy Scenario.d0 Scenario.app0 Scenario.build1) SimRole.fresh in
  exists e ver,
    last (snd r) = Some e /\ is_PublishVersion (ev_cmd e) = true /\
    ev_answer e = Some ver /\
    "arn:aws:lambda:function:shop:1" = FunctionArn ver /\
    MarshalText {| dep_FunctionArn := "arn:aws:lambda:function:shop:1" |}
      = (list_byte_of_string (FunctionArn ver), None).
Proof.
  intros r.
  destruct (Deploy_success SimRole.World SimRole.role_services SimRole.services
              Scenario.d0 Scenario.app0 Scenario.build1 SimRole.fresh
              {| config := config Scenario.d0; roleName := "lambda-shop";
                 roleArn := "arn:aws:iam::role/lambda-shop" |}
              {| dep_FunctionArn := "arn:aws:lambda:function:shop:1" |}
              (snd (fst (fst r))) (snd (fst r)) (snd r))
    as (_ & Hlast).
  - vm_compute. reflexivity.
  - exact Hlast.
Defined.

(** ** Layers: errors, objects and references *)

Section LayerShapes.
Context {W : Type} (h : Services W).

(** The seven ways the upload and publish half goes. *)
Lemma CreateLayer_publish_cases d app info name path w o w' t :
  run h (CreateLayer_publish d app info name path) w = (o, w', t) ->
  let head := s3_HeadObject {| ho_Bucket := Bucket (config d);
                               ho_Key := layerKey app info name |} in
  let upload := fun f => s3manager_Upload {| up_Body := f;
                                            up_Bucket := Bucket (config d);
                                            up_Key := layerKey app info name |} in
  let publish := lambda_PublishLayerVersion
                   {| plv_Description := layerDescription app info;
                      plv_LayerName := name;
                      plv_CompatibleRuntimes := [Runtime info];
                      plv_S3Bucket := Bucket (config d);
                      plv_S3Key := layerKey app info name |} in
  let wrapped := fun e => Wrapf e ("attempting to publish: " +:+ path) in
  (exists e, t = [Ev (os_Open path) (Err e)] /\ o = Done ("", Some e))
  \/ (exists f e, t = [Ev (os_Open path) (Ok f); Ev (file_Stat f) (Err e)] /\
                  o = Done ("", Some e))
  \/ (exists f sz t0,
         ((exists ho, t0 = [Ev head (Ok ho)])
          \/ (exists e0, t0 = [Ev head (Err e0); Ev (upload f) (Ok tt)])) /\
         ((exists e, t = (Ev (os_Open path) (Ok f) :: Ev (file_Stat f) (Ok sz) :: t0
                            ++ [Ev publish (Err e)])%list /\
                     o = Done ("", Some (wrapped e)))
          \/ (exists out, t = (Ev (os_Open path) (Ok f) :: Ev (file_Stat f) (Ok sz) :: t0
                                 ++ [Ev publish (Ok out)])%list /\
                          o = Done (plo_LayerVersionArn out, None))))
  \/ (exists f sz e0 e,
         t = [Ev (os_Open path) (Ok f); Ev (file_Stat f) (Ok sz); Ev head (Err e0);
              Ev (upload f) (Err e)] /\
         o = Done ("", None)).
Proof.
  unfold CreateLayer_publish. cbn.
  answer h; [| intros [= <- <- <-]; left; eexists; split; reflexivity].
  answer h; [| intros [= <- <- <-]; right; left; eexists _, _; split; reflexivity].
  answer h.
  - answer h; intros [= <- <- <-]; right; right; left;
      eexists _, _, [_]; (split; [left; eexists; reflexivity |]).
    + right. eexists. split; reflexivity.
    + left. eexists. split; reflexivity.
  - answer h.
    + lazymatch goal with
      | H : h (s3manager_Upload _) _ = (Ok ?u, _) |- _ => destruct u
      end.
      answer h; intros [= <- <- <-]; right; right; left;
        eexists _, _, [_; _]; (split; [right; eexists; reflexivity |]).
      * right. eexists. split; reflexivity.
      * left. eexists. split; reflexivity.
    + intros [= <- <- <-]. right. right. right. eexists _, _, _, _. split; reflexivity.
Qed.

(** A scan that returns a reference has just read details with the digest
    looked for; the reference is that of those details. *)
Lemma scanLayerVersions_found name sum vers w arn w' t :
  run h (scanLayerVersions name sum vers) w = (Done (Some (arn, None)), w', t) ->
  exists e info,
    last t = Some e /\ ev_details e = Some info /\
    glv_CodeSha256 info = sum /\ arn = glv_LayerVersionArn info.
Proof.
  revert w t. induction vers as [| ver rest IH]; intros w t; cbn; [discriminate |].
  answer h; [| discriminate].
  destruct (String.eqb (glv_CodeSha256 r) sum) eqn:Hsum; cbn.
  - intros [= <- <- <-]. apply String.eqb_eq in Hsum.
    eexists _, r. split; [reflexivity |]. split; [reflexivity |]. split; [exact Hsum |].
    reflexivity.
  - destruct (run h (scanLayerVersions name sum rest) w0) as [[o1 w1] t1] eqn:Hrest.
    intros [= -> <- <-].
    destruct (IH _ _ Hrest) as (e & info & Hlast & Hinfo & Hd & Harn).
    exists e, info. split; [| split; [exact Hinfo | split; assumption]].
    rewrite last_cons, Hlast. reflexivity.
Qed.

End LayerShapes.

Lemma last_after {A : Type} (pre t : list A) (e : A) :
  last t = Some e -> last (pre ++ t) = Some e.
Proof. intros H. rewrite last_app, H. reflexivity. Qed.

(** X13.  Which errors [CreateLayer] returns.  A run that returns an error
    returns the empty reference, and the error is that of its last command:
    unchanged when that command is the digest, a detail lookup, the opening
    or the measuring of the file, wrapped with the path when it is the
    publication.  The errors of the listing, of the existence check and of
    the upload are never returned. *)
Theorem CreateLayer_error_source :
  forall (W : Type) (h : Services W) d app info name path w x err w' t,
    run h (CreateLayer d app info name path) w = (Done (x, Some err), w', t) ->
    x = "" /\
    exists e,
      last t = Some e /\
      ((is_PublishLayerVersion (ev_cmd e) = false /\ ev_err e = Some err /\
        is_ListLayerVersions (ev_cmd e) = false /\ is_HeadObject (ev_cmd e) = false /\
        is_Upload (ev_cmd e) = false)
       \/
       (is_PublishLayerVersion (ev_cmd e) = true /\
        exists cause, ev_err e = Some cause /\
                      err = Wrapf cause ("attempting to publish: " +:+ path))).
Proof.
  intros W h d app info name path w x err w' t Hrun.
  assert (Hhalf : forall w0 t0,
             run h (CreateLayer_publish d app info name path) w0
               = (Done (x, Some err), w', t0) ->
             x = "" /\
             exists e,
               last t0 = Some e /\
               ((is_PublishLayerVersion (ev_cmd e) = false /\ ev_err e = Some err /\
                 is_ListLayerVersions (ev_cmd e) = false /\
                 is_HeadObject (ev_cmd e) = false /\ is_Upload (ev_cmd e) = false)
                \/
                (is_PublishLayerVersion (ev_cmd e) = true /\
                 exists cause, ev_err e = Some cause /\
                               err = Wrapf cause ("attempting to publish: " +:+ path)))).
  { intros w0 t0 Hp.
    destruct (CreateLayer_publish_cases h _ _ _ _ _ _ _ _ _ Hp)
      as [(e & -> & Ho) | [(f & e & -> & Ho)
         | [(f & sz & p & Hp0 & [(e & -> & Ho) | (out & -> & Ho)])
           | (f & sz & e0 & e & -> & Ho)]]];
      try discriminate; injection Ho as -> ->.
    - split; [reflexivity |]. eexists. split; [reflexivity |]. left. repeat split.
    - split; [reflexivity |]. eexists. split; [reflexivity |]. left. repeat split.
    - split; [reflexivity |]. eexists. split.
      + change (?a :: ?b :: p ++ ?l)%list with ((a :: b :: p) ++ l)%list. apply last_snoc.
      + right. split; [reflexivity |]. eexists. split; reflexivity. }
  destruct (CreateLayer_cases h _ _ _ _ _ _ _ _ _ Hrun)
    as [(e0 & -> & Ho) | [(raw & e0 & w2 & t2 & -> & Hp)
                         | (raw & out & w1 & os & ws & ts & tp & -> & Hscan & Hos)]].
  - injection Ho as -> ->. split; [reflexivity |].
    eexists. split; [reflexivity |]. left. repeat split.
  - destruct (Hhalf _ _ Hp) as (-> & e & Hlast & He). split; [reflexivity |].
    exists e. split; [| exact He].
    change (?a :: ?b :: t2) with ([a; b] ++ t2)%list. apply last_after, Hlast.
  - destruct (scanLayerVersions_run h _ _ _ _ _ _ _ Hscan) as [Hget Hout].
    destruct os as [[[y [err' |]] |] |].
    + destruct Hos as (-> & Ho & _). injection Ho as -> ->.
      destruct Hout as (-> & init & l & -> & _ & Hl). split; [reflexivity |].
      exists l. split.
      * rewrite app_nil_r.
        change (?a :: ?b :: init ++ [l])%list with ((a :: b :: init) ++ [l])%list.
        apply last_snoc.
      * left. rewrite Forall_forall in Hget.
        assert (Hk : is_GetLayerVersion (ev_cmd l) = true).
        { apply Hget. apply elem_of_app. right. apply list_elem_of_here. }
        destruct l as [c r]; destruct c; try discriminate. repeat split. exact Hl.
    + destruct Hos as (_ & Ho & _). discriminate.
    + destruct (Hhalf _ _ Hos) as (-> & e & Hlast & He). split; [reflexivity |].
      exists e. split; [| exact He].
      change (?a :: ?b :: ts ++ tp)%list with ((a :: b :: ts) ++ tp)%list.
      apply last_after, Hlast.
    + destruct Hos.
Qed.

Lemma CreateLayer_error_source_witness :
  let r := run Sim.services
             (CreateLayer Scenario.d0 Scenario.app0 Scenario.build1 "shop-lib" "lib.zip")
             Scenario.detailsFail in
  exists e,
    last (snd r) = Some e /\
    ((is_PublishLayerVersion (ev_cmd e) = false /\ ev_err e = Some Scenario.timeout /\
      is_ListLayerVersions (ev_cmd e) = false /\ is_HeadObject (ev_cmd e) = false /\
      is_Upload (ev_cmd e) = false)
     \/
     (is_PublishLayerVersion (ev_cmd e) = true /\
      exists cause, ev_err e = Some cause /\
                    Scenario.timeout = Wrapf cause ("attempting to publish: " +:+ "lib.zip"))).
Proof.
  intros r.
  apply (CreateLayer_error_source Sim.World Sim.services
           Scenario.d0 Scenario.app0 Scenario.build1 "shop-lib" "lib.zip"
           Scenario.detailsFail "" Scenario.timeout (snd (fst r)) (snd r)).
  vm_compute. reflexivity.
Defined.

(** X14.  A layer version is published only from an object known to be
    there: a publication is the last command of the run, it names the bucket
    of the configuration and the key derived from the application, the build
    and the layer name, and the command right before it is a successful
    existence check or a successful upload of that very object.  An upload
    happens only right after the existence check of that object failed. *)
Theorem CreateLayer_publishes_existing_object :
  forall (W : Type) (h : Services W) d app info name path w o w' t,
    run h (CreateLayer d app info name path) w = (o, w', t) ->
    (forall e,
        e ∈ t -> is_PublishLayerVersion (ev_cmd e) = true ->
        exists t0 p,
          t = (t0 ++ [p; e])%list /\ ev_err p = None /\
          (is_HeadObject (ev_cmd p) = true \/ is_Upload (ev_cmd p) = true) /\
          layer_object (ev_cmd p) = layer_object (ev_cmd e) /\
          layer_object (ev_cmd e) = Some (Bucket (config d), layerKey app info name))
    /\
    (forall u,
        u ∈ t -> is_Upload (ev_cmd u) = true ->
        exists t0 hd rest,
          t = (t0 ++ hd :: u :: rest)%list /\
          is_HeadObject (ev_cmd hd) = true /\ ev_err hd <> None /\
          layer_object (ev_cmd hd) = layer_object (ev_cmd u)).
Proof.
  intros W h d app info name path w o w' t Hrun.
  assert (Hhalf : forall w0 o0 w0' t0,
             run h (CreateLayer_publish d app info name path) w0 = (o0, w0', t0) ->
             forall pre,
             (forall e,
                 e ∈ t0 -> is_PublishLayerVersion (ev_cmd e) = true ->
                 exists t1 p,
                   (pre ++ t0)%list = (t1 ++ [p; e])%list /\ ev_err p = None /\
                   (is_HeadObject (ev_cmd p) = true \/ is_Upload (ev_cmd p) = true) /\
                   layer_object (ev_cmd p) = layer_object (ev_cmd e) /\
                   layer_object (ev_cmd e)
                     = Some (Bucket (config d), layerKey app info name))
             /\
             (forall u,
                 u ∈ t0 -> is_Upload (ev_cmd u) = true ->
                 exists t1 hd rest,
                   (pre ++ t0)%list = (t1 ++ hd :: u :: rest)%list /\
                   is_HeadObject (ev_cmd hd) = true /\ ev_err hd <> None /\
                   layer_object (ev_cmd hd) = layer_object (ev_cmd u))).
  { intros w0 o0 w0' t0 Hp pre.
    destruct (CreateLayer_publish_cases h _ _ _ _ _ _ _ _ _ Hp)
      as [(e & -> & _) | [(f & e & -> & _)
         | [(f & sz & p & Hp0 & Ht0) | (f & sz & e0 & e & -> & _)]]].
    - split; intros x Hx Hk; in_trace; discriminate.
    - split; intros x Hx Hk; in_trace; discriminate.
    - destruct Hp0 as [(ho & ->) | (e0 & ->)];
        destruct Ht0 as [(e & -> & _) | (out & -> & _)]; cbn [List.app];
        (split; intros x Hx Hk; in_trace; try discriminate).
      + eexists (pre ++ [_; _])%list, _.
        split; [rewrite <- app_assoc; reflexivity |]. repeat split. left. reflexivity.
      + eexists (pre ++ [_; _])%list, _.
        split; [rewrite <- app_assoc; reflexivity |]. repeat split. left. reflexivity.
      + eexists (pre ++ [_; _; _])%list, _.
        split; [rewrite <- app_assoc; reflexivity |]. repeat split. right. reflexivity.
      + eexists (pre ++ [_; _])%list, _, _.
        split; [rewrite <- app_assoc; reflexivity |]. repeat split. discriminate.
      + eexists (pre ++ [_; _; _])%list, _.
        split; [rewrite <- app_assoc; reflexivity |]. repeat split. right. reflexivity.
      + eexists (pre ++ [_; _])%list, _, _.
        split; [rewrite <- app_assoc; reflexivity |]. repeat split. discriminate.
    - split; intros x Hx Hk; in_trace; try discriminate.
      eexists (pre ++ [_; _])%list, _, _.
      split; [rewrite <- app_assoc; reflexivity |]. repeat split. discriminate. }
  assert (Hlook : forall l e,
             Forall (fun e => is_lookup (ev_cmd e) = true) l -> e ∈ l ->
             is_PublishLayerVersion (ev_cmd e) = false /\ is_Upload (ev_cmd e) = false).
  { intros l e Hl He. rewrite Forall_forall in Hl. apply Hl, lookup_kinds in He. tauto. }
  destruct (CreateLayer_cases h _ _ _ _ _ _ _ _ _ Hrun)
    as [(e0 & -> & _) | [(raw & e0 & w2 & t2 & -> & Hp)
                        | (raw & out & w1 & os & ws & ts & tp & -> & Hscan & Hos)]].
  - split; intros x Hx Hk; in_trace; discriminate.
  - destruct (Hhalf _ _ _ _ Hp [Ev (HashFile path) (Ok raw);
                                Ev (lambda_ListLayerVersions name) (Err e0)])
      as [Hpub Hup].
    split; intros x Hx Hk; in_trace; try discriminate.
    + exact (Hpub x Hx Hk).
    + exact (Hup x Hx Hk).
  - assert (Hts : Forall (fun e => is_lookup (ev_cmd e) = true) ts).
    { eapply Forall_impl;
        [exact (proj1 (scanLayerVersions_run h _ _ _ _ _ _ _ Hscan)) |].
      intros x. apply GetLayerVersion_is_lookup. }
    destruct os as [[ret |] |]; [| | destruct Hos].
    + destruct Hos as (-> & _). rewrite app_nil_r.
      split; intros x Hx Hk; in_trace; try discriminate;
        destruct (Hlook _ _ Hts Hx); congruence.
    + destruct (Hhalf _ _ _ _ Hos (Ev (HashFile path) (Ok raw)
                                     :: Ev (lambda_ListLayerVersions name) (Ok out) :: ts))
        as [Hpub Hup].
      split; intros x Hx Hk; in_trace; try discriminate;
        (apply elem_of_app in Hx; destruct Hx as [Hx | Hx];
         [destruct (Hlook _ _ Hts Hx); congruence |]).
      * exact (Hpub x Hx Hk).
      * exact (Hup x Hx Hk).
Qed.

Lemma CreateLayer_publishes_existing_object_witness :
  let r := run Sim.services
             (CreateLayer Scenario.d0 Scenario.app0 Scenario.build1 "shop-lib" "lib.zip")
             Scenario.fresh in
  let u := Ev (s3manager_Upload {| up_Body := {| f_path := "lib.zip" |};
                                   up_Bucket := "artifacts";
                                   up_Key := "shop-b1-shop-lib.zip" |}) (Ok tt) in
  exists t0 hd rest,
    snd r = (t0 ++ hd :: u :: rest)%list /\
    is_HeadObject (ev_cmd hd) = true /\ ev_err hd <> None /\
    layer_object (ev_cmd hd) = layer_object (ev_cmd u).
Proof.
  intros r u.
  destruct (CreateLayer_publishes_existing_object Sim.World Sim.services
              Scenario.d0 Scenario.app0 Scenario.build1 "shop-lib" "lib.zip"
              Scenario.fresh (fst (fst r)) (snd (fst r)) (snd r))
    as (_ & Hup).
  - vm_compute. reflexivity.
  - apply (Hup u).
    + vm_compute. repeat first [apply list_elem_of_here | apply list_elem_of_further].
    + reflexivity.
Defined.

(** X15.  Where the reference of a successful [CreateLayer] comes from.  A
    run that returns no error has computed the digest of the file first, and
    its last command decides the reference: a detail lookup that answered
    the digest of the file gives the reference of that version; a successful
    publication gives the reference of the new version; a failed upload
    gives the empty reference. *)
Theorem CreateLayer_success_origin :
  forall (W : Type) (h : Services W) d app info name path w arn w' t,
    run h (CreateLayer d app info name path) w = (Done (arn, None), w', t) ->
    exists raw rest e,
      t = Ev (HashFile path) (Ok raw) :: rest /\ last rest = Some e /\
      ((exists details, ev_details e = Some details /\
                        glv_CodeSha256 details = EncodeToString raw /\
                        arn = glv_LayerVersionArn details)
       \/
       (exists out, ev_published e = Some out /\ arn = plo_LayerVersionArn out)
       \/
       (is_Upload (ev_cmd e) = true /\ ev_err e <> None /\ arn = "")).
Proof.
  intros W h d app info name path w arn w' t Hrun.
  assert (Hhalf : forall w0 t0,
             run h (CreateLayer_publish d app info name path) w0
               = (Done (arn, None), w', t0) ->
             exists e,
               last t0 = Some e /\
               ((exists out, ev_published e = Some out /\ arn = plo_LayerVersionArn out)
                \/
                (is_Upload (ev_cmd e) = true /\ ev_err e <> None /\ arn = ""))).
  { intros w0 t0 Hp.
    destruct (CreateLayer_publish_cases h _ _ _ _ _ _ _ _ _ Hp)
      as [(e & -> & Ho) | [(f & e & -> & Ho)
         | [(f & sz & p & Hp0 & [(e & -> & Ho) | (out & -> & Ho)])
           | (f & sz & e0 & e & -> & Ho)]]];
      try discriminate; injection Ho as ->.
    - eexists. split.
      + change (?a :: ?b :: p ++ ?l)%list with ((a :: b :: p) ++ l)%list. apply last_snoc.
      + left. exists out. split; reflexivity.
    - eexists. split; [reflexivity |]. right. repeat split. discriminate. }
  destruct (CreateLayer_cases h _ _ _ _ _ _ _ _ _ Hrun)
    as [(e0 & -> & Ho) | [(raw & e0 & w2 & t2 & -> & Hp)
                         | (raw & out & w1 & os & ws & ts & tp & -> & Hscan & Hos)]].
  - discriminate.
  - destruct (Hhalf _ _ Hp) as (e & Hlast & He).
    exists raw, (Ev (lambda_ListLayerVersions name) (Err e0) :: t2), e.
    split; [reflexivity |]. split.
    + change (?a :: t2) with ([a] ++ t2)%list. apply last_after, Hlast.
    + right. exact He.
  - destruct os as [[[y [err' |]] |] |].
    + destruct Hos as (_ & Ho & _). discriminate.
    + destruct Hos as (-> & Ho & _). injection Ho as ->.
      destruct (scanLayerVersions_found h _ _ _ _ _ _ _ Hscan)
        as (e & details & Hlast & Hd & Hsum & Harn).
      exists raw, (Ev (lambda_ListLayerVersions name) (Ok out) :: ts ++ [])%list, e.
      split; [reflexivity |]. split.
      * rewrite app_nil_r. change (?a :: ts) with ([a] ++ ts)%list.
        apply last_after, Hlast.
      * left. exists details. repeat split; assumption.
    + destruct (Hhalf _ _ Hos) as (e & Hlast & He).
      exists raw, (Ev (lambda_ListLayerVersions name) (Ok out) :: ts ++ tp)%list, e.
      split; [reflexivity |]. split.
      * change (?a :: ts ++ tp)%list with ((a :: ts) ++ tp)%list.
        apply last_after, Hlast.
      * right. exact He.
    + destruct Hos.
Qed.

Lemma CreateLayer_success_origin_witness :
  let r := run Sim.services
             (CreateLayer Scenario.d0 Scenario.app0 Scenario.build1 "shop-lib" "lib.zip")
             Scenario.uploadsFail in
  exists raw rest e,
    snd r = Ev (HashFile "lib.zip") (Ok raw) :: rest /\ last rest = Some e /\
    ((exists details, ev_details e = Some details /\
                      glv_CodeSha256 details = EncodeToString raw /\
                      "" = glv_LayerVersionArn details)
     \/
     (exists out, ev_published e = Some out /\ "" = plo_LayerVersionArn out)
     \/
     (is_Upload (ev_cmd e) = true /\ ev_err e <> None /\ "" = "")).
Proof.
  intros r.
  apply (CreateLayer_success_origin Sim.World Sim.services
           Scenario.d0 Scenario.app0 Scenario.build1 "shop-lib" "lib.zip"
           Scenario.uploadsFail "" (snd (fst r)) (snd r)).
  vm_compute. reflexivity.
Defined.

(** ** The keys of the stored objects *)

Lemma append_assoc (a b c : string) : (a +:+ b) +:+ c = a +:+ (b +:+ c).
Proof.
  induction a as [| x a IH]; [reflexivity |].
  rewrite !append_cons, IH. reflexivity.
Qed.

(** Two strings that end in tails of the same length end in the same tail. *)
Lemma append_same_tail (a b s u : string) :
  String.length s = String.length u -> a +:+ s = b +:+ u -> a = b /\ s = u.
Proof.
  revert b. induction a as [| x a IH]; intros [| y b] Hlen H.
  - split; [reflexivity | exact H].
  - apply (f_equal String.length) in H. rewrite append_nil_l, append_length in H.
    cbn [String.length] in H. lia.
  - apply (f_equal String.length) in H. rewrite append_nil_l, append_length in H.
    cbn [String.length] in H. lia.
  - rewrite !append_cons in H. injection H as -> H.
    destruct (IH b Hlen H) as [-> ->]. split; reflexivity.
Qed.

Lemma append_sep_inj (c : ascii) (a b s u : string) :
  has_char c a = false -> has_char c b = false ->
  a +:+ String c s = b +:+ String c u -> a = b /\ s = u.
Proof.
  revert b. induction a as [| x a IH]; intros [| y b] Ha Hb H.
  - rewrite !append_nil_l in H. injection H as ->. split; reflexivity.
  - rewrite append_nil_l, append_cons in H. injection H as <- _.
    cbn in Hb. rewrite Ascii.eqb_refl in Hb. discriminate.
  - rewrite append_nil_l, append_cons in H. injection H as -> _.
    cbn in Ha. rewrite Ascii.eqb_refl in Ha. discriminate.
  - rewrite !append_cons in H. injection H as -> H.
    cbn in Ha, Hb. apply orb_false_iff in Ha as [_ Ha]. apply orb_false_iff in Hb as [_ Hb].
    destruct (IH b Ha Hb H) as [-> ->]. split; reflexivity.
Qed.

(** X16.  The three objects of one build never share a key: for every
    application and build, the key of the pre-layer object, the key of the
    library-layer object and the key of the application package are pairwise
    distinct. *)
Theorem object_keys_distinct :
  forall (app : Source) (info : AppInfo),
    layerKey app info (App app +:+ "-pre") <> layerKey app info (App app +:+ "-lib") /\
    layerKey app info (App app +:+ "-pre") <> appKey app info /\
    layerKey app info (App app +:+ "-lib") <> appKey app info.
Proof.
  intros app info. unfold layerKey, appKey.
  assert (Hpre : forall x, (x +:+ "-pre") +:+ ".zip" = x +:+ "-pre.zip").
  { intros x. rewrite append_assoc. reflexivity. }
  assert (Hlib : forall x, (x +:+ "-lib") +:+ ".zip" = x +:+ "-lib.zip").
  { intros x. rewrite append_assoc. reflexivity. }
  rewrite Hpre, Hlib.
  rewrite <- !(append_assoc _ _ "-pre.zip"), <- !(append_assoc _ _ "-lib.zip"),
          <- !(append_assoc _ _ "-app.zip").
  repeat split; intros H; apply append_same_tail in H as [_ H];
    solve [discriminate H | reflexivity].
Qed.

(** X17.  The key of the application package tells builds apart: when the
    names of two applications contain no hyphen, equal package keys mean the
    same application name and the same build identifier. *)
Theorem appKey_injective :
  forall (app app' : Source) (info info' : AppInfo),
    has_char "-" (App app) = false -> has_char "-" (App app') = false ->
    appKey app info = appKey app' info' ->
    App app = App app' /\ BuildId info = BuildId info'.
Proof.
  intros app app' info info' Ha Ha' H. unfold appKey in H.
  change (?a +:+ "-" +:+ ?b) with (a +:+ String "-" b) in H.
  apply append_sep_inj in H as [Happ H]; [| assumption | assumption].
  split; [exact Happ |]. apply append_inv_tail in H. exact H.
Qed.

Lemma appKey_injective_witness :
  App Scenario.app0 = App Scenario.app0 /\ BuildId Scenario.build1 = BuildId Scenario.build1.
Proof.
  apply (appKey_injective Scenario.app0 Scenario.app0 Scenario.build1 Scenario.build1);
    reflexivity.
Defined.

(** ** Configuration variables: failures and round trips *)

(** X18.  How [ConfigSet] fails.  A run that returns an error has stopped at
    the command that failed and returns the error of that command unchanged:
    the fetch, with nothing written; the write; or the publication of the
    version, which comes after the configuration with the variable was
    written successfully. *)
Theorem ConfigSet_failure :
  forall (W : Type) (h : Services W) d app cv w err w' t,
    run h (ConfigSet d app cv) w = (Done (Some err), w', t) ->
    t = [Ev (lambda_GetFunction (App app)) (Err err)]
    \/
    (exists out i,
        t = [Ev (lambda_GetFunction (App app)) (Ok out);
             Ev (lambda_UpdateFunctionConfiguration i) (Err err)] /\
        writes_back app (Configuration out) cv i)
    \/
    (exists out i cfg,
        t = [Ev (lambda_GetFunction (App app)) (Ok out);
             Ev (lambda_UpdateFunctionConfiguration i) (Ok cfg);
             Ev (lambda_PublishVersion {| pv_CodeSha256 := None;
                                          pv_FunctionName := App app |}) (Err err)] /\
        writes_back app (Configuration out) cv i).
Proof.
  intros W h d app cv w err w' t. unfold ConfigSet. cbn.
  answer h; [| intros [= <- <- <-]; left; reflexivity]. rename r into out.
  assert (Hwb : forall m,
             currentEnv (Configuration out) = m ->
             writes_back app (Configuration out) cv
               {| ufc_FunctionName := App app;
                  ufc_Layers := layerArns (Layers (Configuration out));
                  ufc_Handler := Handler (Configuration out);
                  ufc_Environment := Some (<[Name cv := Value cv]> m);
                  ufc_Role := Role (Configuration out);
                  ufc_Timeout := Timeout (Configuration out);
                  ufc_MemorySize := MemorySize (Configuration out);
                  ufc_Runtime := fc_Runtime (Configuration out) |}).
  { intros m <-. unfold writes_back. cbn. rewrite layerArns_map. repeat split. }
  destruct (Environment (Configuration out)) as [env |] eqn:Henv.
  - destruct (Variables env) as [m |] eqn:Hm; cbn; [| discriminate].
    assert (Hcur : currentEnv (Configuration out) = m).
    { unfold currentEnv. rewrite Henv, Hm. reflexivity. }
    answer h.
    + answer h; [discriminate |]. intros [= <- <- <-].
      right. right. eexists _, _, _. split; [reflexivity |]. apply Hwb, Hcur.
    + intros [= <- <- <-]. right. left. eexists _, _. split; [reflexivity |].
      apply Hwb, Hcur.
  - cbn.
    assert (Hcur : currentEnv (Configuration out) = ∅).
    { unfold currentEnv. rewrite Henv. reflexivity. }
    answer h.
    + answer h; [discriminate |]. intros [= <- <- <-].
      right. right. eexists _, _, _. split; [reflexivity |]. apply Hwb, Hcur.
    + intros [= <- <- <-]. right. left. eexists _, _. split; [reflexivity |].
      apply Hwb, Hcur.
Qed.

Lemma ConfigSet_failure_witness :
  let t := snd (run Sim.services (ConfigSet Scenario.d0 Scenario.app0 Scenario.varA)
                    Edge.publishFails) in
  t = [Ev (lambda_GetFunction "shop") (Err Scenario.timeout)]
  \/
  (exists out i,
      t = [Ev (lambda_GetFunction "shop") (Ok out);
           Ev (lambda_UpdateFunctionConfiguration i) (Err Scenario.timeout)] /\
      writes_back Scenario.app0 (Configuration out) Scenario.varA i)
  \/
  (exists out i cfg,
      t = [Ev (lambda_GetFunction "shop") (Ok out);
           Ev (lambda_UpdateFunctionConfiguration i) (Ok cfg);
           Ev (lambda_PublishVersion {| pv_CodeSha256 := None;
                                        pv_FunctionName := "shop" |})
              (Err Scenario.timeout)] /\
      writes_back Scenario.app0 (Configuration out) Scenario.varA i).
Proof.
  intros t.
  apply (ConfigSet_failure Sim.World Sim.services Scenario.d0 Scenario.app0 Scenario.varA
           Edge.publishFails Scenario.timeout
           (snd (fst (run Sim.services
                          (ConfigSet Scenario.d0 Scenario.app0 Scenario.varA)
                          Edge.publishFails))) t).
  vm_compute. reflexivity.
Defined.

(** X19.  [ConfigSet] panics exactly when the fetched configuration has an
    environment whose variable map is nil (the assignment to an entry of the
    nil map); the run has then issued the fetch and nothing else. *)
Theorem ConfigSet_panics_on_nil_map :
  forall (W : Type) (h : Services W) d app cv w w' t,
    run h (ConfigSet d app cv) w = (Crashed, w', t) <->
    exists out env,
      h (lambda_GetFunction (App app)) w = (Ok out, w') /\
      Environment (Configuration out) = Some env /\ Variables env = None /\
      t = [Ev (lambda_GetFunction (App app)) (Ok out)].
Proof.
  intros W h d app cv w w' t. split.
  - unfold ConfigSet. cbn.
    answer h; [| discriminate]. rename r into out.
    destruct (Environment (Configuration out)) as [env |] eqn:Henv.
    + destruct (Variables env) as [m |] eqn:Hm; cbn.
      * answer h; [| discriminate]. answer h; discriminate.
      * intros [= <- <-]. exists out, env. repeat split; assumption.
    + cbn. answer h; [| discriminate]. answer h; discriminate.
  - intros (out & env & Hget & Henv & Hm & ->).
    unfold ConfigSet. cbn. rewrite Hget, Henv, Hm. reflexivity.
Qed.

Lemma ConfigSet_panics_on_nil_map_witness :
  run Sim.services (ConfigSet Scenario.d0 Scenario.app0 Scenario.varA) Edge.deployedNilMap
  = (Crashed, Edge.deployedNilMap,
     [Ev (lambda_GetFunction "shop") (Ok {| Configuration := Edge.nilMap |})]).
Proof.
  apply (proj2 (ConfigSet_panics_on_nil_map Sim.World Sim.services
                  Scenario.d0 Scenario.app0 Scenario.varA Edge.deployedNilMap
                  Edge.deployedNilMap
                  [Ev (lambda_GetFunction "shop") (Ok {| Configuration := Edge.nilMap |})])).
  exists {| Configuration := Edge.nilMap |}, {| Variables := None |}.
  repeat split.
Defined.

(** X20.  Reading back what was set.  After a successful [ConfigSet] of a
    variable, on a platform that hands the written configuration back, a
    [ConfigGet] of the same name returns the value that was set; a
    [ConfigGet] of another name returns what the environment held before the
    [ConfigSet], or [ErrNoSuchVariable] with the variable unchanged when it
    held nothing under that name. *)
Theorem ConfigGet_after_ConfigSet :
  forall (W : Type) (h : Services W) d app cv q w w1 t1 o w2 t2 i cur1 cur2,
    run h (ConfigSet d app cv) w = (Done None, w1, t1) ->
    run h (ConfigGet d app q) w1 = (o, w2, t2) ->
    fetched t1 = Some cur1 -> written t1 = Some i ->
    fetched t2 = Some cur2 -> stored i cur2 ->
    (Name q = Name cv -> o = Done ({| Name := Name q; Value := Value cv |}, None)) /\
    (Name q <> Name cv ->
     o = match currentEnv cur1 !! Name q with
         | Some v => Done ({| Name := Name q; Value := v |}, None)
         | None => Done (q, Some ErrNoSuchVariable)
         end).
Proof.
  intros W h d app cv q w w1 t1 o w2 t2 i cur1 cur2 Hset Hget Hf1 Hw1 Hf2 Hst.
  destruct (ConfigSet_ok h d app cv w w1 t1 Hset)
    as (cur & i' & Hf & Hw & _ & _ & _ & Henv & _).
  rewrite Hf in Hf1. injection Hf1 as ->. rewrite Hw in Hw1. injection Hw1 as ->.
  destruct Hst as (Hsenv & _). rewrite Henv in Hsenv.
  revert Hget Hf2. unfold ConfigGet. cbn.
  answer h; [| intros [= <- <- <-]; discriminate]. rename r into out.
  destruct (Environment (Configuration out)) as [env |] eqn:He.
  - destruct (map_index (Variables env) (Name q)) as [val |] eqn:Hval;
      intros [= <- <- <-]; cbn; intros [= <-];
      rewrite He in Hsenv; injection Hsenv as ->; cbn in Hval; split; intros Hname.
    + rewrite Hname, lookup_insert_eq in Hval. injection Hval as <-. reflexivity.
    + rewrite lookup_insert_ne in Hval by congruence. rewrite Hval. reflexivity.
    + rewrite Hname, lookup_insert_eq in Hval. discriminate.
    + rewrite lookup_insert_ne in Hval by congruence. rewrite Hval. reflexivity.
  - intros [= <- <- <-]; cbn; intros [= <-]. rewrite He in Hsenv. discriminate.
Qed.

Lemma ConfigGet_after_ConfigSet_witness :
  let r1 := run Sim.services
              (ConfigSet Scenario.d0 Scenario.app0 Scenario.varA) Scenario.deployedBare in
  let r2 := run Sim.services
              (ConfigGet Scenario.d0 Scenario.app0 Edge.queryA) (snd (fst r1)) in
  fst (fst r2) = Done ({| Name := "A"; Value := "1" |}, None).
Proof.
  intros r1 r2.
  refine (proj1 (ConfigGet_after_ConfigSet Sim.World Sim.services
                   Scenario.d0 Scenario.app0 Scenario.varA Edge.queryA
                   Scenario.deployedBare (snd (fst r1)) (snd r1)
                   (fst (fst r2)) (snd (fst r2)) (snd r2)
                   {| ufc_FunctionName := "shop"; ufc_Layers := [];
                      ufc_Handler := Some "app.handler";
                      ufc_Environment := Some (<["A" := "1"]> ∅);
                      ufc_Role := Some "arn:aws:iam::role/lambda-shop";
                      ufc_Timeout := Some 60; ufc_MemorySize := Some 256;
                      ufc_Runtime := Some "ruby2.5" |}
                   Scenario.bare
                   (Sim.applyConfig Scenario.bare
                      {| ufc_FunctionName := "shop"; ufc_Layers := [];
                         ufc_Handler := Some "app.handler";
                         ufc_Environment := Some (<["A" := "1"]> ∅);
                         ufc_Role := Some "arn:aws:iam::role/lambda-shop";
                         ufc_Timeout := Some 60; ufc_MemorySize := Some 256;
                         ufc_Runtime := Some "ruby2.5" |})
                   _ _ _ _ _ _) _);
    try (vm_compute; reflexivity).
  repeat split.
Defined.

(** ** Logs: the requests of a call, and how the next call resumes *)

Section LogRequests.
Context {W : Type} (h : Services W).

Lemma fetchFrom_requests grp rest :
  forall s tok w o w' t,
    run h (fetchFrom grp rest s tok) w = (o, w', t) ->
    map ev_cmd t = requests grp tok (take (length t) (s :: rest)) /\
    (1 <= length t <= S (length rest))%nat.
Proof.
  induction rest as [| s' rest' IH]; intros s tok w o w' t; cbn.
  - answer h.
    + destruct (length (Events r) =? 0)%nat; cbn; intros [= <- <- <-];
        cbn; split; (reflexivity || lia).
    + intros [= <- <- <-]. cbn. split; (reflexivity || lia).
  - answer h.
    + destruct (length (Events r) =? 0)%nat; cbn.
      * destruct (run h (fetchFrom grp rest' s' None) w0) as [[o1 w1] t1] eqn:Hrest.
        intros [= <- <- <-].
        destruct (IH _ _ _ _ _ _ Hrest) as (Hcmds & Hlen).
        split; [| cbn; lia].
        cbn [map ev_cmd length]. rewrite Hcmds.
        destruct t1 as [| e1 t1']; [cbn in Hlen; lia |]. reflexivity.
      * intros [= <- <- <-]. cbn. split; (reflexivity || lia).
    + intros [= <- <- <-]. cbn. split; (reflexivity || lia).
Qed.

Lemma NextLogBatch_requests_run c w o w' t :
  run h (NextLogBatch c) w = (o, w', t) ->
  map ev_cmd t = requests (group c) (requestToken c) (take (length t) (pending c)) /\
  (length t <= length (pending c))%nat.
Proof.
  unfold NextLogBatch, pending, requestToken. destruct (stream c) as [s |].
  - intros Hrun. destruct (fetchFrom_requests _ _ _ _ _ _ _ _ Hrun) as [H1 H2].
    split; [exact H1 | cbn; lia].
  - destruct (streams c) as [| s rest].
    + cbn. intros [= <- <- <-]. split; [reflexivity | cbn; lia].
    + intros Hrun. destruct (fetchFrom_requests _ _ _ _ _ _ _ _ Hrun) as [H1 H2].
      split; [exact H1 | cbn; lia].
Qed.

(** The first request of a call on a viewer with a pending partition. *)
Lemma NextLogBatch_first_request c a rest w o w' t :
  pending c = a :: rest ->
  run h (NextLogBatch c) w = (o, w', t) ->
  exists e t',
    t = e :: t' /\
    ev_cmd e = logs_GetLogEvents (getLogEventsInput (group c) a (requestToken c)).
Proof.
  intros Hp Hrun.
  destruct (NextLogBatch_run h _ _ _ _ _ Hrun) as (c' & evs & err & _ & _ & Hout).
  destruct (NextLogBatch_requests_run _ _ _ _ _ Hrun) as [Hcmds _].
  rewrite Hp in Hcmds, Hout.
  destruct t as [| e t'].
  - destruct Hout as [(_ & _ & _ & _ & Hlen & _) | (sk & b & ts & e & tok & _ & _ & Ht & _)].
    + discriminate Hlen.
    + destruct ts; discriminate Ht.
  - exists e, t'. split; [reflexivity |].
    cbn in Hcmds. injection Hcmds as He _. exact He.
Qed.

(** A call that returns an error leaves the token with which the failed
    request was sent. *)
Lemma fetchFrom_error grp rest :
  forall s tok w c' evs err w' t,
    run h (fetchFrom grp rest s tok) w = (Done (c', (evs, Some err)), w', t) ->
    exists a e,
      stream c' = Some a /\ last t = Some e /\ ev_err e = Some err /\ evs = [] /\
      ev_cmd e = logs_GetLogEvents (getLogEventsInput grp a (lastToken c')).
Proof.
  induction rest as [| s' rest' IH]; intros s tok w c' evs err w' t; cbn.
  - answer h.
    + destruct (length (Events r) =? 0)%nat; cbn; intros [= <- <- <-]; discriminate.
    + intros [= <- <- <- <- <-]. eexists _, _. repeat split.
  - answer h.
    + destruct (length (Events r) =? 0)%nat; cbn.
      * destruct (run h (fetchFrom grp rest' s' None) w0) as [[o1 w1] t1] eqn:Hrest.
        intros [= -> <- <-].
        destruct (IH _ _ _ _ _ _ _ _ Hrest) as (a & e & Hs & Hlast & He & Hevs & Hcmd).
        exists a, e. repeat split; try assumption.
        rewrite last_cons, Hlast. reflexivity.
      * intros [= <- <- <-]; discriminate.
    + intros [= <- <- <- <- <-]. eexists _, _. repeat split.
Qed.

Lemma NextLogBatch_error c w c' evs err w' t :
  run h (NextLogBatch c) w = (Done (c', (evs, Some err)), w', t) ->
  exists a e,
    stream c' = Some a /\ last t = Some e /\ ev_err e = Some err /\ evs = [] /\
    ev_cmd e = logs_GetLogEvents (getLogEventsInput (group c) a (lastToken c')).
Proof.
  unfold NextLogBatch. destruct (stream c) as [s |].
  - apply fetchFrom_error.
  - destruct (streams c) as [| s rest].
    + cbn. intros [= <- <-].
    + apply fetchFrom_error.
Qed.

End LogRequests.

(** X21.  The requests of one [NextLogBatch] call.  The call asks the pending
    partitions in their order, one request each and never more requests than
    there are pending partitions; every request names the group of the
    viewer and reads from the head; the first carries the token the viewer
    holds for its active partition (none when no partition is active), the
    later ones carry no token; and every request but the last was answered
    with an empty page. *)
Theorem NextLogBatch_requests :
  forall (W : Type) (h : Services W) c w o w' t,
    run h (NextLogBatch c) w = (o, w', t) ->
    map ev_cmd t = requests (group c) (requestToken c) (take (length t) (pending c)) /\
    (length t <= length (pending c))%nat /\
    (forall (k : nat) e, t !! k = Some e -> (S k < length t)%nat -> is_empty_page e = true).
Proof.
  intros W h c w o w' t Hrun.
  destruct (NextLogBatch_requests_run h _ _ _ _ _ Hrun) as [Hcmds Hlen].
  split; [exact Hcmds |]. split; [exact Hlen |].
  destruct (NextLogBatch_run h _ _ _ _ _ Hrun) as (c' & evs & err & _ & _ & Hout).
  intros k e Hk Hlt.
  destruct Hout as [(_ & _ & _ & _ & _ & Hall)
                   | (sk & a & ts & e1 & tok & _ & _ & -> & _ & Hall & _)].
  - rewrite Forall_forall in Hall. apply Hall. eapply list_elem_of_lookup_2, Hk.
  - rewrite length_app in Hlt. cbn in Hlt.
    rewrite lookup_app_l in Hk by lia.
    rewrite Forall_forall in Hall. apply Hall. eapply list_elem_of_lookup_2, Hk.
Qed.

Lemma NextLogBatch_requests_witness :
  let r := run Sim.services (NextLogBatch Scenario.viewer23) Scenario.logging in
  map ev_cmd (snd r)
  = [logs_GetLogEvents {| gle_NextToken := None; gle_StartFromHead := true;
                          gle_LogGroupName := "/aws/lambda/shop";
                          gle_LogStreamName := "2020/01/02/[1]bbb" |};
     logs_GetLogEvents {| gle_NextToken := None; gle_StartFromHead := true;
                          gle_LogGroupName := "/aws/lambda/shop";
                          gle_LogStreamName := "2020/01/03/[1]ccc" |}]
  /\ is_empty_page (Ev (logs_GetLogEvents
                          {| gle_NextToken := None; gle_StartFromHead := true;
                             gle_LogGroupName := "/aws/lambda/shop";
                             gle_LogStreamName := "2020/01/02/[1]bbb" |})
                       (Ok {| Events := []; NextForwardToken := None |})) = true.
Proof.
  intros r.
  destruct (NextLogBatch_requests Sim.World Sim.services Scenario.viewer23
              Scenario.logging (fst (fst r)) (snd (fst r)) (snd r))
    as (Hcmds & _ & Hempty).
  - vm_compute. reflexivity.
  - split.
    + rewrite Hcmds. vm_compute. reflexivity.
    + apply (Hempty 0%nat); vm_compute; [reflexivity | lia].
Defined.

(** X22.  Paging.  After a call that returned events, the next call starts
    with a request to the same partition, in the same group, with the
    forward token of the page those events came from. *)
Theorem NextLogBatch_continues_page :
  forall (W : Type) (h : Services W) c w c' evs err w1 t1 w2 o2 w3 t2,
    run h (NextLogBatch c) w = (Done (c', (evs, err)), w1, t1) ->
    evs <> [] ->
    run h (NextLogBatch c') w2 = (o2, w3, t2) ->
    exists a e1 out e2 t2',
      stream c' = Some a /\ last t1 = Some e1 /\ ev_page e1 = Some out /\
      t2 = e2 :: t2' /\
      ev_cmd e2 =
        logs_GetLogEvents (getLogEventsInput (group c) a (NextForwardToken out)).
Proof.
  intros W h c w c' evs err w1 t1 w2 o2 w3 t2 Hrun Hne Hnext.
  destruct (NextLogBatch_run h _ _ _ _ _ Hrun) as (c1 & evs1 & err1 & Heq & Hgrp & Hout).
  injection Heq as <- <- <-.
  destruct Hout as [(_ & _ & -> & _)
                   | (sk & a & ts & e & tok & _ & Hs & -> & _ & _ & _ & Hend)];
    [contradiction |].
  destruct Hend as [(out & Hpage & _ & _ & _ & Htok) | (e0 & _ & -> & _)];
    [| contradiction].
  assert (Hp : pending c' = a :: streams c').
  { unfold pending. rewrite Hs. reflexivity. }
  destruct (NextLogBatch_first_request h _ _ _ _ _ _ _ Hp Hnext) as (e2 & t2' & -> & Hcmd).
  exists a, e, out, e2, t2'.
  split; [exact Hs |]. split; [apply last_snoc |]. split; [exact Hpage |].
  split; [reflexivity |].
  rewrite Hcmd, Hgrp. unfold requestToken. rewrite Hs, Htok. reflexivity.
Qed.

Lemma NextLogBatch_continues_page_witness :
  let r1 := run Sim.services (NextLogBatch Scenario.viewer0) Scenario.logging in
  let r2 := run Sim.services (NextLogBatch Edge.active1) Scenario.logging in
  exists a e1 out e2 t2',
    stream Edge.active1 = Some a /\ last (snd r1) = Some e1 /\ ev_page e1 = Some out /\
    snd r2 = e2 :: t2' /\
    ev_cmd e2 =
      logs_GetLogEvents (getLogEventsInput "/aws/lambda/shop" a (NextForwardToken out)).
Proof.
  intros r1 r2.
  apply (NextLogBatch_continues_page Sim.World Sim.services Scenario.viewer0
           Scenario.logging Edge.active1 (Scenario.returned r1) None
           (snd (fst r1)) (snd r1)
           Scenario.logging (fst (fst r2)) (snd (fst r2)) (snd r2)).
  - vm_compute. reflexivity.
  - vm_compute. discriminate.
  - vm_compute. reflexivity.
Defined.

(** X23.  Retrying.  A call that returns an error returns no event and
    keeps the partition and the token of the request that failed: the next
    call starts by sending that request again. *)
Theorem NextLogBatch_retries_failed_request :
  forall (W : Type) (h : Services W) c w c' evs err w1 t1 w2 o2 w3 t2,
    run h (NextLogBatch c) w = (Done (c', (evs, Some err)), w1, t1) ->
    run h (NextLogBatch c') w2 = (o2, w3, t2) ->
    evs = [] /\
    exists e1 e2 t2',
      last t1 = Some e1 /\ ev_err e1 = Some err /\
      t2 = e2 :: t2' /\ ev_cmd e2 = ev_cmd e1.
Proof.
  intros W h c w c' evs err w1 t1 w2 o2 w3 t2 Hrun Hnext.
  destruct (NextLogBatch_error h _ _ _ _ _ _ _ Hrun) as (a & e1 & Hs & Hlast & He & -> & Hcmd).
  destruct (NextLogBatch_run h _ _ _ _ _ Hrun) as (c1 & evs1 & err1 & Heq & Hgrp & _).
  injection Heq as <- _ _.
  assert (Hp : pending c' = a :: streams c').
  { unfold pending. rewrite Hs. reflexivity. }
  destruct (NextLogBatch_first_request h _ _ _ _ _ _ _ Hp Hnext) as (e2 & t2' & -> & Hcmd2).
  split; [reflexivity |]. exists e1, e2, t2'.
  split; [exact Hlast |]. split; [exact He |]. split; [reflexivity |].
  rewrite Hcmd, Hcmd2, Hgrp. unfold requestToken. rewrite Hs. reflexivity.
Qed.

Lemma NextLogBatch_retries_failed_request_witness :
  let r1 := run Sim.services (NextLogBatch Scenario.viewer0) Edge.logsFail in
  let r2 := run Sim.services (NextLogBatch Edge.failed1) Edge.logsFail in
  Scenario.returned r1 = [] /\
  exists e1 e2 t2',
    last (snd r1) = Some e1 /\ ev_err e1 = Some Scenario.timeout /\
    snd r2 = e2 :: t2' /\ ev_cmd e2 = ev_cmd e1.
Proof.
  intros r1 r2.
  apply (NextLogBatch_retries_failed_request Sim.World Sim.services Scenario.viewer0
           Edge.logsFail Edge.failed1 (Scenario.returned r1) Scenario.timeout
           (snd (fst r1)) (snd r1)
           Edge.logsFail (fst (fst r2)) (snd (fst r2)) (snd r2)).
  - vm_compute. reflexivity.
  - vm_compute. reflexivity.
Defined.

(** ** Logs: from [Logs] to the calls on its viewer *)

Section LogViewerRuns.
Context {W : Type} (h : Services W).

Lemma requests_asks grp tok parts c :
  c ∈ requests grp tok parts ->
  exists s tok', s ∈ parts /\ c = logs_GetLogEvents (getLogEventsInput grp s tok').
Proof.
  destruct parts as [| s rest]; cbn; intros Hc.
  - apply elem_of_nil in Hc. destruct Hc.
  - apply elem_of_cons in Hc. destruct Hc as [-> | Hc].
    + exists s, tok. split; [apply list_elem_of_here | reflexivity].
    + change (map ?f rest) with (f <$> rest) in Hc.
      apply list_elem_of_fmap in Hc. destruct Hc as (s' & -> & Hs').
      exists s', None. split; [apply list_elem_of_further, Hs' | reflexivity].
Qed.

Lemma NextLogBatch_asks c w o w' t :
  run h (NextLogBatch c) w = (o, w', t) ->
  Forall (asks (group c) (pending c)) t.
Proof.
  intros Hrun.
  destruct (NextLogBatch_requests_run h _ _ _ _ _ Hrun) as [Hcmds _].
  apply Forall_forall. intros e He.
  assert (Hc : ev_cmd e ∈ map ev_cmd t).
  { change (map ev_cmd t) with (ev_cmd <$> t). apply list_elem_of_fmap.
    exists e. split; [reflexivity | exact He]. }
  rewrite Hcmds in Hc. apply requests_asks in Hc.
  destruct Hc as (s & tok & Hs & Hcmd).
  exists s, tok. split; [| exact Hcmd].
  rewrite <- (take_drop (length t) (pending c)). apply elem_of_app. left. exact Hs.
Qed.

Lemma batch_outcome_pending grp parts t c' evs err s :
  batch_outcome grp parts t c' evs err -> s ∈ pending c' -> s ∈ parts.
Proof.
  unfold pending.
  intros [(Hs & Hss & _) | (skipped & a & ts & e & tok & -> & Hs & _)]; rewrite Hs.
  - rewrite Hss. intros H. apply elem_of_nil in H. destruct H.
  - intros H. apply elem_of_app. right. exact H.
Qed.

Lemma asks_mono grp parts parts' e :
  (forall s, s ∈ parts -> s ∈ parts') -> asks grp parts e -> asks grp parts' e.
Proof.
  intros Hsub (s & tok & Hs & Hcmd). exists s, tok. split; [apply Hsub, Hs | exact Hcmd].
Qed.

Lemma NextLogBatch_times_asks n :
  forall c w,
    Forall (asks (group c) (pending c)) (snd (run h (NextLogBatch_times n c) w)).
Proof.
  induction n as [| n IH]; intros c w.
  - cbn. constructor.
  - change (NextLogBatch_times (S n) c)
      with (bind (NextLogBatch c)
                 (fun r => bind (NextLogBatch_times n (fst r))
                                (fun rest => Ret (fst rest, (fst (snd r) ++ snd rest)%list)))).
    rewrite run_bind.
    destruct (run h (NextLogBatch c) w) as [[o w1] t1] eqn:Hcall.
    pose proof (NextLogBatch_asks _ _ _ _ _ Hcall) as Hfirst.
    destruct (NextLogBatch_run h _ _ _ _ _ Hcall) as (c1 & evs1 & err1 & -> & Hgrp & Hout).
    rewrite run_bind. cbn [fst snd].
    pose proof (IH c1 w1) as Hrest.
    destruct (run h (NextLogBatch_times n c1) w1) as [[o2 w2] t2].
    cbn [snd] in Hrest.
    assert (Hall : Forall (asks (group c) (pending c)) (t1 ++ t2)%list).
    { apply Forall_app. split; [exact Hfirst |].
      eapply Forall_impl; [exact Hrest |].
      intros e He. rewrite Hgrp in He. eapply asks_mono; [| exact He].
      intros s. apply (batch_outcome_pending _ _ _ _ _ _ _ Hout). }
    destruct o2 as [rest |]; cbn.
    + rewrite app_nil_r. exact Hall.
    + exact Hall.
Qed.

End LogViewerRuns.

(** X24.  From [Logs] to the events.  [Logs] sends one request, for the
    streams of the group ["/aws/lambda/<application>"] in ascending order of
    their last event time, and never panics.  When the request fails, its
    error is returned and no viewer.  Otherwise, in any number of calls on
    the viewer returned, the partitions of the events follow the order in
    which the streams were listed, and every request asks, from the head,
    for the events of a listed stream in that group. *)
Theorem Logs_then_NextLogBatch :
  forall (W : Type) (h : Services W) d app w o w1 t0,
    run h (Logs d app) w = (o, w1, t0) ->
    exists r,
      t0 = [Ev (logs_DescribeLogStreams
                  {| dls_LogGroupName := "/aws/lambda/" +:+ App app;
                     dls_Descending := false;
                     dls_OrderBy := "LastEventTime" |}) r] /\
      match r with
      | Err e => o = Done (None, Some e)
      | Ok out =>
          exists c,
            o = Done (Some c, None) /\
            forall n w2,
              exists c' evs,
                fst (fst (run h (NextLogBatch_times n c) w2)) = Done (c', evs) /\
                follows (map LogStreamName (LogStreams out)) (map Partition evs) /\
                Forall (asks ("/aws/lambda/" +:+ App app) (LogStreams out))
                       (snd (run h (NextLogBatch_times n c) w2))
      end.
Proof.
  intros W h d app w o w1 t0 Hrun.
  destruct (Logs_viewer h d app w) as (r & w1' & Hlogs).
  rewrite Hlogs in Hrun. injection Hrun as <- <- <-.
  exists r. split; [reflexivity |].
  destruct r as [out | e]; [| reflexivity].
  eexists. split; [reflexivity |].
  intros n w2.
  set (c := {| group := logGroupName app; lastToken := None; stream := None;
               streams := LogStreams out |}).
  destruct (NextLogBatch_times_follows h n c w2) as (c' & evs & Hdone & Hfollows).
  exists c', evs. split; [exact Hdone |]. split; [exact Hfollows |].
  exact (NextLogBatch_times_asks h n c w2).
Qed.

Lemma Logs_then_NextLogBatch_witness :
  let r0 := run Sim.services (Logs Scenario.d0 Scenario.app0) Scenario.logging in
  exists r,
    snd r0 = [Ev (logs_DescribeLogStreams
                    {| dls_LogGroupName := "/aws/lambda/" +:+ "shop";
                       dls_Descending := false;
                       dls_OrderBy := "LastEventTime" |}) r] /\
    match r with
    | Err e => fst (fst r0) = Done (None, Some e)
    | Ok out =>
        exists c,
          fst (fst r0) = Done (Some c, None) /\
          forall n w2,
            exists c' evs,
              fst (fst (run Sim.services (NextLogBatch_times n c) w2)) = Done (c', evs) /\
              follows (map LogStreamName (LogStreams out)) (map Partition evs) /\
              Forall (asks ("/aws/lambda/" +:+ "shop") (LogStreams out))
                     (snd (run Sim.services (NextLogBatch_times n c) w2))
    end.
Proof.
  intros r0.
  apply (Logs_then_NextLogBatch Sim.World Sim.services Scenario.d0 Scenario.app0
           Scenario.logging (fst (fst r0)) (snd (fst r0)) (snd r0)).
  vm_compute. reflexivity.
Defined.

(** X25.  The loop of [NextLogBatch] ends.  Run turn by turn, the loop
    reaches a [return] within the number of remaining partitions plus two
    turns: it neither panics nor goes on for ever, it returns what
    [NextLogBatch] gives, and it has sent at most one request for each
    pending partition. *)
Theorem NextLogBatch_loop_returns :
  forall (W : Type) (h : Services W) c fuel w,
    (length (streams c) + 2 <= fuel)%nat ->
    exists c' evs err w' t,
      run h (NextLogBatch_loop fuel c) w = (Done (Some (c', (evs, err))), w', t) /\
      run h (NextLogBatch c) w = (Done (c', (evs, err)), w', t) /\
      (length t <= length (pending c))%nat.
Proof.
  intros W h c fuel w Hfuel.
  rewrite (NextLogBatch_loop_total h c fuel w Hfuel).
  destruct (run h (NextLogBatch c) w) as [[o w'] t] eqn:Hrun.
  destruct (NextLogBatch_run h _ _ _ _ _ Hrun) as (c' & evs & err & -> & _ & _).
  destruct (NextLogBatch_requests_run h _ _ _ _ _ Hrun) as [_ Hlen].
  exists c', evs, err, w', t. repeat split. exact Hlen.
Qed.

Lemma NextLogBatch_loop_returns_witness :
  exists c' evs err w' t,
    run Sim.services (NextLogBatch_loop 5 Scenario.viewer0) Scenario.logging
      = (Done (Some (c', (evs, err))), w', t) /\
    run Sim.services (NextLogBatch Scenario.viewer0) Scenario.logging
      = (Done (c', (evs, err)), w', t) /\
    (length t <= length (pending Scenario.viewer0))%nat.
Proof.
  apply (NextLogBatch_loop_returns Sim.World Sim.services Scenario.viewer0 5
           Scenario.logging).
  vm_compute. lia.
Defined.

(** ** The digest of a file *)

Lemma EncodeToString_1 a :
  EncodeToString [a] =
  let v := (Byte.to_N a * 65536)%N in
  String (b64_char (v / 262144)) (String (b64_char (v / 4096 mod 64)) "==").
Proof. reflexivity. Qed.

Lemma EncodeToString_2 a b :
  EncodeToString [a; b] =
  let v := (Byte.to_N a * 65536 + Byte.to_N b * 256)%N in
  String (b64_char (v / 262144)) (String (b64_char (v / 4096 mod 64))
    (String (b64_char (v / 64 mod 64)) "=")).
Proof. reflexivity. Qed.

Lemma EncodeToString_3 a b c rest :
  EncodeToString (a :: b :: c :: rest) =
  let v := (Byte.to_N a * 65536 + Byte.to_N b * 256 + Byte.to_N c)%N in
  String (b64_char (v / 262144)) (String (b64_char (v / 4096 mod 64))
    (String (b64_char (v / 64 mod 64)) (String (b64_char (v mod 64))
      (EncodeToString rest)))).
Proof. reflexivity. Qed.

(** The sixty-four characters of the alphabet are pairwise distinct, and
    none is the padding character. *)
Lemma b64_char_inj (n m : N) :
  (n < 64)%N -> (m < 64)%N -> b64_char n = b64_char m -> n = m.
Proof.
  intros Hn Hm H.
  assert (Hall : forallb (fun i => forallb (fun j =>
                   implb (Ascii.eqb (b64_char (N.of_nat i)) (b64_char (N.of_nat j)))
                         (Nat.eqb i j)) (seq 0 64)) (seq 0 64) = true)
    by (vm_compute; reflexivity).
  rewrite forallb_forall in Hall.
  specialize (Hall (N.to_nat n) ltac:(apply in_seq; lia)).
  rewrite forallb_forall in Hall.
  specialize (Hall (N.to_nat m) ltac:(apply in_seq; lia)).
  rewrite !N2Nat.id, H, Ascii.eqb_refl in Hall. cbn in Hall.
  apply Nat.eqb_eq in Hall. lia.
Qed.

Lemma b64_char_not_pad (n : N) : (n < 64)%N -> b64_char n <> "="%char.
Proof.
  intros Hn H.
  assert (Hall : forallb (fun i => negb (Ascii.eqb (b64_char (N.of_nat i)) "=")) (seq 0 64)
                 = true)
    by (vm_compute; reflexivity).
  rewrite forallb_forall in Hall.
  specialize (Hall (N.to_nat n) ltac:(apply in_seq; lia)).
  rewrite N2Nat.id, H in Hall. discriminate.
Qed.

(** A number is given by its four base-64 digits. *)
Lemma digits_inj (v v' : N) :
  (v / 262144 = v' / 262144)%N -> (v / 4096 mod 64 = v' / 4096 mod 64)%N ->
  (v / 64 mod 64 = v' / 64 mod 64)%N -> (v mod 64 = v' mod 64)%N -> v = v'.
Proof.
  intros H1 H2 H3 H4.
  assert (E2 : (v / 4096 = v' / 4096)%N).
  { rewrite (N.div_mod' (v / 4096) 64), (N.div_mod' (v' / 4096) 64).
    rewrite !N.Div0.div_div. change (4096 * 64)%N with 262144%N.
    rewrite H1, H2. reflexivity. }
  assert (E3 : (v / 64 = v' / 64)%N).
  { rewrite (N.div_mod' (v / 64) 64), (N.div_mod' (v' / 64) 64).
    rewrite !N.Div0.div_div. change (64 * 64)%N with 4096%N.
    rewrite E2, H3. reflexivity. }
  rewrite (N.div_mod' v 64), (N.div_mod' v' 64), E3, H4. reflexivity.
Qed.

Lemma digit1_lt (v : N) : (v < 16777216)%N -> (v / 262144 < 64)%N.
Proof. intros H. apply N.Div0.div_lt_upper_bound. exact H. Qed.

Lemma digit_lt (v : N) : (v mod 64 < 64)%N.
Proof. apply N.mod_lt. discriminate. Qed.

Lemma low_digit_0 (x : N) : ((x * 64) mod 64 = 0)%N.
Proof. apply N.Div0.mod_mul. Qed.

Lemma low_digit2_0 (x : N) : ((x * 4096) / 64 mod 64 = 0)%N.
Proof.
  change 4096%N with (64 * 64)%N. rewrite N.mul_assoc, N.div_mul by discriminate.
  apply N.Div0.mod_mul.
Qed.

Lemma to_N_inj (a b : byte) : Byte.to_N a = Byte.to_N b -> a = b.
Proof.
  intros H. pose proof (Byte.of_to_N a) as Ha. rewrite H, Byte.of_to_N in Ha.
  injection Ha as ->. reflexivity.
Qed.

Lemma EncodeToString_inj_upto (n : nat) :
  forall x y : list byte,
    (length x <= n)%nat -> EncodeToString x = EncodeToString y -> x = y.
Proof.
  induction n as [| n IH]; intros x y Hlen H.
  - destruct x; [| cbn in Hlen; lia].
    destruct y as [| a [| b [| c rest]]]; [reflexivity | | |];
      rewrite ?EncodeToString_1, ?EncodeToString_2, ?EncodeToString_3 in H;
      discriminate H.
  - destruct x as [| a [| b [| c rest]]]; destruct y as [| a' [| b' [| c' rest']]];
      rewrite ?EncodeToString_1, ?EncodeToString_2, ?EncodeToString_3 in H;
      cbv zeta in H; try discriminate H; try reflexivity.
    + (* one byte, one byte *)
      injection H as H1 H2.
      pose proof (Byte.to_N_bounded a). pose proof (Byte.to_N_bounded a').
      apply b64_char_inj in H1; [| apply digit1_lt; lia | apply digit1_lt; lia].
      apply b64_char_inj in H2; [| apply digit_lt | apply digit_lt].
      assert (Byte.to_N a * 65536 = Byte.to_N a' * 65536)%N as Hv.
      { apply digits_inj; try assumption.
        - change 65536%N with (16 * 4096)%N. rewrite !N.mul_assoc, !low_digit2_0.
          reflexivity.
        - change 65536%N with (1024 * 64)%N. rewrite !N.mul_assoc, !low_digit_0.
          reflexivity. }
      f_equal. apply to_N_inj. lia.
    + (* one byte, two bytes *)
      injection H as _ _ H3. symmetry in H3.
      apply b64_char_not_pad in H3; [destruct H3 | apply digit_lt].
    + injection H as _ _ H3 _. symmetry in H3.
      apply b64_char_not_pad in H3; [destruct H3 | apply digit_lt].
    + injection H as _ _ H3.
      apply b64_char_not_pad in H3; [destruct H3 | apply digit_lt].
    + (* two bytes, two bytes *)
      injection H as H1 H2 H3.
      pose proof (Byte.to_N_bounded a). pose proof (Byte.to_N_bounded a').
      pose proof (Byte.to_N_bounded b). pose proof (Byte.to_N_bounded b').
      apply b64_char_inj in H1; [| apply digit1_lt; lia | apply digit1_lt; lia].
      apply b64_char_inj in H2; [| apply digit_lt | apply digit_lt].
      apply b64_char_inj in H3; [| apply digit_lt | apply digit_lt].
      assert (Byte.to_N a * 65536 + Byte.to_N b * 256
              = Byte.to_N a' * 65536 + Byte.to_N b' * 256)%N as Hv.
      { apply digits_inj; try assumption.
        replace (Byte.to_N a * 65536 + Byte.to_N b * 256)%N
          with ((Byte.to_N a * 1024 + Byte.to_N b * 4) * 64)%N by lia.
        replace (Byte.to_N a' * 65536 + Byte.to_N b' * 256)%N
          with ((Byte.to_N a' * 1024 + Byte.to_N b' * 4) * 64)%N by lia.
        rewrite !low_digit_0. reflexivity. }
      assert (Byte.to_N a = Byte.to_N a' /\ Byte.to_N b = Byte.to_N b') as [Ea Eb] by lia.
      apply to_N_inj in Ea, Eb. subst. reflexivity.
    + injection H as _ _ _ H4. symmetry in H4.
      apply b64_char_not_pad in H4; [destruct H4 | apply digit_lt].
    + injection H as _ _ H3 _.
      apply b64_char_not_pad in H3; [destruct H3 | apply digit_lt].
    + injection H as _ _ _ H4.
      apply b64_char_not_pad in H4; [destruct H4 | apply digit_lt].
    + (* three bytes and more *)
      injection H as H1 H2 H3 H4 Hrest.
      pose proof (Byte.to_N_bounded a). pose proof (Byte.to_N_bounded a').
      pose proof (Byte.to_N_bounded b). pose proof (Byte.to_N_bounded b').
      pose proof (Byte.to_N_bounded c). pose proof (Byte.to_N_bounded c').
      apply b64_char_inj in H1; [| apply digit1_lt; lia | apply digit1_lt; lia].
      apply b64_char_inj in H2; [| apply digit_lt | apply digit_lt].
      apply b64_char_inj in H3; [| apply digit_lt | apply digit_lt].
      apply b64_char_inj in H4; [| apply digit_lt | apply digit_lt].
      pose proof (digits_inj _ _ H1 H2 H3 H4) as Hv.
      assert (Byte.to_N a = Byte.to_N a' /\ Byte.to_N b = Byte.to_N b' /\
              Byte.to_N c = Byte.to_N c') as (Ea & Eb & Ec) by lia.
      apply to_N_inj in Ea, Eb, Ec. subst.
      rewrite (IH rest rest'); [reflexivity | cbn in Hlen; lia | exact Hrest].
Qed.

Lemma EncodeToString_inj (x y : list byte) :
  EncodeToString x = EncodeToString y -> x = y.
Proof. apply (EncodeToString_inj_upto (length x)). lia. Qed.

(** X26.  The digest string stands for the digest.  A [LambdaCodeSha256]
    run sends one command, the digest of the file, and returns its error
    unchanged with the empty string, or its encoding; and two runs that
    return the same string without error, on whatever files and platforms,
    were answered the same raw digest. *)
Theorem LambdaCodeSha256_faithful :
  forall (W : Type) (h : Services W) p1 p2 w1 w2 s w1' w2' t1 t2,
    run h (LambdaCodeSha256 p1) w1 = (Done (s, None), w1', t1) ->
    run h (LambdaCodeSha256 p2) w2 = (Done (s, None), w2', t2) ->
    exists raw,
      t1 = [Ev (HashFile p1) (Ok raw)] /\ t2 = [Ev (HashFile p2) (Ok raw)] /\
      s = EncodeToString raw.
Proof.
  intros W h p1 p2 w1 w2 s w1' w2' t1 t2. unfold LambdaCodeSha256. cbn.
  answer h; [| discriminate]. intros [= <- <- <-].
  answer h; [| discriminate]. intros [= Henc <- <-].
  apply EncodeToString_inj in Henc. subst.
  eexists. repeat split.
Qed.

Lemma LambdaCodeSha256_faithful_witness :
  let r1 := run Sim.services (LambdaCodeSha256 "lib.zip") Scenario.fresh in
  let r2 := run Sim.services (LambdaCodeSha256 "lib.zip") Scenario.uploadsFail in
  exists raw,
    snd r1 = [Ev (HashFile "lib.zip") (Ok raw)] /\
    snd r2 = [Ev (HashFile "lib.zip") (Ok raw)] /\
    "BAUG" = EncodeToString raw.
Proof.
  intros r1 r2.
  apply (LambdaCodeSha256_faithful Sim.World Sim.services "lib.zip" "lib.zip"
           Scenario.fresh Scenario.uploadsFail "BAUG"
           (snd (fst r1)) (snd (fst r2)) (snd r1) (snd r2)).
  - vm_compute. reflexivity.
  - vm_compute. reflexivity.
Defined.
